(** * InteractiveGraph: the force-directed layout engine

    A shallow embedding of [frontend/src/components/InteractiveGraph.tsx]:
    the circular initialisation, the [simulate] tick, the pointer handlers
    and the edge and node rendering, followed by the properties the
    specification states about them.

    Numbers.  A JavaScript number is modelled as an exact real, one of the
    two infinities, or NaN.  Rounding, overflow, underflow and the sign of
    zero are not modelled: arithmetic on finite operands is exact, and the
    special values appear only where IEEE 754 produces them from exact
    operands (division by zero, infinity minus infinity, square root of a
    negative number).  The statements below are therefore about the
    formulas the code computes; none of them asserts that a computation
    stays finite where a double could overflow.
    An optional field ([x?: number]) is an [option number]. *)

From Stdlib Require Import Reals Lra Lia List String Bool Arith.
From Stdlib Require Import DecimalString DecimalNat NArith Ascii.
Import ListNotations.

Open Scope R_scope.

(** ** JavaScript numbers *)

Module Js.

Inductive number : Type :=
| Fin (r : R)
| PInf
| NInf
| NaN.

Definition zero : number := Fin 0.

Definition neg (a : number) : number :=
  match a with
  | Fin r => Fin (- r)
  | PInf => NInf
  | NInf => PInf
  | NaN => NaN
  end.

Definition add (a b : number) : number :=
  match a, b with
  | NaN, _ | _, NaN => NaN
  | Fin r, Fin s => Fin (r + s)
  | PInf, NInf | NInf, PInf => NaN
  | PInf, _ | _, PInf => PInf
  | NInf, _ | _, NInf => NInf
  end.

Definition sub (a b : number) : number := add a (neg b).

(** The infinity carrying the sign of [r] times the sign of [inf]; NaN when
    [r] is zero. *)
Definition signed_inf (r : R) (inf : number) : number :=
  if Rlt_dec 0 r then inf
  else if Rlt_dec r 0 then neg inf
  else NaN.

Definition mul (a b : number) : number :=
  match a, b with
  | NaN, _ | _, NaN => NaN
  | Fin r, Fin s => Fin (r * s)
  | Fin r, inf | inf, Fin r => signed_inf r inf
  | PInf, PInf | NInf, NInf => PInf
  | PInf, NInf | NInf, PInf => NInf
  end.

(** Division.  A zero divisor is taken as the positive zero (the only
    divisors of the component are results of [Math.sqrt] and its square). *)
Definition div (a b : number) : number :=
  match a, b with
  | NaN, _ | _, NaN => NaN
  | Fin r, Fin s =>
      if Req_dec_T s 0 then signed_inf r PInf else Fin (r / s)
  | Fin _, _ => Fin 0
  | inf, Fin s => if Rlt_dec s 0 then neg inf else inf
  | _, _ => NaN
  end.

Definition sqrt (a : number) : number :=
  match a with
  | Fin r => if Rlt_dec r 0 then NaN else Fin (R_sqrt.sqrt r)
  | PInf => PInf
  | NInf | NaN => NaN
  end.

Definition cos (a : number) : number :=
  match a with Fin r => Fin (Rtrigo_def.cos r) | _ => NaN end.

Definition sin (a : number) : number :=
  match a with Fin r => Fin (Rtrigo_def.sin r) | _ => NaN end.

(** [a < b]; every comparison with NaN is false. *)
Definition lt (a b : number) : bool :=
  match a, b with
  | NaN, _ | _, NaN => false
  | Fin r, Fin s => if Rlt_dec r s then true else false
  | _, NInf => false
  | NInf, _ => true
  | PInf, _ => false
  | _, PInf => true
  end.

Definition gt (a b : number) : bool := lt b a.

(** [Math.max] and [Math.min] of two arguments: NaN if either is NaN. *)
Definition max (a b : number) : number :=
  match a, b with
  | NaN, _ | _, NaN => NaN
  | _, _ => if lt a b then b else a
  end.

Definition min (a b : number) : number :=
  match a, b with
  | NaN, _ | _, NaN => NaN
  | _, _ => if lt b a then b else a
  end.

(** Truthiness of a number: false for zero and NaN. *)
Definition truthy (a : number) : bool :=
  match a with
  | Fin r => if Req_dec_T r 0 then false else true
  | PInf | NInf => true
  | NaN => false
  end.

(** [v || 0] *)
Definition or_zero (v : option number) : number :=
  match v with
  | Some a => if truthy a then a else zero
  | None => zero
  end.

Definition finite (a : number) : Prop :=
  match a with Fin _ => True | _ => False end.

End Js.

Import Js.

Declare Scope js_scope.
Delimit Scope js_scope with js.
Bind Scope js_scope with number.
Infix "+" := Js.add : js_scope.
Infix "-" := Js.sub : js_scope.
Infix "*" := Js.mul : js_scope.
Infix "/" := Js.div : js_scope.
Infix "<?" := Js.lt (at level 70) : js_scope.
Infix ">?" := Js.gt (at level 70) : js_scope.

(** ** Data model *)

Module Node.
Record t : Type := mk {
  id : string;
  label : string;
  type : string;
  description : option string;
  size : string;
  x : option number;
  y : option number;
  vx : option number;
  vy : option number
}.
End Node.

Module Edge.
Record t : Type := mk {
  from : string;
  to : string;
  label : option string;
  type : string
}.
End Edge.

Record GraphData : Type := {
  data_nodes : list Node.t;
  data_edges : list Edge.t
}.

(** [{ ...node, x, y, vx, vy }] *)
Definition with_motion (node : Node.t) (x y vx vy : number) : Node.t :=
  Node.mk (Node.id node) (Node.label node) (Node.type node)
          (Node.description node) (Node.size node)
          (Some x) (Some y) (Some vx) (Some vy).

(** The guard [if (!node.x || !node.y) continue]: the coordinates of a node
    whose [x] and [y] are both truthy, [None] otherwise. *)
Definition position (node : Node.t) : option (number * number) :=
  match Node.x node, Node.y node with
  | Some px, Some py => if truthy px && truthy py then Some (px, py) else None
  | _, _ => None
  end.

(** [nodes.find(n => n.id === key)] *)
Definition find_node (key : string) (nodes : list Node.t) : option Node.t :=
  find (fun n => String.eqb (Node.id n) key) nodes.

(** [nodes[i] = node] on an array; an index past the end is never written
    by the component and leaves the list as it is. *)
Fixpoint set_nth (i : nat) (node : Node.t) (nodes : list Node.t) : list Node.t :=
  match nodes, i with
  | [], _ => []
  | _ :: rest, O => node :: rest
  | n :: rest, S i' => n :: set_nth i' node rest
  end.

(** [array.map((elem, index) => f(elem, index))] *)
Fixpoint mapi_from {A B : Type} (f : A -> nat -> B) (k : nat) (l : list A) : list B :=
  match l with
  | [] => []
  | a :: rest => f a k :: mapi_from f (S k) rest
  end.

Definition mapi {A B : Type} (f : A -> nat -> B) (l : list A) : list B :=
  mapi_from f 0 l.

(** ** The layout engine *)

Definition force : Type := (number * number)%type.

Section Engine.

(** The props [width] and [height] (defaults 800 and 600) and [data.edges]. *)
Variables width height : R.
Variable edges : list Edge.t.

Definition centerX : number := (Fin width / Fin 2)%js.
Definition centerY : number := (Fin height / Fin 2)%js.
Definition radius : number := (Js.min (Fin width) (Fin height) * Fin 0.35)%js.

(** *** Initialisation

    [random k] is the value returned by the k-th call of [Math.random()];
    the [map] callback calls it once per node, in index order. *)
Definition initializedNodes (random : nat -> R) (nodes : list Node.t) : list Node.t :=
  mapi (fun node index =>
          let angle := (Fin (INR index) / Fin (INR (List.length nodes)) * Fin 2 * Fin PI)%js in
          let randomOffset := ((Fin (random index) - Fin 0.5) * Fin 40)%js in
          with_motion node
            (centerX + Js.cos angle * (radius + randomOffset))%js
            (centerY + Js.sin angle * (radius + randomOffset))%js
            zero zero)
       nodes.

(** *** One tick of [simulate] *)

(** Body of the inner loop over [j]: repulsion exerted on the node at
    index [i], located at [(nx, ny)], by [newNodes[j]]. *)
Definition repel (i : nat) (nx ny : number) (newNodes : list Node.t)
    (f : force) (j : nat) : force :=
  if Nat.eqb i j then f
  else
    match nth_error newNodes j with
    | None => f
    | Some other =>
        match position other with
        | None => f
        | Some (ox, oy) =>
            let dx := (nx - ox)%js in
            let dy := (ny - oy)%js in
            let distance := Js.sqrt (dx * dx + dy * dy)%js in
            let minDistance := Fin 120 in
            if (distance >? Fin 0)%js && (distance <? minDistance)%js then
              let force := (Fin 500 / (distance * distance))%js in
              (fst f + dx / distance * force, snd f + dy / distance * force)%js
            else f
        end
    end.

(** The node an edge connects [node] to, if the edge touches it. *)
Definition connectedNode (node : Node.t) (newNodes : list Node.t)
    (edge : Edge.t) : option Node.t :=
  if String.eqb (Edge.from edge) (Node.id node) then
    find_node (Edge.to edge) newNodes
  else if String.eqb (Edge.to edge) (Node.id node) then
    find_node (Edge.from edge) newNodes
  else None.

(** Body of [data.edges.forEach]: attraction along one edge. *)
Definition attract (node : Node.t) (nx ny : number) (newNodes : list Node.t)
    (f : force) (edge : Edge.t) : force :=
  match connectedNode node newNodes edge with
  | None => f
  | Some connected =>
      match position connected with
      | None => f
      | Some (cx, cy) =>
          let dx := (cx - nx)%js in
          let dy := (cy - ny)%js in
          let distance := Js.sqrt (dx * dx + dy * dy)%js in
          if (distance >? Fin 100)%js then
            let force := Fin 0.1 in
            (fst f + dx / distance * force, snd f + dy / distance * force)%js
          else f
      end
  end.

(** The force accumulated on the node at index [i]: repulsion, attraction,
    then the pull to the centre. *)
Definition net_force (i : nat) (node : Node.t) (nx ny : number)
    (newNodes : list Node.t) : force :=
  let f := fold_left (repel i nx ny newNodes) (seq 0 (List.length newNodes)) (zero, zero) in
  let f := fold_left (attract node nx ny newNodes) edges f in
  let centerDx := (centerX - nx)%js in
  let centerDy := (centerY - ny)%js in
  (fst f + centerDx * Fin 0.01, snd f + centerDy * Fin 0.01)%js.

Definition clampX (v : number) : number :=
  Js.max (Fin 50) (Js.min (Fin width - Fin 50)%js (or_zero (Some v))).

Definition clampY (v : number) : number :=
  Js.max (Fin 50) (Js.min (Fin height - Fin 50)%js (or_zero (Some v))).

(** Velocity and position update of a node at [(nx, ny)] under force [f]. *)
Definition integrate (node : Node.t) (nx ny : number) (f : force) : Node.t :=
  let vx := (or_zero (Node.vx node) * Fin 0.8 + fst f * Fin 0.1)%js in
  let vy := (or_zero (Node.vy node) * Fin 0.8 + snd f * Fin 0.1)%js in
  let x := (or_zero (Some nx) + or_zero (Some vx))%js in
  let y := (or_zero (Some ny) + or_zero (Some vy))%js in
  with_motion node (clampX x) (clampY y) vx vy.

(** Body of the outer loop over [i].  The node object is updated in place,
    so the nodes processed later see its new position. *)
Definition simulate_node (newNodes : list Node.t) (i : nat) : list Node.t :=
  match nth_error newNodes i with
  | None => newNodes
  | Some node =>
      match position node with
      | None => newNodes
      | Some (nx, ny) =>
          set_nth i (integrate node nx ny (net_force i node nx ny newNodes)) newNodes
      end
  end.

(** The array as it stands when the loop reaches index [i]. *)
Definition simulate_upto (i : nat) (prevNodes : list Node.t) : list Node.t :=
  fold_left simulate_node (seq 0 i) prevNodes.

Definition simulate (prevNodes : list Node.t) : list Node.t :=
  simulate_upto (List.length prevNodes) prevNodes.

End Engine.

(** ** Component state and pointer handlers *)

(** The state variables [nodes], [selectedNode], [isDragging] and
    [dragNode].  [selectedNode] and [dragNode] hold the pressed node as it
    was when it was pressed.  In the source they refer to the node object
    itself, which the ticks go on updating in place until a pointer-move
    or a new payload replaces it in the array, so that its [x], [y], [vx]
    and [vy] can be those of a later moment; the component reads only
    [id], [label], [type] and [description] from them, fields that nothing
    writes, and what is stated of the selection below is stated of those
    fields. *)
Record State : Type := {
  nodes : list Node.t;
  selectedNode : option Node.t;
  isDragging : bool;
  dragNode : option Node.t
}.

Definition handleMouseDown (node : Node.t) (st : State) : State :=
  {| nodes := nodes st;
     selectedNode := Some node;
     isDragging := true;
     dragNode := Some node |}.

(** [rect] is [svgRef.current?.getBoundingClientRect()], given by its [left]
    and [top]; [None] when the element is not mounted. *)
Definition handleMouseMove (rect : option (number * number))
    (clientX clientY : number) (st : State) : State :=
  if negb (isDragging st) then st
  else
    match dragNode st with
    | None => st
    | Some dragged =>
        match rect with
        | None => st
        | Some (rleft, rtop) =>
            let x := (clientX - rleft)%js in
            let y := (clientY - rtop)%js in
            {| nodes := map (fun node =>
                               if String.eqb (Node.id node) (Node.id dragged)
                               then with_motion node x y zero zero
                               else node)
                            (nodes st);
               selectedNode := selectedNode st;
               isDragging := isDragging st;
               dragNode := dragNode st |}
        end
    end.

Definition handleMouseUp (st : State) : State :=
  {| nodes := nodes st;
     selectedNode := selectedNode st;
     isDragging := false;
     dragNode := None |}.

(** The state the effect installs when the component mounts with [data]:
    [setNodes(initializedNodes)]; nothing is selected or dragged yet. *)
Definition mount (width height : R) (random : nat -> R) (data : GraphData) : State :=
  {| nodes := initializedNodes width height random (data_nodes data);
     selectedNode := None;
     isDragging := false;
     dragNode := None |}.

(** The effect of the component, which runs when it mounts and again each
    time the [data], [width] or [height] it is given changes: every node
    of the new payload is placed afresh by [setNodes(initializedNodes)];
    the selection and the drag state are left as they are. *)
Definition runEffect (width height : R) (random : nat -> R) (data : GraphData)
    (st : State) : State :=
  {| nodes := initializedNodes width height random (data_nodes data);
     selectedNode := selectedNode st;
     isDragging := isDragging st;
     dragNode := dragNode st |}.

(** The events the component reacts to between two runs of its effect,
    that is, for as long as [data], [width] and [height] stay the same:
    the interval timer firing and the three pointer events. *)
Inductive Event : Type :=
| Tick
| MouseDown (node : Node.t)
| MouseMove (rect : option (number * number)) (clientX clientY : number)
| MouseUp.

Definition step (width height : R) (edges : list Edge.t)
    (st : State) (ev : Event) : State :=
  match ev with
  | Tick =>
      {| nodes := simulate width height edges (nodes st);
         selectedNode := selectedNode st;
         isDragging := isDragging st;
         dragNode := dragNode st |}
  | MouseDown node => handleMouseDown node st
  | MouseMove rect clientX clientY => handleMouseMove rect clientX clientY st
  | MouseUp => handleMouseUp st
  end.

Definition run (width height : R) (edges : list Edge.t)
    (st : State) (evs : list Event) : State :=
  fold_left (step width height edges) evs st.

(** The component over its whole life: the props it was last given and its
    state.  It reacts to the events above, handled with the current props,
    and to the parent passing changed props, upon which the effect runs
    again; [random] is the run of [Math.random()] this re-initialisation
    draws from. *)
Record Props : Type := {
  props_data : GraphData;
  props_width : R;
  props_height : R
}.

Record Component : Type := {
  props : Props;
  state : State
}.

Inductive Input : Type :=
| Handled (ev : Event)
| PropsChanged (random : nat -> R) (next : Props).

Definition react (c : Component) (input : Input) : Component :=
  match input with
  | Handled ev =>
      {| props := props c;
         state := step (props_width (props c)) (props_height (props c))
                       (data_edges (props_data (props c))) (state c) ev |}
  | PropsChanged random next =>
      {| props := next;
         state := runEffect (props_width next) (props_height next) random
                            (props_data next) (state c) |}
  end.

Definition session (c : Component) (inputs : list Input) : Component :=
  fold_left react inputs c.

(** ** Rendering *)

Definition getNodeColor (node : Node.t) : string :=
  if String.eqb (Node.type node) "central" then "#f97316"
  else if String.eqb (Node.type node) "key" then "#3b82f6"
  else if String.eqb (Node.type node) "support" then "#10b981"
  else if String.eqb (Node.type node) "application" then "#8b5cf6"
  else if String.eqb (Node.type node) "bridge" then "#f59e0b"
  else "#6b7280".

Definition getNodeSize (node : Node.t) : R :=
  if String.eqb (Node.size node) "large" then 35
  else if String.eqb (Node.size node) "medium" then 28
  else if String.eqb (Node.size node) "small" then 22
  else 25.

(** [s.length > limit ? s.substring(0, keep) + '...' : s] *)
Definition truncate (limit keep : nat) (s : string) : string :=
  if Nat.ltb limit (String.length s)
  then String.append (String.substring 0 keep s) "..."
  else s.

(** The [<rect>] and [<text>] of an edge label. *)
Record LabelView : Type := {
  rect_x : number;
  rect_y : number;
  rect_width : number;
  text_x : number;
  text_y : number;
  text : string
}.

(** The [<g>] drawn for an edge: the [<line>], the optional label and the
    three points of the arrow [<polygon>]. *)
Record EdgeView : Type := {
  x1 : number;
  y1 : number;
  x2 : number;
  y2 : number;
  strokeWidth : R;
  strokeDasharray : string;
  edge_label : option LabelView;
  arrow : list (number * number)
}.

(** The callback of [edges.map]; [None] is [return null]. *)
Definition renderEdge (nodes : list Node.t) (edge : Edge.t) : option EdgeView :=
  match find_node (Edge.from edge) nodes, find_node (Edge.to edge) nodes with
  | Some fromNode, Some toNode =>
      match position fromNode, position toNode with
      | Some (fx, fy), Some (tx, ty) =>
          let dx := (tx - fx)%js in
          let dy := (ty - fy)%js in
          let length := Js.sqrt (dx * dx + dy * dy)%js in
          let unitX := (dx / length)%js in
          let unitY := (dy / length)%js in
          let fromRadius := Fin (getNodeSize fromNode) in
          let toRadius := Fin (getNodeSize toNode) in
          let startX := (fx + unitX * fromRadius)%js in
          let startY := (fy + unitY * fromRadius)%js in
          let endX := (tx - unitX * toRadius)%js in
          let endY := (ty - unitY * toRadius)%js in
          Some {|
            x1 := startX;
            y1 := startY;
            x2 := endX;
            y2 := endY;
            strokeWidth := if String.eqb (Edge.type edge) "primary" then 3 else 2;
            strokeDasharray :=
              if String.eqb (Edge.type edge) "cross_link" then "5,5" else "none";
            edge_label :=
              match Edge.label edge with
              | None => None
              | Some lbl =>
                  if negb (String.eqb lbl "") && (length >? Fin 80)%js then
                    Some {|
                      rect_x := ((startX + endX) / Fin 2
                                 - Fin (INR (String.length lbl)) * Fin 3)%js;
                      rect_y := ((startY + endY) / Fin 2 - Fin 8)%js;
                      rect_width := (Fin (INR (String.length lbl)) * Fin 6)%js;
                      text_x := ((startX + endX) / Fin 2)%js;
                      text_y := ((startY + endY) / Fin 2)%js;
                      text := truncate 8 6 lbl
                    |}
                  else None
              end;
            arrow :=
              [ (endX, endY);
                (endX - Fin 8 * unitX + Fin 3 * unitY,
                 endY - Fin 8 * unitY - Fin 3 * unitX)%js;
                (endX - Fin 8 * unitX - Fin 3 * unitY,
                 endY - Fin 8 * unitY + Fin 3 * unitX)%js ]
          |}
      | _, _ => None
      end
  | _, _ => None
  end.

(** The [<g>] drawn for a node: the circle and the label under it. *)
Record NodeView : Type := {
  cx : number;
  cy : number;
  r : number;
  fill : string;
  stroke : string;
  stroke_width : R;
  label_x : number;
  label_y : number;
  label_text : string
}.

(** The callback of [nodes.map]; [None] is [return null]. *)
Definition renderNode (selectedNode : option Node.t) (node : Node.t) : option NodeView :=
  match position node with
  | None => None
  | Some (nx, ny) =>
      let radius := Fin (getNodeSize node) in
      let color := getNodeColor node in
      let isSelected :=
        match selectedNode with
        | Some sel => String.eqb (Node.id sel) (Node.id node)
        | None => false
        end in
      Some {|
        cx := nx;
        cy := ny;
        r := (radius + Fin (if isSelected then 4 else 0))%js;
        fill := color;
        stroke := if isSelected then "#1f2937" else "white";
        stroke_width := if isSelected then 3 else 2;
        label_x := nx;
        label_y := (ny + radius + Fin 16)%js;
        label_text := truncate 15 13 (Node.label node)
      |}
  end.

(** The children of the [<svg>]: one entry per edge, then one per node. *)
Definition render (edges : list Edge.t) (st : State)
  : list (option EdgeView) * list (option NodeView) :=
  (map (renderEdge (nodes st)) edges,
   map (renderNode (selectedNode st)) (nodes st)).



(** ** Vocabulary of the specification

    Plane vectors over the reals, in which the specification states the
    forces.  These definitions follow the specification's wording; the
    theorems below relate them to the code's accumulators. *)

Definition vec : Type := (R * R)%type.

Definition vadd (u v : vec) : vec := (fst u + fst v, snd u + snd v).
Definition vsub (u v : vec) : vec := (fst u - fst v, snd u - snd v).
Definition vscale (k : R) (v : vec) : vec := (k * fst v, k * snd v).
Definition vnorm (v : vec) : R := R_sqrt.sqrt (fst v * fst v + snd v * snd v).
Definition vsum (l : list vec) : vec := fold_right vadd (0, 0) l.

(** Euclidean distance between two points. *)
Definition dist (p q : vec) : R := vnorm (vsub p q).

(** The unit vector pointing from [p] to [q]. *)
Definition toward (p q : vec) : vec := vscale (/ dist p q) (vsub q p).

(** Repulsion exerted on a node at [p] by a node at [q]: magnitude
    [500 / d^2], directed away from [q], within 120 px only. *)
Definition spec_repulsion (p q : vec) : vec :=
  let d := dist p q in
  if Rlt_dec 0 d then
    if Rlt_dec d 120 then vscale (500 / (d * d)) (toward q p) else (0, 0)
  else (0, 0).

(** Attraction of a node at [p] to a connected node at [q]: magnitude
    [0.1], directed toward [q], beyond 100 px only. *)
Definition spec_attraction (p q : vec) : vec :=
  if Rlt_dec 100 (dist p q) then vscale 0.1 (toward p q) else (0, 0).

(** Pull of a node at [p] to the centre of a [width] by [height] viewport. *)
Definition spec_centering (width height : R) (p : vec) : vec :=
  vscale 0.01 (vsub (width / 2, height / 2) p).

(** The real value of a finite number (0 for the others). *)
Definition real_of (a : number) : R :=
  match a with Fin r => r | _ => 0 end.

(** The position of a node as a point of the plane: both coordinates
    present, finite and different from 0. *)
Definition point_of (node : Node.t) : option vec :=
  match Node.x node, Node.y node with
  | Some (Fin a), Some (Fin b) =>
      if Req_dec_T a 0 then None
      else if Req_dec_T b 0 then None
      else Some (a, b)
  | _, _ => None
  end.

(** The point of the node at index [j], if [j] is not [i] and that node
    has a position. *)
Definition other_at (i : nat) (ns : list Node.t) (j : nat) : list vec :=
  if Nat.eqb i j then []
  else match nth_error ns j with
       | Some other => match point_of other with Some q => [q] | None => [] end
       | None => []
       end.

(** The points of the nodes other than the one at index [i] that have a
    position, in array order. *)
Definition others (i : nat) (ns : list Node.t) : list vec :=
  flat_map (other_at i ns) (seq 0 (List.length ns)).

(** The identifier at the other end of [edge], when [edge] touches the node
    named [key]: where it goes to if it leaves that node, else where it
    comes from if it arrives there. *)
Definition far_end (key : string) (edge : Edge.t) : option string :=
  if String.eqb (Edge.from edge) key then Some (Edge.to edge)
  else if String.eqb (Edge.to edge) key then Some (Edge.from edge)
  else None.

(** The node named [key]: the first of [ns] that carries this identifier. *)
Fixpoint node_named (key : string) (ns : list Node.t) : option Node.t :=
  match ns with
  | [] => None
  | n :: rest =>
      if String.eqb (Node.id n) key then Some n else node_named key rest
  end.

(** The point of the node that [edge] connects [node] to, if the edge
    touches [node] and that node has a position. *)
Definition neighbour_via (node : Node.t) (ns : list Node.t) (edge : Edge.t)
  : list vec :=
  match far_end (Node.id node) edge with
  | Some key =>
      match node_named key ns with
      | Some connected =>
          match point_of connected with Some q => [q] | None => [] end
      | None => []
      end
  | None => []
  end.

(** The points of the nodes that the edges touching [node] connect it to,
    one per such edge, in edge order. *)
Definition neighbours (node : Node.t) (ns : list Node.t) (edges : list Edge.t)
  : list vec :=
  flat_map (neighbour_via node ns) edges.

(** The net force of the specification on [node], at point [p] and index
    [i] of the array [ns]. *)
Definition spec_net_force (width height : R) (edges : list Edge.t)
    (i : nat) (node : Node.t) (p : vec) (ns : list Node.t) : vec :=
  vadd (vadd (vsum (map (spec_repulsion p) (others i ns)))
             (vsum (map (spec_attraction p) (neighbours node ns edges))))
       (spec_centering width height p).

(** The velocity of a node, an absent component counting as 0. *)
Definition speed_of (v : option number) : R :=
  match v with Some a => real_of a | None => 0 end.

Definition velocity (node : Node.t) : vec :=
  (speed_of (Node.vx node), speed_of (Node.vy node)).

(** Every coordinate and velocity component that is present is finite. *)
Definition finite_opt (v : option number) : Prop :=
  match v with Some a => finite a | None => True end.

Definition finite_node (node : Node.t) : Prop :=
  finite_opt (Node.x node) /\ finite_opt (Node.y node) /\
  finite_opt (Node.vx node) /\ finite_opt (Node.vy node).

(** A coordinate pair inside the clamped bounds of the viewport. *)
Definition in_clamped_bounds (width height : R) (node : Node.t) : Prop :=
  exists px py,
    Node.x node = Some (Fin px) /\ Node.y node = Some (Fin py) /\
    50 <= px <= width - 50 /\ 50 <= py <= height - 50.

(** A coordinate pair inside the viewport. *)
Definition in_viewport (width height : R) (node : Node.t) : Prop :=
  exists px py,
    Node.x node = Some (Fin px) /\ Node.y node = Some (Fin py) /\
    0 <= px <= width /\ 0 <= py <= height.

(** ** Sample graphs *)

(** A medium-sized "key" node with the given identifier and position and
    no velocity yet. *)
Definition sample_node (name : string) (px py : R) : Node.t :=
  Node.mk name name "key" None "medium" (Some (Fin px)) (Some (Fin py)) None None.

Definition sample_edge (a b : string) : Edge.t :=
  Edge.mk a b (Some "uses"%string) "primary".

(** Two nodes 200 px apart. *)
Definition sample_pair : list Node.t :=
  [sample_node "a" 300 300; sample_node "b" 500 300].

(** A node as the payload gives it, before any position is assigned. *)
Definition unplaced_node (name : string) : Node.t :=
  Node.mk name name "key" None "medium" None None None None.

(** The component state showing [ns] with nothing selected or dragged. *)
Definition idle (ns : list Node.t) : State :=
  {| nodes := ns; selectedNode := None; isDragging := false; dragNode := None |}.

(** A run of [Math.random()] that returns 0.9 at every call. *)
Definition sample_random (k : nat) : R := 0.9.

(** ** Further vocabulary: what a run keeps, what the scene shows *)

(** The fields of a node that come from the payload and describe it. *)
Definition static (node : Node.t)
  : string * string * string * option string * string :=
  (Node.id node, Node.label node, Node.type node,
   Node.description node, Node.size node).


(** A press can only land on a circle that is drawn: every [MouseDown] of
    the run carries a node of the state it arrives in, one with a
    position. *)
Fixpoint presses_rendered (width height : R) (edges : list Edge.t)
    (st : State) (evs : list Event) : Prop :=
  match evs with
  | [] => True
  | ev :: rest =>
      match ev with
      | MouseDown node => In node (nodes st) /\ position node <> None
      | _ => True
      end /\
      presses_rendered width height edges (step width height edges st ev) rest
  end.

Definition is_move (ev : Event) : bool :=
  match ev with MouseMove _ _ _ => true | _ => false end.

(** The [<line>] of an edge: a segment between finite points, or the line
    whose four coordinates are NaN. *)
Definition finite_line (view : EdgeView) : Prop :=
  finite (x1 view) /\ finite (y1 view) /\ finite (x2 view) /\ finite (y2 view).

Definition nan_line (view : EdgeView) : Prop :=
  x1 view = NaN /\ y1 view = NaN /\ x2 view = NaN /\ y2 view = NaN.

(** A point of the plane as a pair of numbers. *)
Definition fin_point (v : vec) : number * number := (Fin (fst v), Fin (snd v)).

(** The vector [v] turned by a quarter turn: [(x, y)] becomes [(y, - x)]. *)
Definition perp (v : vec) : vec := (snd v, - fst v).

(** The label drawn on a segment from [start] to [finish], for an edge
    labelled [lbl], in real coordinates: the box is sized by the whole
    label, the text is the label cut to its display budget. *)
Definition label_at (start finish : vec) (lbl : string) : LabelView :=
  {| rect_x := Fin ((fst start + fst finish) / 2 - INR (String.length lbl) * 3);
     rect_y := Fin ((snd start + snd finish) / 2 - 8);
     rect_width := Fin (INR (String.length lbl) * 6);
     text_x := Fin ((fst start + fst finish) / 2);
     text_y := Fin ((snd start + snd finish) / 2);
     text := truncate 8 6 lbl |}.

(** ** The fallback mind map

    [generateFallbackMindMap] builds the payload the graph component is
    given when no model answer can be parsed.  Its three text-scanning
    inputs are taken as they come out of the regular expressions:
    [docName] (the file name without its extension), [keyTerms] (the
    result of [extractKeyTerms]) and [mainTopics] (the result of
    [identifyMainTopics]). *)

Module Topic.
Record t : Type := mk {
  title : string;
  description : string
}.
End Topic.

(** [`${index}`] for an array index. *)
Definition decimal (n : nat) : string :=
  NilEmpty.string_of_uint (Nat.to_uint n).

(** [identifyMainTopics].  [topicOf] stands for the body of the [forEach]
    callback, which scans one sentence with regular expressions and pushes
    one topic or none; what is modelled is the selection of the sentences
    and the padding and cutting of the result. *)
Fixpoint collect_topics (topicOf : string -> option Topic.t)
    (sentences : list string) : list Topic.t :=
  match sentences with
  | [] => []
  | sentence :: rest =>
      match topicOf sentence with
      | Some topic => topic :: collect_topics topicOf rest
      | None => collect_topics topicOf rest
      end
  end.

Definition identifyMainTopics (topicOf : string -> option Topic.t)
    (sentences : list string) : list Topic.t :=
  let firstSentences := firstn (Nat.min 5 (List.length sentences)) sentences in
  let topics := collect_topics topicOf firstSentences in
  let topics :=
    match topics with
    | [] =>
        [ Topic.mk "Main Content" "Primary subject matter and key information";
          Topic.mk "Supporting Details"
                   "Additional context and explanatory material" ]
    | [topic] =>
        [ topic;
          Topic.mk "Supporting Concepts"
                   "Additional ideas that complement the main topic" ]
    | _ => topics
    end in
  firstn 4 topics.

Definition centralNode (docName : string) : Node.t :=
  Node.mk "central" docName "central"
          (Some "Main document focus and core concepts"%string) "large"
          None None None None.

Definition topicId (index : nat) : string := ("topic_" ++ decimal index)%string.
Definition termId (index : nat) : string := ("term_" ++ decimal index)%string.

Definition topicNode (topic : Topic.t) (index : nat) : Node.t :=
  Node.mk (topicId index) (Topic.title topic) "key"
          (Some (Topic.description topic)) "medium" None None None None.

Definition topicEdge (topic : Topic.t) (index : nat) : Edge.t :=
  Edge.mk "central" (topicId index) (Some "explores"%string) "primary".

Definition termNode (term : string) (index : nat) : Node.t :=
  Node.mk (termId index) term "support"
          (Some ("Important concept: " ++ term)%string) "small"
          None None None None.

(** [`topic_${index % mainTopics.length}`]; the remainder by 0 is NaN. *)
Definition relevantTopic (count index : nat) : string :=
  if Nat.eqb count 0 then "topic_NaN" else topicId (index mod count).

Definition termEdge (count : nat) (term : string) (index : nat) : Edge.t :=
  Edge.mk (relevantTopic count index) (termId index)
          (Some "includes"%string) "elaborates".

Definition crossLink : Edge.t :=
  Edge.mk "topic_0" "topic_1" (Some "relates to"%string) "cross_link".

Definition generateFallbackMindMap (docName : string) (keyTerms : list string)
    (mainTopics : list Topic.t) : GraphData :=
  {| data_nodes :=
       centralNode docName
       :: mapi topicNode mainTopics ++ mapi termNode (firstn 6 keyTerms);
     data_edges :=
       mapi topicEdge mainTopics
       ++ mapi (termEdge (List.length mainTopics)) (firstn 6 keyTerms)
       ++ (if Nat.ltb 1 (List.length mainTopics) then [crossLink] else []) |}.

(** The dashboard shows the graph of a document in an 800 by 500 drawing. *)
Definition dashboard (random : nat -> R) (data : GraphData) : State :=
  mount 800 500 random data.

(** Sample inputs of the fallback mind map. *)
Definition sample_terms : list string := ["Energy"%string; "Light"%string].

Definition sample_topics : list Topic.t :=
  [Topic.mk "Plants make sugar" "From light and water"].

(** ** The upload list

    [FileUpload] keeps a list of entries, one per chosen file, and moves
    each through [uploading], [processing] and [success] or [error].  The
    server call [documentsAPI.upload] is an oracle [outcome] that says, for
    each file, whether the promise resolves (with a document) or rejects
    (with the message of an [Error], or with something else).  Sizes are
    bytes, times are the milliseconds of [Date.now()]. *)

Module Upload.

Inductive Status : Type := uploading | success | error | processing.

Record File : Type := { name : string; size : N }.

Record UploadFile : Type := {
  file : File;
  id : string;
  status : Status;
  progress : option N;
  error_message : option string;
  startTime : option N
}.

Inductive Outcome : Type :=
| Resolved (document : string)
| Rejected (message : option string).

(** What the component has done so far: the [files] state, the files
    handed to [documentsAPI.upload], the toasts shown (success or error,
    with their text) and the documents passed to [onUploadSuccess]. *)
Record World : Type := {
  files : list UploadFile;
  uploads : list File;
  toasts : list (bool * string);
  delivered : list string
}.

(** ASCII lower case of a character, the only case folding the [i] flag
    does on the letters of the pattern. *)
Definition lower (c : ascii) : ascii :=
  let n := nat_of_ascii c in
  if Nat.leb 65 n && Nat.leb n 90 then ascii_of_nat (n + 32) else c.

Fixpoint lowercase (s : string) : string :=
  match s with
  | EmptyString => EmptyString
  | String c rest => String (lower c) (lowercase rest)
  end.

Definition ends_with (suffix s : string) : bool :=
  let n := String.length s in
  let m := String.length suffix in
  Nat.leb m n && String.eqb (String.substring (n - m) m s) suffix.

(** [name.match(/\.(pdf|docx|txt)$/i)] as a test. *)
Definition supported (name : string) : bool :=
  let l := lowercase name in
  ends_with ".pdf" l || ends_with ".docx" l || ends_with ".txt" l.

Definition maxSize : N := 50 * 1024 * 1024.

(** The two checks at the head of the [try] block: the message of the
    [Error] thrown, if any. *)
Definition validate (f : File) : option string :=
  if negb (supported (name f)) then
    Some "Only PDF, DOCX, and TXT files are supported"%string
  else if N.ltb maxSize (size f) then
    Some "File size must be less than 50MB"%string
  else None.

(** [prev.map(f => f.id === key ? change(f) : f)] *)
Definition mark (key : string) (change : UploadFile -> UploadFile)
    (prev : list UploadFile) : list UploadFile :=
  map (fun f => if String.eqb (id f) key then change f else f) prev.

Definition with_status (st : Status) (f : UploadFile) : UploadFile :=
  {| file := file f; id := id f; status := st; progress := progress f;
     error_message := error_message f; startTime := startTime f |}.

Definition with_error (msg : string) (f : UploadFile) : UploadFile :=
  {| file := file f; id := id f; status := error; progress := progress f;
     error_message := Some msg; startTime := startTime f |}.

(** The [catch] block. *)
Definition fail (uploadFile : UploadFile) (errorMessage : string) (w : World) : World :=
  {| files := mark (id uploadFile) (with_error errorMessage) (files w);
     uploads := uploads w;
     toasts := toasts w ++
               [(false, ("Failed to upload " ++ name (file uploadFile) ++ ": "
                         ++ errorMessage)%string)];
     delivered := delivered w |}.

(** The [try] block up to the [await]: the entry is marked [processing]
    and the file is handed to the server. *)
Definition start (uploadFile : UploadFile) (w : World) : World :=
  {| files := mark (id uploadFile) (with_status processing) (files w);
     uploads := uploads w ++ [file uploadFile];
     toasts := toasts w;
     delivered := delivered w |}.

(** What follows the [await].  [toast.success] and the parent's
    [onUploadSuccess], which run inside the [try] after the entry has been
    marked [success], are taken to return normally; were one of them to
    throw, the [catch] block would mark the entry [error] after all. *)
Definition settle (outcome : File -> Outcome) (uploadFile : UploadFile)
    (w : World) : World :=
  match outcome (file uploadFile) with
  | Resolved document =>
      {| files := mark (id uploadFile) (with_status success) (files w);
         uploads := uploads w;
         toasts := toasts w ++
                   [(true, (name (file uploadFile)
                            ++ " uploaded and processing completed!")%string)];
         delivered := delivered w ++ [document] |}
  | Rejected (Some message) => fail uploadFile message w
  | Rejected None => fail uploadFile "Upload failed" w
  end.

(** One turn of the [for] loop. *)
Definition processFile (outcome : File -> Outcome) (w : World)
    (uploadFile : UploadFile) : World :=
  match validate (file uploadFile) with
  | Some message => fail uploadFile message w
  | None => settle outcome uploadFile (start uploadFile w)
  end.

(** The entries made for a list of chosen files; [ids k] and [now k] are
    the identifier drawn and the clock read for the k-th of them. *)
Definition newFiles (ids : nat -> string) (now : nat -> N)
    (fileList : list File) : list UploadFile :=
  mapi (fun f k =>
          {| file := f; id := ids k; status := uploading; progress := None;
             error_message := None; startTime := Some (now k) |})
       fileList.

Definition append_files (added : list UploadFile) (w : World) : World :=
  {| files := files w ++ added; uploads := uploads w;
     toasts := toasts w; delivered := delivered w |}.

(** [handleFiles], run to completion with no other event in between. *)
Definition handleFiles (outcome : File -> Outcome) (ids : nat -> string)
    (now : nat -> N) (fileList : list File) (w : World) : World :=
  let added := newFiles ids now fileList in
  fold_left (processFile outcome) added (append_files added w).

(** The state in which [handleFiles] waits for the server to answer for
    the k-th chosen file, if it gets to ask. *)
Definition awaiting (outcome : File -> Outcome) (ids : nat -> string)
    (now : nat -> N) (fileList : list File) (w : World) (k : nat)
  : option World :=
  let added := newFiles ids now fileList in
  match nth_error added k with
  | None => None
  | Some uploadFile =>
      match validate (file uploadFile) with
      | Some _ => None
      | None =>
          Some (start uploadFile
                  (fold_left (processFile outcome) (firstn k added)
                             (append_files added w)))
      end
  end.

(** [removeFile] *)
Definition removeFile (key : string) (prev : list UploadFile) : list UploadFile :=
  filter (fun f => negb (String.eqb (id f) key)) prev.

(** The test made every five seconds for the refresh suggestion. *)
Definition hasLongUploads (clock : N) (prev : list UploadFile) : bool :=
  existsb (fun f =>
             match status f, startTime f with
             | uploading, Some t => negb (N.eqb t 0) && N.ltb 30000 (clock - t)
             | _, _ => false
             end)
          prev.

(** The entry in which the loop leaves [uploadFile]: [error] with the
    message of the check that failed or of the rejection, or [success]. *)
Definition settled (outcome : File -> Outcome) (uploadFile : UploadFile)
  : UploadFile :=
  match validate (file uploadFile) with
  | Some message => with_error message uploadFile
  | None =>
      match outcome (file uploadFile) with
      | Resolved _ => with_status success uploadFile
      | Rejected (Some message) => with_error message uploadFile
      | Rejected None => with_error "Upload failed" uploadFile
      end
  end.

(** Whether a file passes both checks. *)
Definition accepted (f : File) : bool :=
  match validate f with Some _ => false | None => true end.

End Upload.

(** Sample inputs of the upload list: two chosen files, the identifiers
    drawn for them, a server that accepts everything, and the component
    before any upload. *)
Definition sample_files : list Upload.File :=
  [ {| Upload.name := "Report.PDF"; Upload.size := 1000 |};
    {| Upload.name := "setup.exe"; Upload.size := 10 |} ].

Definition sample_ids (k : nat) : string := ("id" ++ decimal k)%string.

Definition sample_outcome (f : Upload.File) : Upload.Outcome :=
  Upload.Resolved "doc".

Definition sample_clock (k : nat) : N := 1700000000000.

Definition fresh_world : Upload.World :=
  {| Upload.files := []; Upload.uploads := [];
     Upload.toasts := []; Upload.delivered := [] |}.

(** ** Arithmetic on finite numbers *)

Lemma sum_sq_nonneg (a b : R) : 0 <= a * a + b * b.
Proof. nra. Qed.

Lemma add_fin (a b : R) : (Fin a + Fin b)%js = Fin (a + b).
Proof. reflexivity. Qed.

Lemma sub_fin (a b : R) : (Fin a - Fin b)%js = Fin (a - b).
Proof. reflexivity. Qed.

Lemma mul_fin (a b : R) : (Fin a * Fin b)%js = Fin (a * b).
Proof. reflexivity. Qed.

Lemma or_zero_none : or_zero None = Fin 0.
Proof. reflexivity. Qed.

Lemma div_fin (a b : R) : b <> 0 -> (Fin a / Fin b)%js = Fin (a / b).
Proof.
  intros Hb. unfold Js.div. destruct (Req_dec_T b 0); [contradiction | reflexivity].
Qed.

Lemma sqrt_fin (a : R) : 0 <= a -> Js.sqrt (Fin a) = Fin (R_sqrt.sqrt a).
Proof.
  intros Ha. unfold Js.sqrt. destruct (Rlt_dec a 0); [lra | reflexivity].
Qed.

Lemma lt_fin_true (a b : R) : a < b -> (Fin a <? Fin b)%js = true.
Proof. intros H. unfold Js.lt. destruct (Rlt_dec a b); [reflexivity | contradiction]. Qed.

Lemma lt_fin_false (a b : R) : ~ a < b -> (Fin a <? Fin b)%js = false.
Proof. intros H. unfold Js.lt. destruct (Rlt_dec a b); [contradiction | reflexivity]. Qed.

Lemma truthy_fin (a : R) : a <> 0 -> truthy (Fin a) = true.
Proof. intros H. unfold truthy. destruct (Req_dec_T a 0); [contradiction | reflexivity]. Qed.

Lemma truthy_zero : truthy (Fin 0) = false.
Proof. unfold truthy. destruct (Req_dec_T 0 0); [reflexivity | contradiction]. Qed.

Lemma or_zero_fin (a : R) : or_zero (Some (Fin a)) = Fin a.
Proof.
  unfold or_zero, truthy, zero. destruct (Req_dec_T a 0); [subst|]; reflexivity.
Qed.

Lemma min_fin (a b : R) : Js.min (Fin a) (Fin b) = Fin (Rmin a b).
Proof.
  unfold Js.min, Js.lt, Rmin.
  destruct (Rlt_dec b a), (Rle_dec a b); try reflexivity; f_equal; lra.
Qed.

Lemma max_fin (a b : R) : Js.max (Fin a) (Fin b) = Fin (Rmax a b).
Proof.
  unfold Js.max, Js.lt, Rmax.
  destruct (Rlt_dec a b), (Rle_dec a b); try reflexivity; f_equal; lra.
Qed.

(** ** Clamping *)

Lemma clampX_fin (width v : R) :
  clampX width (Fin v) = Fin (Rmax 50 (Rmin (width - 50) v)).
Proof.
  unfold clampX. rewrite or_zero_fin. cbn [Js.sub Js.neg Js.add].
  rewrite min_fin, max_fin. reflexivity.
Qed.

Lemma clampY_fin (height v : R) :
  clampY height (Fin v) = Fin (Rmax 50 (Rmin (height - 50) v)).
Proof. apply clampX_fin. Qed.

(** Whatever number comes in, NaN and the infinities included, the clamp
    returns a finite number of [[50, width - 50]] once that interval is
    not empty. *)
Lemma clampX_bounds (width : R) (v : number) :
  100 <= width ->
  exists c, clampX width v = Fin c /\ 50 <= c <= width - 50.
Proof.
  intros Hw. destruct v as [a | | |].
  - rewrite clampX_fin. eexists; split; [reflexivity|].
    unfold Rmax, Rmin.
    destruct (Rle_dec (width - 50) a); destruct (Rle_dec 50 _); lra.
  - exists (width - 50). split; [|lra].
    unfold clampX. cbn [or_zero truthy Js.sub Js.neg Js.add Js.min Js.lt].
    rewrite max_fin. f_equal. unfold Rmax.
    destruct (Rle_dec _ _); lra.
  - exists 50. split; [|lra]. reflexivity.
  - exists 50. split; [|lra].
    unfold clampX. cbn [or_zero truthy Js.sub Js.neg Js.add]. unfold zero.
    rewrite min_fin, max_fin. f_equal. unfold Rmax, Rmin.
    destruct (Rle_dec _ 0); destruct (Rle_dec 50 _); lra.
Qed.

Lemma clampY_bounds (height : R) (v : number) :
  100 <= height ->
  exists c, clampY height v = Fin c /\ 50 <= c <= height - 50.
Proof. apply clampX_bounds. Qed.

(** ** Structure of a tick *)

Lemma set_nth_length (i : nat) (node : Node.t) (ns : list Node.t) :
  List.length (set_nth i node ns) = List.length ns.
Proof.
  revert i. induction ns as [| n ns IH]; intros [| i]; cbn; auto.
Qed.

Lemma set_nth_same (i : nat) (node : Node.t) (ns : list Node.t) :
  (i < List.length ns)%nat -> nth_error (set_nth i node ns) i = Some node.
Proof.
  revert i. induction ns as [| n ns IH]; intros [| i] H; cbn in *; try lia; auto.
  apply IH. lia.
Qed.

Lemma set_nth_other (i k : nat) (node : Node.t) (ns : list Node.t) :
  i <> k -> nth_error (set_nth i node ns) k = nth_error ns k.
Proof.
  revert i k. induction ns as [| n ns IH]; intros [| i] [| k] H; cbn; auto.
  contradiction.
Qed.

Section Tick.

Variables width height : R.
Variable edges : list Edge.t.

Lemma simulate_node_length (ns : list Node.t) (i : nat) :
  List.length (simulate_node width height edges ns i) = List.length ns.
Proof.
  unfold simulate_node.
  destruct (nth_error ns i) as [node|]; [|reflexivity].
  destruct (position node) as [[nx ny]|]; [|reflexivity].
  apply set_nth_length.
Qed.

Lemma simulate_node_other (ns : list Node.t) (i k : nat) :
  i <> k -> nth_error (simulate_node width height edges ns i) k = nth_error ns k.
Proof.
  intros H. unfold simulate_node.
  destruct (nth_error ns i) as [node|]; [|reflexivity].
  destruct (position node) as [[nx ny]|]; [|reflexivity].
  now apply set_nth_other.
Qed.

(** The steps for a list of indices leave every other index alone. *)
Lemma fold_simulate_node_other (js : list nat) (ns : list Node.t) (k : nat) :
  ~ In k js -> nth_error (fold_left (simulate_node width height edges) js ns) k = nth_error ns k.
Proof.
  revert ns. induction js as [| j js IH]; intros ns Hk; cbn; [reflexivity|].
  rewrite IH by (intros Hin; apply Hk; now right).
  apply simulate_node_other. intros ->. apply Hk. now left.
Qed.

Lemma fold_simulate_node_length (js : list nat) (ns : list Node.t) :
  List.length (fold_left (simulate_node width height edges) js ns) = List.length ns.
Proof.
  revert ns. induction js as [| j js IH]; intros ns; cbn; [reflexivity|].
  rewrite IH. apply simulate_node_length.
Qed.

Lemma simulate_upto_length (i : nat) (ns : list Node.t) :
  List.length (simulate_upto width height edges i ns) = List.length ns.
Proof. apply fold_simulate_node_length. Qed.

(** When the loop reaches index [i], the node there is still the one the
    tick started with. *)
Lemma simulate_upto_keeps (i k : nat) (ns : list Node.t) :
  (i <= k)%nat -> nth_error (simulate_upto width height edges i ns) k = nth_error ns k.
Proof.
  intros H. apply fold_simulate_node_other. rewrite in_seq. lia.
Qed.

(** After the tick, the node at index [i] is the one its own iteration
    left there. *)
Lemma simulate_nth (i : nat) (ns : list Node.t) :
  (i < List.length ns)%nat ->
  nth_error (simulate width height edges ns) i = nth_error (simulate_node width height edges (simulate_upto width height edges i ns) i) i.
Proof.
  intros H. unfold simulate, simulate_upto.
  replace (List.length ns) with (i + (1 + (List.length ns - i - 1)))%nat by lia.
  rewrite seq_app, fold_left_app, seq_app, fold_left_app. cbn [seq fold_left].
  apply fold_simulate_node_other. rewrite in_seq. lia.
Qed.

End Tick.

(** ** Clamped bounds after a tick *)

Lemma integrate_in_bounds (width height : R) (node : Node.t)
    (nx ny : number) (f : force) :
  100 <= width -> 100 <= height ->
  in_clamped_bounds width height (integrate width height node nx ny f).
Proof.
  intros Hw Hh. unfold integrate, in_clamped_bounds. cbv zeta.
  match goal with
  | |- context [clampX width ?v] => destruct (clampX_bounds width v Hw) as [cx [Ex Hx]]
  end.
  match goal with
  | |- context [clampY height ?v] => destruct (clampY_bounds height v Hh) as [cy [Ey Hy]]
  end.
  exists cx, cy. cbn [with_motion Node.x Node.y]. rewrite Ex, Ey. auto.
Qed.

(** What a tick leaves at the index of a node it processes. *)
Lemma simulate_processed (width height : R) (edges : list Edge.t)
    (ns : list Node.t) (i : nat) (node : Node.t) (nx ny : number) :
  nth_error ns i = Some node ->
  position node = Some (nx, ny) ->
  nth_error (simulate width height edges ns) i =
  Some (integrate width height node nx ny
          (net_force width height edges i node nx ny
             (simulate_upto width height edges i ns))).
Proof.
  intros Hi Hpos.
  assert (Hlt : (i < List.length ns)%nat) by (apply nth_error_Some; congruence).
  rewrite simulate_nth by exact Hlt.
  unfold simulate_node at 1.
  rewrite simulate_upto_keeps by lia. rewrite Hi, Hpos.
  apply set_nth_same. now rewrite simulate_upto_length.
Qed.

(** What a tick leaves at the index of a node it skips. *)
Lemma simulate_skipped (width height : R) (edges : list Edge.t)
    (ns : list Node.t) (i : nat) (node : Node.t) :
  nth_error ns i = Some node ->
  position node = None ->
  nth_error (simulate width height edges ns) i = Some node.
Proof.
  intros Hi Hpos.
  assert (Hlt : (i < List.length ns)%nat) by (apply nth_error_Some; congruence).
  rewrite simulate_nth by exact Hlt.
  unfold simulate_node at 1.
  rewrite simulate_upto_keeps by lia. rewrite Hi, Hpos.
  now rewrite simulate_upto_keeps by lia.
Qed.

(** C2, as amended: in a viewport of at least 100 by 100, every node with a
    truthy position is, after a tick, at a finite position inside
    [[50, width - 50] x [50, height - 50]], whatever numbers the tick
    started from. *)
Theorem C2_tick_keeps_processed_nodes_in_bounds
    (width height : R) (edges : list Edge.t)
    (ns : list Node.t) (i : nat) (node : Node.t) :
  100 <= width -> 100 <= height ->
  nth_error ns i = Some node ->
  position node <> None ->
  exists node',
    nth_error (simulate width height edges ns) i = Some node' /\
    in_clamped_bounds width height node'.
Proof.
  intros Hw Hh Hi Hpos.
  destruct (position node) as [[nx ny]|] eqn:E; [|contradiction].
  eexists. split.
  - eapply simulate_processed; eassumption.
  - now apply integrate_in_bounds.
Qed.

Lemma sample_node_position (name : string) (px py : R) :
  px <> 0 -> py <> 0 ->
  position (sample_node name px py) = Some (Fin px, Fin py).
Proof.
  intros Hx Hy. unfold position, sample_node. cbn [Node.x Node.y].
  now rewrite !truthy_fin.
Qed.

Lemma C2_witness :
  exists node',
    nth_error (simulate 800 600 [] [sample_node "a" 300 300]) 0 = Some node' /\
    in_clamped_bounds 800 600 node'.
Proof.
  apply (C2_tick_keeps_processed_nodes_in_bounds
           800 600 [] [sample_node "a" 300 300] 0 (sample_node "a" 300 300)).
  - lra.
  - lra.
  - reflexivity.
  - rewrite sample_node_position by lra. discriminate.
Defined.


(** ** Finite nodes *)

(** The points of the plane are the positions that pass the code's
    guard and hold finite numbers. *)
Lemma point_of_guard (node : Node.t) :
  point_of node =
  match position node with
  | Some (Fin a, Fin b) => Some (a, b)
  | _ => None
  end.
Proof.
  unfold point_of, position.
  destruct (Node.x node) as [[a | | |]|], (Node.y node) as [[b | | |]|];
    cbn [truthy andb]; try reflexivity;
    repeat destruct (Req_dec_T _ 0); reflexivity.
Qed.

(** The node named by an identifier is the one the code's [find] returns. *)
Lemma node_named_find (key : string) (ns : list Node.t) :
  node_named key ns = find_node key ns.
Proof.
  unfold find_node. induction ns as [| n ns IH]; cbn [node_named find];
    [reflexivity|].
  now destruct (String.eqb (Node.id n) key).
Qed.

(** The neighbour of a node along an edge is the node the code connects
    it to. *)
Lemma neighbour_via_connected (node : Node.t) (ns : list Node.t) (edge : Edge.t) :
  neighbour_via node ns edge =
  match connectedNode node ns edge with
  | Some connected => match point_of connected with Some q => [q] | None => [] end
  | None => []
  end.
Proof.
  unfold neighbour_via, far_end, connectedNode.
  destruct (String.eqb (Edge.from edge) (Node.id node));
    [now rewrite node_named_find|].
  destruct (String.eqb (Edge.to edge) (Node.id node));
    [now rewrite node_named_find | reflexivity].
Qed.

(** The velocity read by the tick: [v || 0] on a finite component. *)
Lemma or_zero_speed (v : option number) :
  finite_opt v -> or_zero v = Fin (speed_of v).
Proof.
  destruct v as [[a | | |]|]; cbn [finite_opt finite]; try contradiction; intros _.
  - now rewrite or_zero_fin.
  - reflexivity.
Qed.

(** A finite node with a truthy position is at a point of the plane. *)
Lemma finite_position (node : Node.t) (nx ny : number) :
  finite_node node -> position node = Some (nx, ny) ->
  exists a b, nx = Fin a /\ ny = Fin b /\ point_of node = Some (a, b).
Proof.
  intros (Hx & Hy & _) Hpos. rewrite point_of_guard. rewrite Hpos.
  unfold position in Hpos.
  destruct (Node.x node) as [px|]; [|discriminate].
  destruct (Node.y node) as [py|]; [|discriminate].
  destruct (truthy px && truthy py); [|discriminate].
  injection Hpos as <- <-.
  destruct px, py; cbn in Hx, Hy; try contradiction.
  eauto.
Qed.

Lemma point_of_position (node : Node.t) (p : vec) :
  point_of node = Some p -> position node = Some (Fin (fst p), Fin (snd p)).
Proof.
  rewrite point_of_guard. destruct (position node) as [[[a| | |] [b| | |]]|];
    try discriminate.
  now intros [= <-].
Qed.


(** ** Vectors *)

Lemma vsum_cons (v : vec) (l : list vec) : vsum (v :: l) = vadd v (vsum l).
Proof. reflexivity. Qed.

Lemma vsum_app (l1 l2 : list vec) : vsum (l1 ++ l2) = vadd (vsum l1) (vsum l2).
Proof.
  induction l1 as [| v l1 IH].
  - cbn [app]. destruct (vsum l2) as [a b]. unfold vsum at 1. cbn [fold_right].
    unfold vadd. cbn [fst snd]. f_equal; ring.
  - cbn [app]. rewrite !vsum_cons, IH. unfold vadd. cbn [fst snd]. f_equal; ring.
Qed.

Lemma dist_sym (p q : vec) : dist p q = dist q p.
Proof. unfold dist, vnorm, vsub. cbn. f_equal. ring. Qed.

Lemma dist_zero (p : vec) : dist p p = 0.
Proof.
  unfold dist, vnorm, vsub. cbn.
  replace (_ + _) with 0 by ring. apply sqrt_0.
Qed.

Lemma dist_square (p q : vec) :
  dist p q * dist p q =
  (fst p - fst q) * (fst p - fst q) + (snd p - snd q) * (snd p - snd q).
Proof. unfold dist, vnorm, vsub. cbn. apply sqrt_sqrt, sum_sq_nonneg. Qed.

(** [toward p q] has length 1 whenever the two points differ. *)
Lemma toward_unit (p q : vec) : 0 < dist p q -> vnorm (toward p q) = 1.
Proof.
  intros Hd. unfold toward, vnorm, vscale, vsub. cbn [fst snd].
  pose proof (dist_square p q) as Hs.
  set (d := dist p q) in *.
  match goal with
  | |- R_sqrt.sqrt ?e = 1 =>
      replace e with (/ d * / d * (d * d)) by (rewrite Hs; ring)
  end.
  replace (/ d * / d * (d * d)) with 1 by (field; lra).
  apply sqrt_1.
Qed.

Lemma vnorm_scale (k : R) (v : vec) : vnorm (vscale k v) = Rabs k * vnorm v.
Proof.
  unfold vnorm, vscale. cbn [fst snd].
  replace (k * fst v * (k * fst v) + k * snd v * (k * snd v))
    with (Rsqr k * (fst v * fst v + snd v * snd v)) by (unfold Rsqr; ring).
  rewrite sqrt_mult by (apply Rle_0_sqr || apply sum_sq_nonneg).
  now rewrite sqrt_Rsqr_abs.
Qed.

(** The repulsion of the specification has magnitude [500 / d^2] between
    0 and 120 px and vanishes from 120 px on. *)
Lemma spec_repulsion_magnitude (p q : vec) :
  0 < dist p q < 120 ->
  vnorm (spec_repulsion p q) = 500 / (dist p q * dist p q).
Proof.
  intros [Hpos Hnear]. unfold spec_repulsion.
  destruct (Rlt_dec 0 (dist p q)); [|contradiction].
  destruct (Rlt_dec (dist p q) 120); [|contradiction].
  rewrite vnorm_scale, toward_unit by (rewrite dist_sym; exact Hpos).
  rewrite Rabs_pos_eq; [ring|].
  apply Rlt_le, Rdiv_lt_0_compat; [lra | nra].
Qed.

Lemma spec_repulsion_far (p q : vec) :
  120 <= dist p q -> spec_repulsion p q = (0, 0).
Proof.
  intros Hfar. unfold spec_repulsion.
  destruct (Rlt_dec 0 (dist p q)); [|reflexivity].
  destruct (Rlt_dec (dist p q) 120); [lra | reflexivity].
Qed.

(** The attraction of the specification has magnitude 0.1 beyond 100 px
    and vanishes up to 100 px. *)
Lemma spec_attraction_magnitude (p q : vec) :
  100 < dist p q -> vnorm (spec_attraction p q) = 0.1.
Proof.
  intros Hfar. unfold spec_attraction.
  destruct (Rlt_dec 100 (dist p q)); [|contradiction].
  rewrite vnorm_scale, toward_unit by lra.
  rewrite Rabs_pos_eq; lra.
Qed.

Lemma spec_attraction_near (p q : vec) :
  dist p q <= 100 -> spec_attraction p q = (0, 0).
Proof.
  intros Hnear. unfold spec_attraction.
  destruct (Rlt_dec 100 (dist p q)); [lra | reflexivity].
Qed.

(** ** The accumulated force on finite nodes *)

Section Forces.

Variables width height : R.
Variable edges : list Edge.t.
Variable ns : list Node.t.
Hypothesis ns_finite : Forall finite_node ns.

Lemma nth_finite (j : nat) (other : Node.t) :
  nth_error ns j = Some other -> finite_node other.
Proof.
  intros H. apply nth_error_In in H.
  rewrite Forall_forall in ns_finite. auto.
Qed.

Lemma find_node_finite (key : string) (found : Node.t) :
  find_node key ns = Some found -> finite_node found.
Proof.
  intros H. apply find_some in H as [H _].
  rewrite Forall_forall in ns_finite. auto.
Qed.

(** The repulsion the code adds for a node at point [q]. *)
Lemma repulsion_step (px py qx qy a b : R) :
  let dx := (Fin px - Fin qx)%js in
  let dy := (Fin py - Fin qy)%js in
  let distance := Js.sqrt (dx * dx + dy * dy)%js in
  (if (distance >? Fin 0)%js && (distance <? Fin 120)%js then
     (Fin a + dx / distance * (Fin 500 / (distance * distance)),
      Fin b + dy / distance * (Fin 500 / (distance * distance)))%js
   else (Fin a, Fin b)) =
  (Fin (a + fst (spec_repulsion (px, py) (qx, qy))),
   Fin (b + snd (spec_repulsion (px, py) (qx, qy)))).
Proof.
  cbv zeta. unfold Js.gt. rewrite !sub_fin, !mul_fin, !add_fin.
  rewrite sqrt_fin by apply sum_sq_nonneg.
  unfold spec_repulsion, toward.
  rewrite (dist_sym (qx, qy) (px, py)).
  change (R_sqrt.sqrt ((px - qx) * (px - qx) + (py - qy) * (py - qy)))
    with (dist (px, py) (qx, qy)).
  set (d := dist (px, py) (qx, qy)).
  destruct (Rlt_dec 0 d) as [Hpos | Hpos].
  - rewrite (lt_fin_true 0 d) by exact Hpos.
    destruct (Rlt_dec d 120) as [Hnear | Hfar].
    + rewrite (lt_fin_true d 120) by exact Hnear. cbn [andb].
      rewrite !mul_fin, !div_fin by nra. rewrite !mul_fin, !add_fin.
      unfold vscale, vsub. cbn [fst snd]. f_equal; f_equal; field; lra.
    + rewrite (lt_fin_false d 120) by exact Hfar. cbn [andb fst snd].
      f_equal; f_equal; ring.
  - rewrite (lt_fin_false 0 d) by exact Hpos. cbn [andb fst snd].
    f_equal; f_equal; ring.
Qed.

Lemma repel_finite (i j : nat) (px py a b : R) :
  let t := vsum (map (spec_repulsion (px, py)) (other_at i ns j)) in
  repel i (Fin px) (Fin py) ns (Fin a, Fin b) j = (Fin (a + fst t), Fin (b + snd t)).
Proof.
  cbv zeta. unfold repel, other_at.
  destruct (Nat.eqb i j).
  { cbn. f_equal; f_equal; ring. }
  destruct (nth_error ns j) as [other|] eqn:Ej.
  2:{ cbn. f_equal; f_equal; ring. }
  pose proof (nth_finite j other Ej) as Hf.
  destruct (position other) as [[ox oy]|] eqn:Epos.
  - destruct (finite_position other ox oy Hf Epos) as (qx & qy & -> & -> & ->).
    cbn [map vsum fold_right fst snd].
    rewrite repulsion_step. unfold vadd. cbn [fst snd]. f_equal; f_equal; ring.
  - rewrite point_of_guard, Epos. cbn. f_equal; f_equal; ring.
Qed.

Lemma repel_fold (i : nat) (px py : R) (js : list nat) (a b : R) :
  let t := vsum (map (spec_repulsion (px, py)) (flat_map (other_at i ns) js)) in
  fold_left (repel i (Fin px) (Fin py) ns) js (Fin a, Fin b) =
  (Fin (a + fst t), Fin (b + snd t)).
Proof.
  cbv zeta. revert a b. induction js as [| j js IH]; intros a b.
  - cbn. f_equal; f_equal; ring.
  - cbn [fold_left flat_map]. rewrite repel_finite, IH.
    rewrite map_app, vsum_app. unfold vadd. cbn [fst snd]. f_equal; f_equal; ring.
Qed.

(** The attraction the code adds toward a connected node at point [q]. *)
Lemma attraction_step (px py qx qy a b : R) :
  let dx := (Fin qx - Fin px)%js in
  let dy := (Fin qy - Fin py)%js in
  let distance := Js.sqrt (dx * dx + dy * dy)%js in
  (if (distance >? Fin 100)%js then
     (Fin a + dx / distance * Fin 0.1, Fin b + dy / distance * Fin 0.1)%js
   else (Fin a, Fin b)) =
  (Fin (a + fst (spec_attraction (px, py) (qx, qy))),
   Fin (b + snd (spec_attraction (px, py) (qx, qy)))).
Proof.
  cbv zeta. unfold Js.gt. rewrite !sub_fin, !mul_fin, !add_fin.
  rewrite sqrt_fin by apply sum_sq_nonneg.
  unfold spec_attraction, toward.
  assert (Hd : R_sqrt.sqrt ((qx - px) * (qx - px) + (qy - py) * (qy - py))
               = dist (px, py) (qx, qy)).
  { unfold dist, vnorm, vsub. cbn [fst snd]. f_equal. ring. }
  rewrite Hd. set (d := dist (px, py) (qx, qy)).
  destruct (Rlt_dec 100 d) as [Hfar | Hnear].
  - rewrite (lt_fin_true 100 d) by exact Hfar.
    rewrite !div_fin by lra. rewrite !mul_fin, !add_fin.
    unfold vscale, vsub. cbn [fst snd]. f_equal; f_equal; field; lra.
  - rewrite (lt_fin_false 100 d) by exact Hnear. cbn [fst snd].
    f_equal; f_equal; ring.
Qed.

Lemma attract_finite (node : Node.t) (px py a b : R) (edge : Edge.t) :
  let t := vsum (map (spec_attraction (px, py)) (neighbour_via node ns edge)) in
  attract node (Fin px) (Fin py) ns (Fin a, Fin b) edge =
  (Fin (a + fst t), Fin (b + snd t)).
Proof.
  cbv zeta. unfold attract. rewrite neighbour_via_connected.
  destruct (connectedNode node ns edge) as [connected|] eqn:Ec.
  2:{ cbn. f_equal; f_equal; ring. }
  assert (Hf : finite_node connected).
  { unfold connectedNode in Ec.
    destruct (String.eqb _ _); [now apply find_node_finite in Ec|].
    destruct (String.eqb _ _); [now apply find_node_finite in Ec|discriminate]. }
  destruct (position connected) as [[cx cy]|] eqn:Epos.
  - destruct (finite_position connected cx cy Hf Epos) as (qx & qy & -> & -> & ->).
    cbn [map vsum fold_right fst snd].
    rewrite attraction_step. unfold vadd. cbn [fst snd]. f_equal; f_equal; ring.
  - rewrite point_of_guard, Epos. cbn. f_equal; f_equal; ring.
Qed.

Lemma attract_fold (node : Node.t) (px py : R) (es : list Edge.t) (a b : R) :
  let t := vsum (map (spec_attraction (px, py)) (flat_map (neighbour_via node ns) es)) in
  fold_left (attract node (Fin px) (Fin py) ns) es (Fin a, Fin b) =
  (Fin (a + fst t), Fin (b + snd t)).
Proof.
  cbv zeta. revert a b. induction es as [| e es IH]; intros a b.
  - cbn. f_equal; f_equal; ring.
  - cbn [fold_left flat_map]. rewrite attract_finite, IH.
    rewrite map_app, vsum_app. unfold vadd. cbn [fst snd]. f_equal; f_equal; ring.
Qed.

(** The force the code accumulates is the net force of the specification. *)
Lemma net_force_finite (i : nat) (node : Node.t) (px py : R) :
  let F := spec_net_force width height edges i node (px, py) ns in
  net_force width height edges i node (Fin px) (Fin py) ns = (Fin (fst F), Fin (snd F)).
Proof.
  cbv zeta. unfold net_force, zero.
  rewrite repel_fold, attract_fold. cbn [fst snd].
  unfold centerX, centerY. rewrite !div_fin by lra.
  rewrite !sub_fin, !mul_fin, !add_fin.
  unfold spec_net_force, spec_centering, others, neighbours, vadd, vscale, vsub.
  cbn [fst snd]. f_equal; f_equal; ring.
Qed.

End Forces.

(** ** Integration on finite nodes *)

Lemma integrate_finite (width height : R) (node : Node.t) (px py fx fy : R) :
  finite_node node ->
  let v' := vadd (vscale 0.8 (velocity node)) (vscale 0.1 (fx, fy)) in
  integrate width height node (Fin px) (Fin py) (Fin fx, Fin fy) =
  with_motion node
    (clampX width (Fin (px + fst v'))) (clampY height (Fin (py + snd v')))
    (Fin (fst v')) (Fin (snd v')).
Proof.
  intros (_ & _ & Hvx & Hvy). cbv zeta. unfold integrate, velocity.
  rewrite (or_zero_speed _ Hvx), (or_zero_speed _ Hvy).
  cbn [fst snd]. rewrite !mul_fin, !add_fin, !or_zero_fin, !add_fin.
  unfold vadd, vscale. cbn [fst snd].
  set (a := speed_of (Node.vx node)).
  set (b := speed_of (Node.vy node)).
  replace (a * 0.8 + fx * 0.1) with (0.8 * a + 0.1 * fx) by ring.
  replace (b * 0.8 + fy * 0.1) with (0.8 * b + 0.1 * fy) by ring.
  reflexivity.
Qed.

Lemma with_motion_finite (node : Node.t) (a b c d : R) :
  finite_node (with_motion node (Fin a) (Fin b) (Fin c) (Fin d)).
Proof. repeat split. Qed.

Lemma set_nth_Forall (P : Node.t -> Prop) (i : nat) (node : Node.t)
    (ns : list Node.t) :
  P node -> Forall P ns -> Forall P (set_nth i node ns).
Proof.
  intros Hn. revert i. induction ns as [| n ns IH]; intros i Hall.
  - destruct i; exact Hall.
  - inversion Hall; subst. destruct i; cbn; constructor; auto.
Qed.

Lemma simulate_node_finite (width height : R) (edges : list Edge.t)
    (ns : list Node.t) (i : nat) :
  Forall finite_node ns ->
  Forall finite_node (simulate_node width height edges ns i).
Proof.
  intros Hall. unfold simulate_node.
  destruct (nth_error ns i) as [node|] eqn:Ei; [|exact Hall].
  destruct (position node) as [[nx ny]|] eqn:Epos; [|exact Hall].
  pose proof (nth_finite ns Hall i node Ei) as Hf.
  destruct (finite_position node nx ny Hf Epos) as (px & py & -> & -> & _).
  rewrite net_force_finite by exact Hall.
  rewrite integrate_finite by exact Hf. rewrite clampX_fin, clampY_fin.
  apply set_nth_Forall; [apply with_motion_finite | exact Hall].
Qed.

Lemma simulate_upto_finite (width height : R) (edges : list Edge.t)
    (ns : list Node.t) (i : nat) :
  Forall finite_node ns ->
  Forall finite_node (simulate_upto width height edges i ns).
Proof.
  unfold simulate_upto. generalize (seq 0 i) as js.
  intros js. revert ns. induction js as [| j js IH]; intros ns Hall; cbn.
  - exact Hall.
  - apply IH. now apply simulate_node_finite.
Qed.

(** The node a tick leaves at index [i], for finite nodes: the net force of
    the specification, taken on the array as the loop finds it at [i],
    drives the velocity and the position. *)
Lemma simulate_finite_node (width height : R) (edges : list Edge.t)
    (ns : list Node.t) (i : nat) (node : Node.t) (p : vec) :
  Forall finite_node ns ->
  nth_error ns i = Some node ->
  point_of node = Some p ->
  let F := spec_net_force width height edges i node p
             (simulate_upto width height edges i ns) in
  let v' := vadd (vscale 0.8 (velocity node)) (vscale 0.1 F) in
  nth_error (simulate width height edges ns) i =
  Some (with_motion node
          (clampX width (Fin (fst p + fst v')))
          (clampY height (Fin (snd p + snd v')))
          (Fin (fst v')) (Fin (snd v'))).
Proof.
  intros Hall Hi Hp. cbv zeta.
  rewrite (simulate_processed width height edges ns i node _ _ Hi
             (point_of_position node p Hp)).
  rewrite net_force_finite by now apply simulate_upto_finite.
  rewrite integrate_finite by exact (nth_finite ns Hall i node Hi).
  reflexivity.
Qed.

(** The fields of the node a tick leaves at the index of a finite node at
    point [p]. *)
Lemma simulate_finite_fields (width height : R) (edges : list Edge.t)
    (ns : list Node.t) (i : nat) (node : Node.t) (p : vec) :
  Forall finite_node ns ->
  nth_error ns i = Some node ->
  point_of node = Some p ->
  let F := spec_net_force width height edges i node p
             (simulate_upto width height edges i ns) in
  let v' := vadd (vscale 0.8 (velocity node)) (vscale 0.1 F) in
  exists node',
    nth_error (simulate width height edges ns) i = Some node' /\
    Node.vx node' = Some (Fin (fst v')) /\
    Node.vy node' = Some (Fin (snd v')) /\
    Node.x node' = Some (Fin (Rmax 50 (Rmin (width - 50) (fst p + fst v')))) /\
    Node.y node' = Some (Fin (Rmax 50 (Rmin (height - 50) (snd p + snd v')))) /\
    static node' = static node.
Proof.
  intros Hall Hi Hp. cbv zeta.
  eexists. split; [exact (simulate_finite_node width height edges ns i node p Hall Hi Hp)|].
  cbn [with_motion Node.x Node.y Node.vx Node.vy].
  rewrite clampX_fin, clampY_fin. repeat split.
Qed.

(** C1: in a tick over finite nodes, the force accumulated on a node with a
    position [p] is the sum of the repulsions [500 / d^2] away from the
    other positioned nodes at distance [0 < d < 120], of the attractions
    [0.1] toward the nodes its edges connect it to at distance [d > 100],
    and of [0.01 * (centre - p)]; the node the tick leaves at that index
    has the velocity [v' = 0.8 * v + 0.1 * F] and the position [p + v']
    clamped to the viewport margins, and is otherwise the node it was.
    The other nodes are taken where the loop finds them when it reaches the
    node: those of smaller index have already moved. *)
Theorem C1_tick_force_and_integration
    (width height : R) (edges : list Edge.t)
    (ns : list Node.t) (i : nat) (node : Node.t) (p : vec) :
  Forall finite_node ns ->
  nth_error ns i = Some node ->
  point_of node = Some p ->
  let cur := simulate_upto width height edges i ns in
  let F :=
    vadd (vadd (vsum (map (spec_repulsion p) (others i cur)))
               (vsum (map (spec_attraction p) (neighbours node cur edges))))
         (vscale 0.01 (vsub (width / 2, height / 2) p)) in
  let v' := vadd (vscale 0.8 (velocity node)) (vscale 0.1 F) in
  let p' := vadd p v' in
  net_force width height edges i node (Fin (fst p)) (Fin (snd p)) cur
    = (Fin (fst F), Fin (snd F)) /\
  exists node',
    nth_error (simulate width height edges ns) i = Some node' /\
    Node.vx node' = Some (Fin (fst v')) /\
    Node.vy node' = Some (Fin (snd v')) /\
    Node.x node' = Some (Fin (Rmax 50 (Rmin (width - 50) (fst p')))) /\
    Node.y node' = Some (Fin (Rmax 50 (Rmin (height - 50) (snd p')))) /\
    static node' = static node.
Proof.
  intros Hall Hi Hp. cbv zeta. split.
  - apply net_force_finite. now apply simulate_upto_finite.
  - apply (simulate_finite_fields width height edges ns i node p Hall Hi Hp).
Qed.

(** A tick over a graph of one finite node and no edge: only the pull to
    the centre acts. *)
Lemma simulate_lone_node (width height : R) (node : Node.t) (p : vec) :
  finite_node node ->
  point_of node = Some p ->
  let v' := vadd (vscale 0.8 (velocity node))
                 (vscale 0.1 (spec_centering width height p)) in
  simulate width height [] [node] =
  [with_motion node
     (clampX width (Fin (fst p + fst v'))) (clampY height (Fin (snd p + snd v')))
     (Fin (fst v')) (Fin (snd v'))].
Proof.
  intros Hf Hp. cbv zeta.
  pose proof (simulate_finite_node width height [] [node] 0 node p
                (Forall_cons _ Hf (Forall_nil _)) eq_refl Hp) as H.
  cbv zeta in H.
  assert (HF : spec_net_force width height [] 0 node p
                 (simulate_upto width height [] 0 [node])
               = spec_centering width height p).
  { unfold spec_net_force, others, neighbours, simulate_upto.
    cbn [seq fold_left List.length flat_map other_at Nat.eqb app map vsum fold_right].
    destruct (spec_centering width height p) as [cx cy].
    unfold vadd. cbn [fst snd]. f_equal; ring. }
  rewrite HF in H.
  assert (Hlen : List.length (simulate width height [] [node]) = 1%nat)
    by apply simulate_upto_length.
  destruct (simulate width height [] [node]) as [| n' [| n'' rest]];
    try discriminate.
  cbn [nth_error] in H. now injection H as ->.
Qed.

Lemma sample_node_point (name : string) (px py : R) :
  px <> 0 -> py <> 0 -> point_of (sample_node name px py) = Some (px, py).
Proof.
  intros Hx Hy. rewrite point_of_guard. now rewrite sample_node_position.
Qed.

Lemma sample_node_finite (name : string) (px py : R) :
  finite_node (sample_node name px py).
Proof. repeat split. Qed.

(** Closes [Fin a = Fin b] and [Some (Fin a) = Some (Fin b)] goals whose
    sides are real expressions with [Rmax] and [Rmin]. *)
Ltac fin_eq :=
  repeat (apply (f_equal (@Some number)) || apply (f_equal Fin));
  unfold Rmax, Rmin; repeat destruct (Rle_dec _ _); lra.

(** C2, as stated, fails in a viewport narrower than 100: the interval
    [[50, width - 50]] is empty and the clamp puts the node at 50.  Here
    [width = 80] and a single node at (40, 300). *)
Lemma C2_counterexample_narrow_viewport :
  position (sample_node "a" 40 300) <> None /\
  exists node',
    nth_error (simulate 80 600 [] [sample_node "a" 40 300]) 0 = Some node' /\
    Node.x node' = Some (Fin 50) /\
    ~ in_clamped_bounds 80 600 node'.
Proof.
  split; [rewrite sample_node_position by lra; discriminate|].
  rewrite (simulate_lone_node 80 600 (sample_node "a" 40 300) (40, 300)
             (sample_node_finite _ _ _)
             (sample_node_point "a" 40 300 ltac:(lra) ltac:(lra))).
  cbn [nth_error]. eexists. split; [reflexivity|].
  rewrite !clampX_fin. cbn [with_motion Node.x Node.y].
  unfold spec_centering, velocity, sample_node, vadd, vscale, vsub.
  cbn [fst snd Node.vx Node.vy or_zero real_of zero].
  assert (Hx : Some (Fin (Rmax 50 (Rmin (80 - 50)
                 (40 + (0.8 * 0 + 0.1 * (0.01 * (80 / 2 - 40)))))))
               = Some (Fin 50)) by fin_eq.
  split; [exact Hx|].
  intros (px & py & Ex & _ & Hb & _).
  assert (E : Some (Fin px) = Some (Fin 50)) by (rewrite <- Ex; exact Hx).
  injection E as ->. lra.
Qed.

Lemma C1_witness :
  let p := (300, 300) in
  let node := sample_node "a" 300 300 in
  let cur := simulate_upto 800 600 [sample_edge "a" "b"] 0 sample_pair in
  let F :=
    vadd (vadd (vsum (map (spec_repulsion p) (others 0 cur)))
               (vsum (map (spec_attraction p)
                          (neighbours node cur [sample_edge "a" "b"]))))
         (vscale 0.01 (vsub (800 / 2, 600 / 2) p)) in
  let v' := vadd (vscale 0.8 (velocity node)) (vscale 0.1 F) in
  let p' := vadd p v' in
  net_force 800 600 [sample_edge "a" "b"] 0 node (Fin (fst p)) (Fin (snd p)) cur
    = (Fin (fst F), Fin (snd F)) /\
  exists node',
    nth_error (simulate 800 600 [sample_edge "a" "b"] sample_pair) 0 = Some node' /\
    Node.vx node' = Some (Fin (fst v')) /\
    Node.vy node' = Some (Fin (snd v')) /\
    Node.x node' = Some (Fin (Rmax 50 (Rmin (800 - 50) (fst p')))) /\
    Node.y node' = Some (Fin (Rmax 50 (Rmin (600 - 50) (snd p')))) /\
    static node' = static node.
Proof.
  apply (C1_tick_force_and_integration 800 600 [sample_edge "a" "b"]
           sample_pair 0 (sample_node "a" 300 300) (300, 300)).
  - repeat constructor.
  - reflexivity.
  - apply sample_node_point; lra.
Defined.

(** The same tick worked out: [b] is 200 px away, too far to repel and
    far enough to attract, so the force on [a] is [0.1] toward [b] plus
    [0.01 * 100] toward the centre. *)
Example sample_pair_force :
  spec_net_force 800 600 [sample_edge "a" "b"] 0 (sample_node "a" 300 300)
    (300, 300) sample_pair = (1.1, 0).
Proof.
  assert (Hd : dist (300, 300) (500, 300) = 200).
  { unfold dist, vnorm, vsub. cbn [fst snd]. apply sqrt_lem_1; lra. }
  unfold spec_net_force, others, neighbours, sample_pair.
  cbn [seq List.length flat_map other_at Nat.eqb nth_error app].
  rewrite !sample_node_point by lra.
  unfold neighbour_via, far_end, sample_edge, sample_node.
  cbn [Edge.from Edge.to Node.id node_named String.eqb Ascii.eqb Bool.eqb].
  fold (sample_node "b" 500 300). rewrite sample_node_point by lra.
  cbn [app map vsum fold_right].
  unfold spec_repulsion, spec_attraction, toward. rewrite Hd.
  destruct (Rlt_dec 0 200); [|lra].
  destruct (Rlt_dec 200 120); [lra|].
  destruct (Rlt_dec 100 200); [|lra].
  unfold spec_centering, vadd, vscale, vsub. cbn [fst snd]. f_equal; lra.
Qed.

(** ** Lookup by identifier *)

Lemma find_node_none (key : string) (ns : list Node.t) :
  ~ In key (map Node.id ns) -> find_node key ns = None.
Proof.
  unfold find_node. induction ns as [| n ns IH]; intros H; cbn; [reflexivity|].
  destruct (String.eqb (Node.id n) key) eqn:E.
  - apply String.eqb_eq in E. exfalso. apply H. now left.
  - apply IH. intros Hin. apply H. now right.
Qed.

(** With unique identifiers, looking a node's identifier up finds it. *)
Lemma find_node_unique (node : Node.t) (ns : list Node.t) :
  NoDup (map Node.id ns) -> In node ns -> find_node (Node.id node) ns = Some node.
Proof.
  unfold find_node. induction ns as [| n ns IH]; intros Hnd Hin; [contradiction|].
  cbn in Hnd. inversion Hnd as [| ? ? Hfresh Hrest]; subst.
  cbn [find]. destruct Hin as [-> | Hin].
  - now rewrite String.eqb_refl.
  - destruct (String.eqb (Node.id n) (Node.id node)) eqn:E.
    + apply String.eqb_eq in E. exfalso. apply Hfresh. rewrite E.
      now apply in_map.
    + now apply IH.
Qed.

(** ** Falsy positions *)

Lemma position_missing (node : Node.t) :
  Node.x node = None \/ Node.y node = None -> position node = None.
Proof.
  unfold position. intros [-> | ->]; [reflexivity|].
  now destruct (Node.x node).
Qed.

Lemma position_zero (node : Node.t) :
  Node.x node = Some (Fin 0) \/ Node.y node = Some (Fin 0) -> position node = None.
Proof.
  unfold position. intros [-> | ->].
  - rewrite truthy_zero. now destruct (Node.y node).
  - destruct (Node.x node); [|reflexivity].
    rewrite truthy_zero. now rewrite andb_false_r.
Qed.

Lemma renderNode_skips (sel : option Node.t) (node : Node.t) :
  position node = None -> renderNode sel node = None.
Proof. unfold renderNode. now intros ->. Qed.

Lemma renderEdge_skips_from (ns : list Node.t) (edge : Edge.t) (found : Node.t) :
  find_node (Edge.from edge) ns = Some found -> position found = None ->
  renderEdge ns edge = None.
Proof.
  unfold renderEdge. intros -> ->. now destruct (find_node (Edge.to edge) ns).
Qed.

Lemma renderEdge_skips_to (ns : list Node.t) (edge : Edge.t) (found : Node.t) :
  find_node (Edge.to edge) ns = Some found -> position found = None ->
  renderEdge ns edge = None.
Proof.
  unfold renderEdge. intros -> ->.
  destruct (find_node (Edge.from edge) ns) as [f|]; [|reflexivity].
  now destruct (position f) as [[? ?]|].
Qed.

Lemma repel_skips (i j : nat) (nx ny : number) (ns : list Node.t) (f : force)
    (other : Node.t) :
  nth_error ns j = Some other -> position other = None ->
  repel i nx ny ns f j = f.
Proof. unfold repel. intros -> ->. now destruct (Nat.eqb i j). Qed.

Lemma attract_skips (node connected : Node.t) (nx ny : number)
    (ns : list Node.t) (f : force) (edge : Edge.t) :
  connectedNode node ns edge = Some connected -> position connected = None ->
  attract node nx ny ns f edge = f.
Proof. unfold attract. now intros -> ->. Qed.

Lemma simulate_node_skips (width height : R) (edges : list Edge.t)
    (ns : list Node.t) (i : nat) (node : Node.t) :
  nth_error ns i = Some node -> position node = None ->
  simulate_node width height edges ns i = ns.
Proof. unfold simulate_node. now intros -> ->. Qed.

(** C10: a node whose [x] or [y] is exactly 0 is handled as a node without
    a position.  Its own iteration of the tick changes nothing and the tick
    leaves it as it was; it adds nothing to the repulsion or attraction
    accumulated on any other node; it is not rendered; and, identifiers
    being unique, no edge that names it is rendered. *)
Theorem C10_zero_coordinate_counts_as_missing (node : Node.t) :
  Node.x node = Some (Fin 0) \/ Node.y node = Some (Fin 0) ->
  (forall width height edges ns i,
      nth_error ns i = Some node ->
      simulate_node width height edges ns i = ns /\
      nth_error (simulate width height edges ns) i = Some node) /\
  (forall i j nx ny ns f,
      nth_error ns j = Some node -> repel i nx ny ns f j = f) /\
  (forall other nx ny ns f edge,
      connectedNode other ns edge = Some node ->
      attract other nx ny ns f edge = f) /\
  (forall sel, renderNode sel node = None) /\
  (forall ns edge,
      NoDup (map Node.id ns) -> In node ns ->
      Edge.from edge = Node.id node \/ Edge.to edge = Node.id node ->
      renderEdge ns edge = None).
Proof.
  intros Hzero. pose proof (position_zero node Hzero) as Hpos.
  split; [|split; [|split; [|split]]].
  - intros width height edges ns i Hi. split.
    + now apply simulate_node_skips with (node := node).
    + now apply simulate_skipped.
  - intros. now apply repel_skips with (other := node).
  - intros. now apply attract_skips with (connected := node).
  - intros. now apply renderNode_skips.
  - intros ns edge Hnd Hin [E | E].
    + apply renderEdge_skips_from with (found := node); [|exact Hpos].
      rewrite E. now apply find_node_unique.
    + apply renderEdge_skips_to with (found := node); [|exact Hpos].
      rewrite E. now apply find_node_unique.
Qed.

Lemma C10_witness :
  let z := sample_node "z" 0 300 in
  let ns := [sample_node "a" 300 300; z] in
  let edge := sample_edge "a" "z" in
  nth_error (simulate 800 600 [edge] ns) 1 = Some z /\
  repel 0 (Fin 300) (Fin 300) ns (zero, zero) 1 = (zero, zero) /\
  renderNode None z = None /\
  renderEdge ns edge = None.
Proof.
  cbv zeta.
  destruct (C10_zero_coordinate_counts_as_missing (sample_node "z" 0 300)
              (or_introl eq_refl)) as (Htick & Hrepel & _ & Hnode & Hedge).
  split; [|split; [|split]].
  - apply Htick. reflexivity.
  - apply Hrepel. reflexivity.
  - apply Hnode.
  - apply Hedge.
    + apply NoDup_cons; [cbn; intros [H | H]; [discriminate H | exact H]|].
      apply NoDup_cons; [cbn; intros H; exact H | apply NoDup_nil].
    + right. left. reflexivity.
    + right. reflexivity.
Defined.

(** C9: an edge whose [from] or [to] names no node of the graph, and a node
    whose [x] or [y] is undefined, each yield [null] in the rendered
    scene; rendering is a total function, so nothing is raised. *)
Theorem C9_render_skips_dangling_edges_and_unplaced_nodes
    (edges : list Edge.t) (st : State) :
  (forall k edge,
      nth_error edges k = Some edge ->
      ~ In (Edge.from edge) (map Node.id (nodes st)) \/
      ~ In (Edge.to edge) (map Node.id (nodes st)) ->
      nth_error (fst (render edges st)) k = Some None) /\
  (forall k node,
      nth_error (nodes st) k = Some node ->
      Node.x node = None \/ Node.y node = None ->
      nth_error (snd (render edges st)) k = Some None).
Proof.
  unfold render. cbn [fst snd]. split.
  - intros k edge Hk Hdangling.
    rewrite nth_error_map, Hk. cbn. f_equal.
    unfold renderEdge. destruct Hdangling as [H | H].
    + now rewrite (find_node_none _ _ H).
    + rewrite (find_node_none _ _ H).
      now destruct (find_node (Edge.from edge) (nodes st)).
  - intros k node Hk Hmissing.
    rewrite nth_error_map, Hk. cbn. f_equal.
    apply renderNode_skips. now apply position_missing.
Qed.

Lemma C9_witness :
  let st := idle [sample_node "a" 300 300; unplaced_node "b"] in
  let edges := [sample_edge "a" "ghost"] in
  nth_error (fst (render edges st)) 0 = Some None /\
  nth_error (snd (render edges st)) 1 = Some None.
Proof.
  cbv zeta.
  destruct (C9_render_skips_dangling_edges_and_unplaced_nodes
              [sample_edge "a" "ghost"]
              (idle [sample_node "a" 300 300; unplaced_node "b"]))
    as (Hedge & Hnode).
  split.
  - apply (Hedge 0%nat (sample_edge "a" "ghost") eq_refl).
    right. cbn. intros [H | [H | H]]; [discriminate H | discriminate H | exact H].
  - apply (Hnode 1%nat (unplaced_node "b") eq_refl). left. reflexivity.
Defined.

(** ** Edge geometry *)

Lemma dist_pos (p q : vec) : p <> q -> 0 < dist p q.
Proof.
  intros Hne. unfold dist, vnorm, vsub. cbn [fst snd].
  apply sqrt_lt_R0.
  destruct p as [a b], q as [c d]. cbn [fst snd].
  pose proof (Rle_0_sqr (a - c)) as Hac. pose proof (Rle_0_sqr (b - d)) as Hbd.
  destruct (Req_dec_T a c) as [-> | Ha].
  - destruct (Req_dec_T b d) as [-> | Hb]; [now contradiction Hne|].
    assert (0 < Rsqr (b - d)) by (apply Rsqr_pos_lt; lra).
    unfold Rsqr in *. lra.
  - assert (0 < Rsqr (a - c)) by (apply Rsqr_pos_lt; lra).
    unfold Rsqr in *. lra.
Qed.

(** What [renderEdge] computes for two endpoints at points [p] and [q]. *)
Lemma renderEdge_at (ns : list Node.t) (edge : Edge.t)
    (fromNode toNode : Node.t) (p q : vec) :
  find_node (Edge.from edge) ns = Some fromNode ->
  find_node (Edge.to edge) ns = Some toNode ->
  point_of fromNode = Some p ->
  point_of toNode = Some q ->
  exists view,
    renderEdge ns edge = Some view /\
    let length := Fin (dist p q) in
    let unitX := (Fin (fst q - fst p) / length)%js in
    let unitY := (Fin (snd q - snd p) / length)%js in
    x1 view = (Fin (fst p) + unitX * Fin (getNodeSize fromNode))%js /\
    y1 view = (Fin (snd p) + unitY * Fin (getNodeSize fromNode))%js /\
    x2 view = (Fin (fst q) - unitX * Fin (getNodeSize toNode))%js /\
    y2 view = (Fin (snd q) - unitY * Fin (getNodeSize toNode))%js /\
    (edge_label view <> None -> 80 < dist p q).
Proof.
  intros Hfrom Hto Hp Hq. unfold renderEdge.
  rewrite Hfrom, Hto, (point_of_position _ _ Hp), (point_of_position _ _ Hq).
  eexists. split; [reflexivity|]. cbv zeta. cbn [x1 y1 x2 y2 edge_label].
  rewrite !sub_fin, !mul_fin, !add_fin, sqrt_fin by apply sum_sq_nonneg.
  assert (Hd : R_sqrt.sqrt ((fst q - fst p) * (fst q - fst p)
                            + (snd q - snd p) * (snd q - snd p)) = dist p q).
  { unfold dist, vnorm, vsub. cbn [fst snd]. f_equal. ring. }
  rewrite Hd. repeat split.
  destruct (Edge.label edge) as [lbl|]; [|congruence].
  unfold Js.gt. destruct (Rlt_dec 80 (dist p q)) as [H | H]; [auto|].
  rewrite (lt_fin_false 80 (dist p q)) by exact H.
  rewrite andb_false_r. congruence.
Qed.

(** C8: for an edge whose endpoints are found at two distinct points [p]
    and [q], the line drawn runs from [p + r_from * u] to [q - r_to * u],
    where [u] is the unit vector from [p] to [q] and [r_from], [r_to] are
    the radii of the two nodes. *)
Theorem C8_edge_runs_boundary_to_boundary
    (ns : list Node.t) (edge : Edge.t) (fromNode toNode : Node.t) (p q : vec) :
  find_node (Edge.from edge) ns = Some fromNode ->
  find_node (Edge.to edge) ns = Some toNode ->
  point_of fromNode = Some p ->
  point_of toNode = Some q ->
  p <> q ->
  let u := toward p q in
  let start := vadd p (vscale (getNodeSize fromNode) u) in
  let finish := vsub q (vscale (getNodeSize toNode) u) in
  vnorm u = 1 /\
  exists view,
    renderEdge ns edge = Some view /\
    x1 view = Fin (fst start) /\ y1 view = Fin (snd start) /\
    x2 view = Fin (fst finish) /\ y2 view = Fin (snd finish).
Proof.
  intros Hfrom Hto Hp Hq Hne. cbv zeta.
  pose proof (dist_pos p q Hne) as Hd.
  split; [now apply toward_unit|].
  destruct (renderEdge_at ns edge fromNode toNode p q Hfrom Hto Hp Hq)
    as (view & Hview & H1 & H2 & H3 & H4 & _).
  exists view. split; [exact Hview|].
  rewrite !div_fin in H1, H2, H3, H4 by lra.
  rewrite !mul_fin in H1, H2, H3, H4.
  rewrite H1, H2, H3, H4, !add_fin, !sub_fin.
  unfold toward, vadd, vsub, vscale. cbn [fst snd].
  repeat split; f_equal; field; lra.
Qed.

Lemma C8_witness :
  let p := (300, 300) in
  let q := (500, 300) in
  let u := toward p q in
  let start := vadd p (vscale (getNodeSize (sample_node "a" 300 300)) u) in
  let finish := vsub q (vscale (getNodeSize (sample_node "b" 500 300)) u) in
  vnorm u = 1 /\
  exists view,
    renderEdge sample_pair (sample_edge "a" "b") = Some view /\
    x1 view = Fin (fst start) /\ y1 view = Fin (snd start) /\
    x2 view = Fin (fst finish) /\ y2 view = Fin (snd finish).
Proof.
  apply (C8_edge_runs_boundary_to_boundary sample_pair (sample_edge "a" "b")
           (sample_node "a" 300 300) (sample_node "b" 500 300)).
  - reflexivity.
  - reflexivity.
  - apply sample_node_point; lra.
  - apply sample_node_point; lra.
  - intros H. injection H as H. lra.
Defined.

(** ** Zero-length edges *)

Lemma div_zero_zero : (Fin 0 / Fin 0)%js = NaN.
Proof.
  unfold Js.div, signed_inf.
  destruct (Req_dec_T 0 0); [|contradiction].
  destruct (Rlt_dec 0 0); [lra | reflexivity].
Qed.

(** An edge whose endpoints are found at one and the same point is drawn:
    the unit vector is [0 / 0], so all four coordinates of the line are
    NaN; only the label is left out. *)
Lemma renderEdge_coincident (ns : list Node.t) (edge : Edge.t)
    (fromNode toNode : Node.t) (p : vec) :
  find_node (Edge.from edge) ns = Some fromNode ->
  find_node (Edge.to edge) ns = Some toNode ->
  point_of fromNode = Some p ->
  point_of toNode = Some p ->
  exists view,
    renderEdge ns edge = Some view /\
    x1 view = NaN /\ y1 view = NaN /\ x2 view = NaN /\ y2 view = NaN /\
    edge_label view = None.
Proof.
  intros Hfrom Hto Hp Hq.
  destruct (renderEdge_at ns edge fromNode toNode p p Hfrom Hto Hp Hq)
    as (view & Hview & H1 & H2 & H3 & H4 & Hlabel).
  exists view. split; [exact Hview|].
  rewrite dist_zero in *.
  replace (fst p - fst p) with 0 in * by ring.
  replace (snd p - snd p) with 0 in * by ring.
  rewrite div_zero_zero in *.
  repeat split; try assumption.
  destruct (edge_label view); [|reflexivity].
  assert (80 < 0) by (apply Hlabel; discriminate). lra.
Qed.

(** C5 does not hold of the code: for the self-loop [a -> a] on a node at
    (100, 100) the edge is rendered, its line and arrow carry the NaN that
    [0 / 0] produced, and only its label is omitted. *)
Theorem C5_zero_length_edge_is_drawn_with_NaN :
  renderEdge [sample_node "a" 100 100] (sample_edge "a" "a") =
  Some {| x1 := NaN; y1 := NaN; x2 := NaN; y2 := NaN;
          strokeWidth := 3;
          strokeDasharray := "none";
          edge_label := None;
          arrow := [(NaN, NaN); (NaN, NaN); (NaN, NaN)] |}.
Proof.
  unfold renderEdge, sample_edge.
  cbn [Edge.from Edge.to Edge.label Edge.type find_node find sample_node
       Node.id String.eqb Ascii.eqb Bool.eqb].
  fold (sample_node "a" 100 100). rewrite sample_node_position by lra.
  cbv zeta. rewrite !sub_fin, !mul_fin, !add_fin, sqrt_fin by apply sum_sq_nonneg.
  replace (100 - 100) with 0 by ring.
  replace (0 * 0 + 0 * 0) with 0 by ring.
  rewrite sqrt_0, div_zero_zero. unfold Js.gt.
  rewrite (lt_fin_false 80 0) by lra.
  reflexivity.
Qed.

(** ** Initialisation *)

Lemma mapi_from_nth {A B : Type} (f : A -> nat -> B) (k i : nat) (l : list A) :
  nth_error (mapi_from f k l) i =
  match nth_error l i with Some a => Some (f a (k + i)%nat) | None => None end.
Proof.
  revert k i. induction l as [| a l IH]; intros k [| i]; cbn; try reflexivity.
  - now rewrite Nat.add_0_r.
  - rewrite IH. now rewrite Nat.add_succ_r.
Qed.

(** The node the initialisation puts at index [i], in real coordinates. *)
Lemma initializedNodes_nth (width height : R) (random : nat -> R)
    (ns : list Node.t) (i : nat) (node : Node.t) :
  nth_error ns i = Some node ->
  let theta := INR i / INR (List.length ns) * 2 * PI in
  let rho := Rmin width height * 0.35 in
  let jitter := (random i - 0.5) * 40 in
  nth_error (initializedNodes width height random ns) i =
  Some (with_motion node
          (Fin (width / 2 + Rtrigo_def.cos theta * (rho + jitter)))
          (Fin (height / 2 + Rtrigo_def.sin theta * (rho + jitter)))
          zero zero).
Proof.
  intros Hi. cbv zeta. unfold initializedNodes, mapi.
  rewrite mapi_from_nth, Hi. cbn [Nat.add].
  assert (Hlen : INR (List.length ns) <> 0).
  { apply not_0_INR. destruct ns; [destruct i; discriminate | discriminate]. }
  unfold centerX, centerY, radius.
  rewrite min_fin, !div_fin by (exact Hlen || lra).
  rewrite !sub_fin, !mul_fin. cbn [Js.cos Js.sin].
  rewrite !add_fin, !mul_fin, !add_fin. reflexivity.
Qed.

(** C6: node [i] of [N] is put at angle [2 * PI * i / N] around the centre
    of the viewport, at distance [0.35 * min(width, height) + jitter] from
    it, where [jitter = (random - 0.5) * 40] lies in [[-20, 20)]: its [x]
    and [y] are those of that point, which is within 20 px of the point of
    the circle at that angle, its [vx] and [vy] are 0, and its other fields
    are those of the payload node. *)
Theorem C6_initial_layout_on_jittered_circle
    (width height : R) (random : nat -> R)
    (ns : list Node.t) (i : nat) (node : Node.t) :
  (forall k, 0 <= random k < 1) ->
  nth_error ns i = Some node ->
  let theta := 2 * PI * INR i / INR (List.length ns) in
  let rho := 0.35 * Rmin width height in
  let centre := (width / 2, height / 2) in
  let direction := (Rtrigo_def.cos theta, Rtrigo_def.sin theta) in
  let on_circle := vadd centre (vscale rho direction) in
  let jitter := (random i - 0.5) * 40 in
  let placed := vadd centre (vscale (rho + jitter) direction) in
  -20 <= jitter < 20 /\
  dist placed on_circle <= 20 /\
  exists node',
    nth_error (initializedNodes width height random ns) i = Some node' /\
    Node.x node' = Some (Fin (fst placed)) /\
    Node.y node' = Some (Fin (snd placed)) /\
    Node.vx node' = Some (Fin 0) /\
    Node.vy node' = Some (Fin 0) /\
    static node' = static node.
Proof.
  intros Hrandom Hi. cbv zeta.
  pose proof (Hrandom i) as Hr.
  split; [lra|]. split.
  - set (theta := 2 * PI * INR i / INR (List.length ns)).
    set (j := (random i - 0.5) * 40).
    unfold dist, vnorm, vsub, vadd, vscale. cbn [fst snd].
    match goal with
    | |- R_sqrt.sqrt ?e <= 20 =>
        replace e with (Rsqr j * (Rsqr (Rtrigo_def.sin theta) + Rsqr (Rtrigo_def.cos theta)))
          by (unfold Rsqr; ring)
    end.
    rewrite sin2_cos2, Rmult_1_r, sqrt_Rsqr_abs.
    unfold j. apply Rabs_le. lra.
  - eexists. split; [exact (initializedNodes_nth width height random ns i node Hi)|].
    assert (Hlen : INR (List.length ns) <> 0).
    { apply not_0_INR. destruct ns; [destruct i; discriminate | discriminate]. }
    replace (INR i / INR (List.length ns) * 2 * PI)
      with (2 * PI * INR i / INR (List.length ns)) by (field; exact Hlen).
    cbn [with_motion Node.x Node.y Node.vx Node.vy].
    unfold vadd, vscale, zero. cbn [fst snd].
    split; [apply f_equal, f_equal; ring|].
    split; [apply f_equal, f_equal; ring|].
    repeat split.
Qed.

Lemma sample_random_range (k : nat) : 0 <= sample_random k < 1.
Proof. unfold sample_random. lra. Qed.

Lemma C6_witness :
  let theta := 2 * PI * INR 1 / INR (List.length sample_pair) in
  let rho := 0.35 * Rmin 800 600 in
  let centre := (800 / 2, 600 / 2) in
  let direction := (Rtrigo_def.cos theta, Rtrigo_def.sin theta) in
  let on_circle := vadd centre (vscale rho direction) in
  let jitter := (sample_random 1 - 0.5) * 40 in
  let placed := vadd centre (vscale (rho + jitter) direction) in
  -20 <= jitter < 20 /\
  dist placed on_circle <= 20 /\
  exists node',
    nth_error (initializedNodes 800 600 sample_random sample_pair) 1 = Some node' /\
    Node.x node' = Some (Fin (fst placed)) /\
    Node.y node' = Some (Fin (snd placed)) /\
    Node.vx node' = Some (Fin 0) /\
    Node.vy node' = Some (Fin 0) /\
    static node' = static (sample_node "b" 500 300).
Proof.
  apply (C6_initial_layout_on_jittered_circle 800 600 sample_random
           sample_pair 1 (sample_node "b" 500 300)).
  - intros k. unfold sample_random. lra.
  - reflexivity.
Defined.

(** A scaled sine or cosine stays within the scale. *)
Lemma scaled_unit_bound (c r : R) : -1 <= c <= 1 -> 0 <= r -> - r <= c * r <= r.
Proof.
  intros Hc Hr.
  assert (0 <= (1 - c) * r) by (apply Rmult_le_pos; lra).
  assert (0 <= (1 + c) * r) by (apply Rmult_le_pos; lra).
  lra.
Qed.

(** C7, as amended: in a viewport whose width and height are both at least
    400/3 px (so that [0.35 * min + 20 <= min / 2]), the default 800 by 600
    among them, every node lies inside [[0, width] x [0, height]] right
    after initialisation, whatever the random draws. *)
Theorem C7_initial_layout_inside_viewport
    (width height : R) (random : nat -> R)
    (ns : list Node.t) (i : nat) (node : Node.t) :
  400 / 3 <= width -> 400 / 3 <= height ->
  (forall k, 0 <= random k < 1) ->
  nth_error ns i = Some node ->
  exists node',
    nth_error (initializedNodes width height random ns) i = Some node' /\
    in_viewport width height node'.
Proof.
  intros Hw Hh Hrandom Hi.
  rewrite (initializedNodes_nth width height random ns i node Hi).
  eexists. split; [reflexivity|].
  unfold in_viewport. cbn [with_motion Node.x Node.y].
  do 2 eexists. split; [reflexivity|]. split; [reflexivity|].
  set (theta := INR i / INR (List.length ns) * 2 * PI).
  set (r := Rmin width height * 0.35 + (random i - 0.5) * 40).
  pose proof (Hrandom i) as Hr.
  pose proof (Rmin_l width height) as Hl.
  pose proof (Rmin_r width height) as Hrr.
  assert (Hmin : 400 / 3 <= Rmin width height)
    by (unfold Rmin; destruct (Rle_dec width height); lra).
  assert (H0 : 0 <= r) by (unfold r; lra).
  assert (Hhalf : r <= Rmin width height / 2) by (unfold r; lra).
  pose proof (scaled_unit_bound _ r (COS_bound theta) H0) as Hcos.
  pose proof (scaled_unit_bound _ r (SIN_bound theta) H0) as Hsin.
  lra.
Qed.

Lemma C7_witness :
  exists node',
    nth_error (initializedNodes 800 600 sample_random sample_pair) 0 = Some node' /\
    in_viewport 800 600 node'.
Proof.
  apply (C7_initial_layout_inside_viewport 800 600 sample_random
           sample_pair 0 (sample_node "a" 300 300)).
  - lra.
  - lra.
  - intros k. unfold sample_random. lra.
  - reflexivity.
Defined.

(** C7, as stated, fails in a small viewport: at 100 by 100 the circle has
    radius 35 and a draw of 0.9 adds 16, so the only node of a one-node
    graph lands at x = 50 + 51 = 101, right of the viewport. *)
Lemma C7_counterexample_small_viewport :
  (forall k, 0 <= sample_random k < 1) /\
  exists node',
    nth_error (initializedNodes 100 100 sample_random [unplaced_node "a"]) 0
      = Some node' /\
    Node.x node' = Some (Fin 101) /\
    ~ in_viewport 100 100 node'.
Proof.
  split; [exact sample_random_range|].
  rewrite (initializedNodes_nth 100 100 sample_random [unplaced_node "a"] 0
             (unplaced_node "a") eq_refl).
  eexists. split; [reflexivity|].
  cbn [with_motion Node.x List.length INR].
  replace (0 / 1 * 2 * PI) with 0 by field.
  rewrite cos_0. unfold sample_random.
  assert (Hmin : Rmin 100 100 = 100)
    by (unfold Rmin; destruct (Rle_dec 100 100); reflexivity).
  rewrite Hmin.
  assert (Hx : 100 / 2 + 1 * (100 * 0.35 + (0.9 - 0.5) * 40) = 101) by lra.
  rewrite Hx. split; [reflexivity|].
  intros (px & py & Ex & _ & Hb & _). injection Ex as <-. lra.
Qed.

(** ** Dragging *)

Lemma handleMouseMove_nodes (st : State) (rleft rtop clientX clientY : number)
    (dragged : Node.t) :
  isDragging st = true ->
  dragNode st = Some dragged ->
  nodes (handleMouseMove (Some (rleft, rtop)) clientX clientY st) =
  map (fun node =>
         if String.eqb (Node.id node) (Node.id dragged)
         then with_motion node (clientX - rleft)%js (clientY - rtop)%js zero zero
         else node)
      (nodes st).
Proof. unfold handleMouseMove. now intros -> ->. Qed.

Lemma handleMouseMove_keeps_drag (rect : option (number * number))
    (clientX clientY : number) (st : State) :
  let st' := handleMouseMove rect clientX clientY st in
  isDragging st' = isDragging st /\ dragNode st' = dragNode st /\
  selectedNode st' = selectedNode st.
Proof.
  cbv zeta. unfold handleMouseMove.
  destruct (isDragging st) eqn:E; cbn [negb]; [|now rewrite E].
  destruct (dragNode st) as [dragged|] eqn:D; [|now rewrite E, D].
  destruct rect as [[rleft rtop]|]; cbn; now rewrite ?E, ?D.
Qed.

Lemma with_motion_point (node : Node.t) (a b : R) (c d : number) :
  a <> 0 -> b <> 0 -> point_of (with_motion node (Fin a) (Fin b) c d) = Some (a, b).
Proof.
  intros Ha Hb. unfold point_of. cbn [with_motion Node.x Node.y].
  destruct (Req_dec_T a 0); [contradiction|].
  destruct (Req_dec_T b 0); [contradiction | reflexivity].
Qed.

(** A clamped coordinate that started strictly inside the margins and was
    displaced comes out different from where it started. *)
Lemma clamp_moves (lo hi c d : R) :
  lo < c < hi -> d <> 0 -> Rmax lo (Rmin hi (c + d)) <> c.
Proof.
  intros Hc Hd H. apply Hd.
  unfold Rmax, Rmin in H.
  destruct (Rle_dec hi (c + d)), (Rle_dec lo _); lra.
Qed.

(** C3, as amended: while a node is dragged, a pointer-move puts every
    node carrying the dragged identifier exactly at the pointer coordinates
    (relative to the bounding rectangle of the drawing) with velocity
    (0, 0), and leaves the other nodes as they are.  The tick that follows
    makes no exception for the dragged node: it leaves the drag on, and
    every finite node with a position, the dragged one included, gets the
    velocity [0.8 * v + 0.1 * F] and the clamped position [p + v'].  The
    dragged node is thereby moved off the pointer along each axis on which
    the pointer lies strictly inside the margins and the force on the node
    is not zero. *)
Theorem C3_pointer_move_places_node_and_tick_still_integrates_it
    (width height : R) (edges : list Edge.t) (st : State)
    (rleft rtop clientX clientY : number) (dragged : Node.t) :
  isDragging st = true ->
  dragNode st = Some dragged ->
  let st' := handleMouseMove (Some (rleft, rtop)) clientX clientY st in
  let st'' := step width height edges st' Tick in
  (forall k node,
      nth_error (nodes st) k = Some node ->
      exists moved,
        nth_error (nodes st') k = Some moved /\
        static moved = static node /\
        (Node.id node = Node.id dragged ->
         Node.x moved = Some (clientX - rleft)%js /\
         Node.y moved = Some (clientY - rtop)%js /\
         Node.vx moved = Some (Fin 0) /\
         Node.vy moved = Some (Fin 0) /\
         forall px py ox oy,
           clientX = Fin px -> clientY = Fin py ->
           rleft = Fin ox -> rtop = Fin oy ->
           Node.x moved = Some (Fin (px - ox)) /\
           Node.y moved = Some (Fin (py - oy))) /\
        (Node.id node <> Node.id dragged -> moved = node)) /\
  isDragging st'' = true /\
  dragNode st'' = Some dragged /\
  (forall k node p,
      Forall finite_node (nodes st') ->
      nth_error (nodes st') k = Some node ->
      point_of node = Some p ->
      let F := spec_net_force width height edges k node p
                 (simulate_upto width height edges k (nodes st')) in
      let v' := vadd (vscale 0.8 (velocity node)) (vscale 0.1 F) in
      exists node',
        nth_error (nodes st'') k = Some node' /\
        Node.vx node' = Some (Fin (fst v')) /\
        Node.vy node' = Some (Fin (snd v')) /\
        Node.x node' = Some (Fin (Rmax 50 (Rmin (width - 50) (fst p + fst v')))) /\
        Node.y node' = Some (Fin (Rmax 50 (Rmin (height - 50) (snd p + snd v')))) /\
        static node' = static node /\
        (Node.id node = Node.id dragged ->
         (50 < fst p < width - 50 -> fst F <> 0 ->
          Node.x node' <> Some (Fin (fst p))) /\
         (50 < snd p < height - 50 -> snd F <> 0 ->
          Node.y node' <> Some (Fin (snd p))))).
Proof.
  intros Hdrag Hnode. cbv zeta.
  pose proof (handleMouseMove_nodes st rleft rtop clientX clientY dragged
                Hdrag Hnode) as Hmoved.
  split; [|split; [|split]].
  - intros k node Hk. rewrite Hmoved, nth_error_map, Hk. cbn [option_map].
    destruct (String.eqb (Node.id node) (Node.id dragged)) eqn:E.
    + eexists. split; [reflexivity|]. split; [reflexivity|].
      split.
      * intros _. repeat (split; [reflexivity|]).
        intros px py ox oy -> -> -> ->. split; reflexivity.
      * apply String.eqb_eq in E. intros H. contradiction.
    + exists node. split; [reflexivity|]. split; [reflexivity|].
      apply String.eqb_neq in E. split; [intros H; contradiction | reflexivity].
  - cbn [step isDragging].
    destruct (handleMouseMove_keeps_drag (Some (rleft, rtop)) clientX clientY st)
      as (-> & _ & _). exact Hdrag.
  - cbn [step dragNode].
    destruct (handleMouseMove_keeps_drag (Some (rleft, rtop)) clientX clientY st)
      as (_ & -> & _). exact Hnode.
  - intros k node p Hall Hk Hp. cbn [step nodes].
    destruct (simulate_finite_fields width height edges _ k node p Hall Hk Hp)
      as (node' & Hk' & Hvx & Hvy & Hx & Hy & Hs).
    cbv zeta in Hvx, Hvy, Hx, Hy.
    exists node'. repeat (split; [assumption|]).
    intros Hid.
    assert (Hv : velocity node = (0, 0)).
    { rewrite Hmoved, nth_error_map in Hk.
      destruct (nth_error (nodes st) k) as [n|]; [|discriminate].
      cbn [option_map] in Hk. injection Hk as Hk.
      destruct (String.eqb (Node.id n) (Node.id dragged)) eqn:E.
      - subst node. reflexivity.
      - subst node. apply String.eqb_neq in E. contradiction. }
    rewrite Hv in Hx, Hy. unfold vadd, vscale in Hx, Hy. cbn [fst snd] in Hx, Hy.
    split; intros Hin HF H.
    + rewrite Hx in H. injection H as H.
      apply (clamp_moves 50 (width - 50) (fst p) (0.8 * 0 + 0.1 * fst
               (spec_net_force width height edges k node p
                  (simulate_upto width height edges k
                     (nodes (handleMouseMove (Some (rleft, rtop))
                               clientX clientY st))))));
        [exact Hin | lra | exact H].
    + rewrite Hy in H. injection H as H.
      apply (clamp_moves 50 (height - 50) (snd p) (0.8 * 0 + 0.1 * snd
               (spec_net_force width height edges k node p
                  (simulate_upto width height edges k
                     (nodes (handleMouseMove (Some (rleft, rtop))
                               clientX clientY st))))));
        [exact Hin | lra | exact H].
Qed.

(** C4, as amended: pointer-up changes no node; when it comes right after a
    pointer-move of the drag, every node carrying the dragged identifier
    has velocity (0, 0) at that moment. *)
Theorem C4_release_right_after_move_finds_zero_velocity
    (st : State) (rleft rtop clientX clientY : number) (dragged : Node.t) :
  isDragging st = true ->
  dragNode st = Some dragged ->
  let st' := handleMouseUp
               (handleMouseMove (Some (rleft, rtop)) clientX clientY st) in
  isDragging st' = false /\
  dragNode st' = None /\
  (forall node,
      In node (nodes st') -> Node.id node = Node.id dragged ->
      Node.vx node = Some (Fin 0) /\ Node.vy node = Some (Fin 0)) /\
  (forall st0, nodes (handleMouseUp st0) = nodes st0).
Proof.
  intros Hdrag Hnode. cbv zeta.
  split; [reflexivity|]. split; [reflexivity|]. split; [|reflexivity].
  intros node Hin Hid. cbn [handleMouseUp nodes] in Hin.
  rewrite (handleMouseMove_nodes st _ _ _ _ dragged Hdrag Hnode) in Hin.
  apply in_map_iff in Hin as (n & <- & _).
  destruct (String.eqb (Node.id n) (Node.id dragged)) eqn:E.
  - split; reflexivity.
  - apply String.eqb_neq in E. contradiction.
Qed.

(** A press on the lone sample node followed by a pointer-move to
    (300, 300) in a drawing whose rectangle starts at (0, 0). *)
Lemma pressed_and_moved :
  run 800 600 [] (idle [sample_node "a" 200 200])
      [MouseDown (sample_node "a" 200 200);
       MouseMove (Some (Fin 0, Fin 0)) (Fin 300) (Fin 300)] =
  {| nodes := [with_motion (sample_node "a" 200 200)
                 (Fin (300 - 0)) (Fin (300 - 0)) (Fin 0) (Fin 0)];
     selectedNode := Some (sample_node "a" 200 200);
     isDragging := true;
     dragNode := Some (sample_node "a" 200 200) |}.
Proof. reflexivity. Qed.

(** One tick on the lone sample node at (300, 300) at rest, in the default
    viewport: the pull to the centre (400, 300) moves it to (300.1, 300). *)
Lemma tick_moves_lone_node (node : Node.t) :
  finite_node node ->
  point_of node = Some (300, 300) ->
  velocity node = (0, 0) ->
  simulate 800 600 [] [node] =
  [with_motion node (Fin 300.1) (Fin 300) (Fin 0.1) (Fin 0)].
Proof.
  intros Hf Hp Hv.
  rewrite (simulate_lone_node 800 600 node (300, 300) Hf Hp).
  rewrite Hv, clampX_fin, clampY_fin.
  unfold spec_centering, vadd, vscale, vsub. cbn [fst snd].
  unfold with_motion. f_equal; f_equal; fin_eq.
Qed.

(** The force on a lone node with no edge is the pull to the centre. *)
Lemma lone_node_force (width height : R) (node : Node.t) (p : vec) :
  spec_net_force width height [] 0 node p (simulate_upto width height [] 0 [node])
  = spec_centering width height p.
Proof.
  unfold spec_net_force, others, neighbours, simulate_upto.
  cbn [seq fold_left List.length flat_map other_at Nat.eqb app map vsum fold_right].
  destruct (spec_centering width height p) as [cx cy].
  unfold vadd. cbn [fst snd]. f_equal; ring.
Qed.

Lemma C3_witness :
  let st := run 800 600 [] (idle [sample_node "a" 200 200])
              [MouseDown (sample_node "a" 200 200)] in
  let st' := handleMouseMove (Some (Fin 0, Fin 0)) (Fin 300) (Fin 300) st in
  let st'' := step 800 600 [] st' Tick in
  (exists moved,
      nth_error (nodes st') 0 = Some moved /\
      Node.x moved = Some (Fin (300 - 0)) /\
      Node.y moved = Some (Fin (300 - 0)) /\
      Node.vx moved = Some (Fin 0) /\
      Node.vy moved = Some (Fin 0)) /\
  isDragging st'' = true /\
  exists node',
    nth_error (nodes st'') 0 = Some node' /\
    Node.vx node' = Some (Fin (0.8 * 0 + 0.1 * (0.01 * (800 / 2 - 300)))) /\
    Node.x node' <> Some (Fin 300).
Proof.
  cbv zeta.
  destruct (C3_pointer_move_places_node_and_tick_still_integrates_it
              800 600 []
              (run 800 600 [] (idle [sample_node "a" 200 200])
                   [MouseDown (sample_node "a" 200 200)])
              (Fin 0) (Fin 0) (Fin 300) (Fin 300) (sample_node "a" 200 200)
              eq_refl eq_refl) as (Hmove & Hon & _ & Htick).
  split; [|split; [exact Hon|]].
  - destruct (Hmove 0%nat (sample_node "a" 200 200) eq_refl)
      as (moved & Hk & _ & Hat & _).
    destruct (Hat eq_refl) as (_ & _ & Hvx & Hvy & Hxy).
    destruct (Hxy 300 300 0 0 eq_refl eq_refl eq_refl eq_refl) as (Hx & Hy).
    exists moved. repeat (split; [assumption|]). assumption.
  - destruct (Htick 0%nat
                (with_motion (sample_node "a" 200 200)
                   (Fin (300 - 0)) (Fin (300 - 0)) (Fin 0) (Fin 0))
                (300, 300))
      as (node' & Hk & Hvx & _ & _ & _ & _ & Hoff).
    + repeat constructor.
    + reflexivity.
    + rewrite with_motion_point by lra. apply f_equal. apply f_equal2; lra.
    + exists node'. split; [exact Hk|].
      change (nodes (handleMouseMove (Some (Fin 0, Fin 0)) (Fin 300) (Fin 300)
                (run 800 600 [] (idle [sample_node "a" 200 200])
                   [MouseDown (sample_node "a" 200 200)])))
        with [with_motion (sample_node "a" 200 200)
                (Fin (300 - 0)) (Fin (300 - 0)) (Fin 0) (Fin 0)] in Hvx, Hoff.
      rewrite lone_node_force in Hvx, Hoff.
      split; [exact Hvx|].
      apply Hoff; [reflexivity | cbn [fst]; lra |].
      unfold spec_centering, vscale, vsub. cbn [fst snd]. lra.
Defined.

(** C3, as stated, fails: the tick has no exception for the dragged node.
    After a press on the lone node, a pointer-move to (300, 300) and one
    tick, the drag is still on and the node is at x = 300.1. *)
Lemma C3_counterexample_tick_moves_dragged_node :
  let st := run 800 600 [] (idle [sample_node "a" 200 200])
              [MouseDown (sample_node "a" 200 200);
               MouseMove (Some (Fin 0, Fin 0)) (Fin 300) (Fin 300);
               Tick] in
  isDragging st = true /\
  dragNode st = Some (sample_node "a" 200 200) /\
  exists node',
    nodes st = [node'] /\
    Node.x node' = Some (Fin 300.1) /\
    Node.x node' <> Some (Fin 300).
Proof.
  cbv zeta. unfold run.
  change [MouseDown (sample_node "a" 200 200);
          MouseMove (Some (Fin 0, Fin 0)) (Fin 300) (Fin 300); Tick]
    with ([MouseDown (sample_node "a" 200 200);
           MouseMove (Some (Fin 0, Fin 0)) (Fin 300) (Fin 300)] ++ [Tick]).
  rewrite fold_left_app. fold (run 800 600 [] (idle [sample_node "a" 200 200])
    [MouseDown (sample_node "a" 200 200);
     MouseMove (Some (Fin 0, Fin 0)) (Fin 300) (Fin 300)]).
  rewrite pressed_and_moved. cbn [fold_left step nodes isDragging dragNode selectedNode].
  split; [reflexivity|]. split; [reflexivity|].
  rewrite tick_moves_lone_node.
  - eexists. split; [reflexivity|]. cbn [with_motion Node.x].
    split; [reflexivity|]. intros H. injection H as H. lra.
  - repeat split.
  - rewrite with_motion_point by lra. apply f_equal. apply f_equal2; lra.
  - reflexivity.
Qed.

Lemma C4_witness :
  let st := run 800 600 [] (idle [sample_node "a" 200 200])
              [MouseDown (sample_node "a" 200 200)] in
  let st' := handleMouseUp
               (handleMouseMove (Some (Fin 0, Fin 0)) (Fin 300) (Fin 300) st) in
  isDragging st' = false /\
  dragNode st' = None /\
  exists node',
    nodes st' = [node'] /\
    Node.vx node' = Some (Fin 0) /\ Node.vy node' = Some (Fin 0).
Proof.
  cbv zeta.
  destruct (C4_release_right_after_move_finds_zero_velocity
              (run 800 600 [] (idle [sample_node "a" 200 200])
                   [MouseDown (sample_node "a" 200 200)])
              (Fin 0) (Fin 0) (Fin 300) (Fin 300) (sample_node "a" 200 200)
              eq_refl eq_refl) as (Hoff & Hnone & Hzero & _).
  split; [exact Hoff|]. split; [exact Hnone|].
  eexists. split; [reflexivity|].
  apply Hzero; [left; reflexivity | reflexivity].
Defined.

(** C4, as stated, fails: pointer-up resets nothing.  A press on the lone
    node at rest at (300, 300), one tick while the button is held, then the
    release: the node's velocity at the release is (0.1, 0). *)
Lemma C4_counterexample_release_keeps_velocity :
  let st := run 800 600 [] (idle [sample_node "a" 300 300])
              [MouseDown (sample_node "a" 300 300); Tick; MouseUp] in
  isDragging st = false /\
  dragNode st = None /\
  exists node',
    nodes st = [node'] /\
    Node.vx node' = Some (Fin 0.1) /\
    Node.vx node' <> Some (Fin 0).
Proof.
  cbv zeta. unfold run.
  cbn [fold_left step handleMouseDown handleMouseUp idle
       nodes isDragging dragNode selectedNode].
  split; [reflexivity|]. split; [reflexivity|].
  rewrite tick_moves_lone_node.
  - eexists. split; [reflexivity|]. cbn [with_motion Node.vx].
    split; [reflexivity|]. intros H. injection H as H. lra.
  - apply sample_node_finite.
  - apply sample_node_point; lra.
  - reflexivity.
Qed.

(** ** The initial layout holds finite numbers *)

Lemma initializedNodes_finite (width height : R) (random : nat -> R)
    (ns : list Node.t) :
  Forall finite_node (initializedNodes width height random ns).
Proof.
  apply Forall_forall. intros node' Hin.
  apply In_nth_error in Hin as [i Hi].
  destruct (nth_error ns i) as [node|] eqn:E.
  - rewrite (initializedNodes_nth width height random ns i node E) in Hi.
    injection Hi as <-. apply with_motion_finite.
  - unfold initializedNodes, mapi in Hi. rewrite mapi_from_nth, E in Hi.
    discriminate.
Qed.

(** ** What no event changes *)

Lemma static_with_motion (node : Node.t) (a b c d : number) :
  static (with_motion node a b c d) = static node.
Proof. reflexivity. Qed.

Lemma map_static_set_nth (i : nat) (node node' : Node.t) (ns : list Node.t) :
  nth_error ns i = Some node -> static node' = static node ->
  map static (set_nth i node' ns) = map static ns.
Proof.
  revert i. induction ns as [| n ns IH]; intros [| i] Hi Hs; cbn in *;
    try discriminate.
  - injection Hi as ->. now rewrite Hs.
  - f_equal. now apply IH.
Qed.

Lemma simulate_node_static (width height : R) (edges : list Edge.t)
    (ns : list Node.t) (i : nat) :
  map static (simulate_node width height edges ns i) = map static ns.
Proof.
  unfold simulate_node.
  destruct (nth_error ns i) as [node|] eqn:Ei; [|reflexivity].
  destruct (position node) as [[nx ny]|]; [|reflexivity].
  now apply map_static_set_nth with (node := node).
Qed.

Lemma simulate_static (width height : R) (edges : list Edge.t) (ns : list Node.t) :
  map static (simulate width height edges ns) = map static ns.
Proof.
  unfold simulate, simulate_upto. generalize (seq 0 (List.length ns)) as js.
  intros js. revert ns. induction js as [| j js IH]; intros ns; cbn [fold_left].
  - reflexivity.
  - rewrite IH. apply simulate_node_static.
Qed.

Lemma step_static (width height : R) (edges : list Edge.t) (st : State) (ev : Event) :
  map static (nodes (step width height edges st ev)) = map static (nodes st).
Proof.
  destruct ev as [| node | rect clientX clientY |]; cbn [step].
  - apply simulate_static.
  - reflexivity.
  - unfold handleMouseMove.
    destruct (isDragging st); [|reflexivity]. cbn [negb].
    destruct (dragNode st) as [dragged|]; [|reflexivity].
    destruct rect as [[rleft rtop]|]; [|reflexivity].
    cbn [nodes]. rewrite map_map. apply map_ext.
    intros node. now destruct (String.eqb _ _).
  - reflexivity.
Qed.

Lemma run_static (width height : R) (edges : list Edge.t)
    (st : State) (evs : list Event) :
  map static (nodes (run width height edges st evs)) = map static (nodes st).
Proof.
  unfold run. revert st. induction evs as [| ev evs IH]; intros st.
  - reflexivity.
  - cbn [fold_left]. rewrite IH. apply step_static.
Qed.

Lemma static_ids (ns ns' : list Node.t) :
  map static ns' = map static ns -> map Node.id ns' = map Node.id ns.
Proof.
  intros H. apply (f_equal (map (fun t => fst (fst (fst (fst t)))))) in H.
  now rewrite !map_map in H.
Qed.

(** Whatever events arrive, the nodes keep their number, their order and
    their identifier, label, type, description and size: position and
    velocity are the only fields the component ever writes. *)
Theorem run_keeps_static_fields (width height : R) (edges : list Edge.t)
    (st : State) (evs : list Event) :
  map static (nodes (run width height edges st evs)) = map static (nodes st) /\
  map Node.id (nodes (run width height edges st evs)) = map Node.id (nodes st) /\
  List.length (nodes (run width height edges st evs)) = List.length (nodes st).
Proof.
  pose proof (run_static width height edges st evs) as H.
  split; [exact H|]. split.
  - now apply static_ids.
  - apply (f_equal (@List.length _)) in H. now rewrite !length_map in H.
Qed.

(** ** The drag state *)

Lemma run_snoc (width height : R) (edges : list Edge.t) (st : State)
    (evs : list Event) (ev : Event) :
  run width height edges st (evs ++ [ev]) =
  step width height edges (run width height edges st evs) ev.
Proof. unfold run. now rewrite fold_left_app. Qed.

(** From mounting on, a drag is in progress exactly when a dragged node is
    recorded, and the dragged node is then the selected one. *)
Theorem drag_state_is_consistent (width height : R) (random : nat -> R)
    (data : GraphData) (evs : list Event) :
  let st := run width height (data_edges data) (mount width height random data) evs in
  (isDragging st = true <-> dragNode st <> None) /\
  (forall dragged, dragNode st = Some dragged -> selectedNode st = Some dragged).
Proof.
  cbv zeta. induction evs as [| ev evs IH] using rev_ind.
  - cbn. split; [split; [discriminate | intros H; now contradiction H]|].
    discriminate.
  - rewrite run_snoc.
    set (st := run width height (data_edges data)
                 (mount width height random data) evs) in *.
    destruct IH as [Hiff Hsel].
    destruct ev as [| node | rect clientX clientY |]; cbn [step].
    + cbn [isDragging dragNode selectedNode]. now split.
    + cbn. split; [split; [discriminate | reflexivity]|].
      now intros dragged [= ->].
    + destruct (handleMouseMove_keeps_drag rect clientX clientY st)
        as (-> & -> & ->). now split.
    + cbn. split; [split; [discriminate | intros H; now contradiction H]|].
      discriminate.
Qed.


(** Events handled under unchanged props are a run of the state machine. *)
Lemma session_handled (c : Component) (evs : list Event) :
  session c (map Handled evs) =
  {| props := props c;
     state := run (props_width (props c)) (props_height (props c))
                  (data_edges (props_data (props c))) (state c) evs |}.
Proof.
  unfold session, run. revert c.
  induction evs as [| ev evs IH]; intros c; cbn [map fold_left].
  - now destruct c.
  - rewrite IH. reflexivity.
Qed.






(** ** Which nodes are drawn *)

(** In any viewport the clamp returns a finite number of at least 50. *)
Lemma clampX_at_least_50 (width : R) (v : number) :
  exists c, clampX width v = Fin c /\ 50 <= c.
Proof.
  destruct v as [a | | |].
  - rewrite clampX_fin. eexists; split; [reflexivity|]. apply Rmax_l.
  - exists (Rmax 50 (width - 50)). split; [|apply Rmax_l].
    unfold clampX. cbn [or_zero truthy Js.sub Js.neg Js.add Js.min Js.lt].
    now rewrite max_fin.
  - exists 50. split; [reflexivity | lra].
  - exists (Rmax 50 (Rmin (width - 50) 0)). split; [|apply Rmax_l].
    unfold clampX. cbn [or_zero truthy Js.sub Js.neg Js.add]. unfold zero.
    now rewrite min_fin, max_fin.
Qed.

Lemma clampY_at_least_50 (height : R) (v : number) :
  exists c, clampY height v = Fin c /\ 50 <= c.
Proof. apply clampX_at_least_50. Qed.

Lemma integrate_positioned (width height : R) (node : Node.t)
    (nx ny : number) (f : force) :
  position (integrate width height node nx ny f) <> None.
Proof.
  unfold integrate. cbv zeta.
  match goal with
  | |- context [clampX width ?v] =>
      destruct (clampX_at_least_50 width v) as (cx & -> & Hx)
  end.
  match goal with
  | |- context [clampY height ?v] =>
      destruct (clampY_at_least_50 height v) as (cy & -> & Hy)
  end.
  unfold position. cbn [with_motion Node.x Node.y].
  rewrite !truthy_fin by lra. discriminate.
Qed.

Lemma renderNode_drawn (sel : option Node.t) (node : Node.t) :
  renderNode sel node = None <-> position node = None.
Proof.
  unfold renderNode. destruct (position node) as [[nx ny]|]; split;
    intros H; try discriminate; reflexivity.
Qed.

(** The node a tick leaves at an index has a position exactly when the
    node found there had one. *)
Lemma simulate_position_iff (width height : R) (edges : list Edge.t)
    (ns : list Node.t) (i : nat) (node : Node.t) :
  nth_error ns i = Some node ->
  exists node',
    nth_error (simulate width height edges ns) i = Some node' /\
    static node' = static node /\
    (position node' = None <-> position node = None).
Proof.
  intros Hi. destruct (position node) as [[nx ny]|] eqn:Hpos.
  - eexists. split; [eapply simulate_processed; eassumption|].
    split; [reflexivity|].
    pose proof (integrate_positioned width height node nx ny
                  (net_force width height edges i node nx ny
                     (simulate_upto width height edges i ns))) as Hp.
    split; [contradiction | discriminate].
  - exists node. split; [now apply simulate_skipped|].
    split; [reflexivity|]. now rewrite Hpos.
Qed.

(** A tick neither hides nor reveals a node: in any viewport, the node it
    leaves at an index has a position exactly when the node it found there
    had one, keeps its descriptive fields, and is drawn exactly when the
    former was. *)
Theorem tick_neither_hides_nor_reveals
    (width height : R) (edges : list Edge.t)
    (ns : list Node.t) (i : nat) (node : Node.t) :
  nth_error ns i = Some node ->
  exists node',
    nth_error (simulate width height edges ns) i = Some node' /\
    static node' = static node /\
    (position node' = None <-> position node = None) /\
    (forall sel, renderNode sel node' = None <-> renderNode sel node = None).
Proof.
  intros Hi.
  destruct (simulate_position_iff width height edges ns i node Hi)
    as (node' & Hn' & Hs & Hiff).
  exists node'. split; [exact Hn'|]. split; [exact Hs|]. split; [exact Hiff|].
  intros sel. now rewrite !renderNode_drawn.
Qed.

Lemma tick_neither_hides_nor_reveals_witness :
  exists node',
    nth_error (simulate 800 600 [sample_edge "a" "b"] sample_pair) 1 = Some node' /\
    static node' = static (sample_node "b" 500 300) /\
    (position node' = None <-> position (sample_node "b" 500 300) = None) /\
    (forall sel, renderNode sel node' = None
                 <-> renderNode sel (sample_node "b" 500 300) = None).
Proof.
  apply (tick_neither_hides_nor_reveals 800 600 [sample_edge "a" "b"]
           sample_pair 1 (sample_node "b" 500 300)).
  reflexivity.
Defined.

Lemma find_node_some (key : string) (ns : list Node.t) :
  In key (map Node.id ns) ->
  exists found, find_node key ns = Some found /\ In found ns.
Proof.
  unfold find_node. induction ns as [| n ns IH]; intros Hin; [contradiction|].
  cbn [find]. destruct (String.eqb (Node.id n) key) eqn:E.
  - exists n. split; [reflexivity | now left].
  - destruct Hin as [Hin | Hin].
    + apply String.eqb_neq in E. contradiction.
    + destruct (IH Hin) as (found & Hf & Hi). exists found. split; [exact Hf | now right].
Qed.

Lemma initializedNodes_static (width height : R) (random : nat -> R)
    (ns : list Node.t) :
  map static (initializedNodes width height random ns) = map static ns.
Proof.
  unfold initializedNodes, mapi. generalize 0%nat as k.
  generalize (List.length ns) as len.
  induction ns as [| n ns IH]; intros len k; cbn; [reflexivity|].
  f_equal. apply IH.
Qed.

(** In a viewport of at least 400/3 px each way the initial layout puts
    every node strictly inside the viewport, away from the zero
    coordinates. *)
Lemma initializedNodes_positioned (width height : R) (random : nat -> R)
    (ns : list Node.t) :
  400 / 3 <= width -> 400 / 3 <= height ->
  (forall k, 0 <= random k < 1) ->
  Forall (fun node => position node <> None)
         (initializedNodes width height random ns).
Proof.
  intros Hw Hh Hrandom. apply Forall_forall. intros node' Hin.
  apply In_nth_error in Hin as [i Hi].
  destruct (nth_error ns i) as [node|] eqn:E.
  2:{ unfold initializedNodes, mapi in Hi. rewrite mapi_from_nth, E in Hi.
      discriminate. }
  rewrite (initializedNodes_nth width height random ns i node E) in Hi.
  injection Hi as <-.
  set (theta := INR i / INR (List.length ns) * 2 * PI).
  set (r := Rmin width height * 0.35 + (random i - 0.5) * 40).
  pose proof (Hrandom i) as Hr.
  pose proof (Rmin_l width height) as Hl.
  pose proof (Rmin_r width height) as Hrr.
  assert (Hmin : 400 / 3 <= Rmin width height)
    by (unfold Rmin; destruct (Rle_dec width height); lra).
  assert (H0 : 0 <= r) by (unfold r; lra).
  assert (Hhalf : r < Rmin width height / 2) by (unfold r; lra).
  pose proof (scaled_unit_bound _ r (COS_bound theta) H0) as Hcos.
  pose proof (scaled_unit_bound _ r (SIN_bound theta) H0) as Hsin.
  unfold position. cbn [with_motion Node.x Node.y].
  rewrite !truthy_fin by lra. discriminate.
Qed.

(** ** A node without a position stays out of reach *)

Lemma NoDup_map_injective {A B : Type} (f : A -> B) (l : list A) (a b : A) :
  NoDup (map f l) -> In a l -> In b l -> f a = f b -> a = b.
Proof.
  induction l as [| c l IH]; intros Hnd Ha Hb Hab; [contradiction|].
  cbn in Hnd. inversion Hnd as [| ? ? Hfresh Hrest]; subst.
  destruct Ha as [-> | Ha], Hb as [-> | Hb].
  - reflexivity.
  - exfalso. apply Hfresh. rewrite Hab. now apply in_map.
  - exfalso. apply Hfresh. rewrite <- Hab. now apply in_map.
  - now apply IH.
Qed.

(** One event, arriving while no drag holds the unplaced node [z], leaves
    [z] at its index and starts no drag on it. *)
Lemma step_keeps_unplaced (width height : R) (edges : list Edge.t)
    (st : State) (ev : Event) (k : nat) (z : Node.t) :
  NoDup (map Node.id (nodes st)) ->
  nth_error (nodes st) k = Some z ->
  position z = None ->
  (forall dragged, dragNode st = Some dragged -> Node.id dragged <> Node.id z) ->
  match ev with
  | MouseDown node => In node (nodes st) /\ position node <> None
  | _ => True
  end ->
  let st' := step width height edges st ev in
  nth_error (nodes st') k = Some z /\
  (forall dragged, dragNode st' = Some dragged -> Node.id dragged <> Node.id z).
Proof.
  intros Hnd Hk Hpos Hdrag Hev. cbv zeta.
  destruct ev as [| node | rect clientX clientY |]; cbn [step].
  - split; [now apply simulate_skipped | exact Hdrag].
  - cbn [handleMouseDown nodes dragNode]. split; [exact Hk|].
    intros dragged [= <-] Hid. destruct Hev as [Hin Hp].
    apply Hp. replace node with z; [exact Hpos|].
    symmetry. apply (NoDup_map_injective Node.id (nodes st)); auto.
    now apply nth_error_In with k.
  - destruct (handleMouseMove_keeps_drag rect clientX clientY st)
      as (_ & Hd & _). rewrite Hd. split; [|exact Hdrag].
    unfold handleMouseMove.
    destruct (isDragging st); [|exact Hk]. cbn [negb].
    destruct (dragNode st) as [dragged|] eqn:D; [|exact Hk].
    destruct rect as [[rleft rtop]|]; [|exact Hk].
    cbn [nodes]. rewrite nth_error_map, Hk. cbn [option_map].
    destruct (String.eqb (Node.id z) (Node.id dragged)) eqn:E; [|reflexivity].
    apply String.eqb_eq in E. exfalso. now apply (Hdrag dragged).
  - cbn [handleMouseUp nodes dragNode]. split; [exact Hk | discriminate].
Qed.

(** The points of the plane are drawn where they are. *)
Lemma renderNode_at (sel : option Node.t) (node : Node.t) (p : vec) :
  point_of node = Some p ->
  exists view,
    renderNode sel node = Some view /\
    cx view = Fin (fst p) /\ cy view = Fin (snd p).
Proof.
  intros Hp. unfold renderNode. rewrite (point_of_position _ _ Hp).
  eexists. split; [reflexivity|]. split; reflexivity.
Qed.

Lemma point_of_positioned (node : Node.t) :
  finite_node node -> position node <> None -> point_of node <> None.
Proof.
  intros Hf Hp. destruct (position node) as [[nx ny]|] eqn:E; [|contradiction].
  destruct (finite_position node nx ny Hf E) as (a & b & _ & _ & ->).
  discriminate.
Qed.

(** In a viewport of at least 400/3 px each way the initial layout puts
    every node at a point of the plane. *)
Lemma initializedNodes_placed (width height : R) (random : nat -> R)
    (ns : list Node.t) :
  400 / 3 <= width -> 400 / 3 <= height ->
  (forall k, 0 <= random k < 1) ->
  Forall (fun node => point_of node <> None)
         (initializedNodes width height random ns).
Proof.
  intros Hw Hh Hrandom. apply Forall_forall. intros node Hin.
  pose proof (initializedNodes_finite width height random ns) as Hf.
  pose proof (initializedNodes_positioned width height random ns Hw Hh Hrandom)
    as Hp.
  rewrite Forall_forall in Hf, Hp. apply point_of_positioned; auto.
Qed.

(** A node left without a position (an [x] or [y] that is undefined, NaN or
    exactly 0, as after a drag to pointer coordinate 0) while no drag holds
    it is out of reach for as long as the props stay the same: identifiers
    being unique and presses landing on drawn circles only, no tick and no
    pointer event moves it or draws it again.  What brings the graph back
    is the effect running again on changed props: in a viewport of at
    least 400/3 px each way it places every node of the new payload, and
    all of them are drawn. *)
Theorem unplaced_node_is_recovered_only_by_new_props
    (c : Component) (evs : list Event) (k : nat) (z : Node.t) :
  NoDup (map Node.id (nodes (state c))) ->
  nth_error (nodes (state c)) k = Some z ->
  position z = None ->
  (forall dragged,
      dragNode (state c) = Some dragged -> Node.id dragged <> Node.id z) ->
  presses_rendered (props_width (props c)) (props_height (props c))
                   (data_edges (props_data (props c))) (state c) evs ->
  let c' := session c (map Handled evs) in
  nth_error (nodes (state c')) k = Some z /\
  renderNode (selectedNode (state c')) z = None /\
  forall random next,
    400 / 3 <= props_width next -> 400 / 3 <= props_height next ->
    (forall i, 0 <= random i < 1) ->
    let c'' := react c' (PropsChanged random next) in
    map static (nodes (state c'')) = map static (data_nodes (props_data next)) /\
    forall node,
      In node (nodes (state c'')) ->
      exists p view,
        point_of node = Some p /\
        renderNode (selectedNode (state c'')) node = Some view /\
        cx view = Fin (fst p) /\ cy view = Fin (snd p).
Proof.
  intros Hnd Hk Hpos Hdrag Hevs. cbv zeta.
  rewrite session_handled. cbn [state props].
  split; [|split; [now apply renderNode_skips|]].
  - set (width := props_width (props c)) in *.
    set (height := props_height (props c)) in *.
    set (edges := data_edges (props_data (props c))) in *.
    unfold run. generalize dependent (state c).
    induction evs as [| ev evs IH]; intros st Hnd Hk Hdrag Hevs; [exact Hk|].
    cbn [fold_left]. destruct Hevs as [Hev Hrest].
    destruct (step_keeps_unplaced width height edges st ev k z
                Hnd Hk Hpos Hdrag Hev) as [Hk' Hdrag'].
    apply IH; try assumption.
    rewrite (static_ids _ _ (step_static width height edges st ev)). exact Hnd.
  - intros random next Hw Hh Hrandom. cbn [react state runEffect nodes selectedNode].
    split; [apply initializedNodes_static|].
    intros node Hin.
    pose proof (initializedNodes_placed _ _ random (data_nodes (props_data next))
                  Hw Hh Hrandom) as Hall.
    rewrite Forall_forall in Hall.
    destruct (point_of node) as [p|] eqn:Hp; [|now apply Hall in Hin].
    destruct (renderNode_at
                (selectedNode
                   (run (props_width (props c)) (props_height (props c))
                        (data_edges (props_data (props c))) (state c) evs))
                node p Hp) as (view & Hv & Hx & Hy).
    exists p, view. repeat split; assumption.
Qed.

Lemma unplaced_node_is_recovered_only_by_new_props_witness :
  let z := sample_node "z" 0 300 in
  let shown := {| props_data := {| data_nodes := [unplaced_node "a"; unplaced_node "z"];
                                   data_edges := [sample_edge "a" "z"] |};
                  props_width := 800; props_height := 600 |} in
  let c := {| props := shown; state := idle [sample_node "a" 300 300; z] |} in
  let c' := session c
              (map Handled
                 [MouseDown (sample_node "a" 300 300);
                  MouseMove (Some (Fin 0, Fin 0)) (Fin 200) (Fin 200);
                  MouseUp; Tick]) in
  let c'' := react c' (PropsChanged sample_random shown) in
  nth_error (nodes (state c')) 1 = Some z /\
  renderNode (selectedNode (state c')) z = None /\
  forall node,
    In node (nodes (state c'')) ->
    exists p view,
      point_of node = Some p /\
      renderNode (selectedNode (state c'')) node = Some view /\
      cx view = Fin (fst p) /\ cy view = Fin (snd p).
Proof.
  cbv zeta.
  destruct (unplaced_node_is_recovered_only_by_new_props
              {| props := {| props_data :=
                               {| data_nodes := [unplaced_node "a"; unplaced_node "z"];
                                  data_edges := [sample_edge "a" "z"] |};
                             props_width := 800; props_height := 600 |};
                 state := idle [sample_node "a" 300 300; sample_node "z" 0 300] |}
              [MouseDown (sample_node "a" 300 300);
               MouseMove (Some (Fin 0, Fin 0)) (Fin 200) (Fin 200);
               MouseUp; Tick]
              1 (sample_node "z" 0 300)) as (Hkept & Hhidden & Hback).
  - apply NoDup_cons; [cbn; intros [H | H]; [discriminate H | exact H]|].
    apply NoDup_cons; [cbn; intros H; exact H | apply NoDup_nil].
  - reflexivity.
  - apply position_zero. left. reflexivity.
  - discriminate.
  - cbn [presses_rendered]. split; [|repeat split].
    split; [left; reflexivity|].
    rewrite sample_node_position by lra. discriminate.
  - split; [exact Hkept|]. split; [exact Hhidden|].
    apply Hback; cbn [props_width props_height]; try lra.
    intros i. unfold sample_random. lra.
Defined.

(** ** The drawing of an edge, in real coordinates *)

Ltac fin_arith :=
  repeat first
    [ rewrite add_fin | rewrite sub_fin | rewrite mul_fin
    | rewrite div_fin by lra ].

Lemma edge_view_eq (a1 a2 a3 a4 b1 b2 b3 b4 : number) (w : R) (dash : string)
    (l l' : option LabelView) (arr arr' : list (number * number)) :
  a1 = b1 -> a2 = b2 -> a3 = b3 -> a4 = b4 -> l = l' -> arr = arr' ->
  {| x1 := a1; y1 := a2; x2 := a3; y2 := a4; strokeWidth := w;
     strokeDasharray := dash; edge_label := l; arrow := arr |} =
  {| x1 := b1; y1 := b2; x2 := b3; y2 := b4; strokeWidth := w;
     strokeDasharray := dash; edge_label := l'; arrow := arr' |}.
Proof. now intros -> -> -> -> -> ->. Qed.

Lemma label_view_eq (a1 a2 a3 a4 a5 b1 b2 b3 b4 b5 : R) (t : string) :
  a1 = b1 -> a2 = b2 -> a3 = b3 -> a4 = b4 -> a5 = b5 ->
  {| rect_x := Fin a1; rect_y := Fin a2; rect_width := Fin a3;
     text_x := Fin a4; text_y := Fin a5; text := t |} =
  {| rect_x := Fin b1; rect_y := Fin b2; rect_width := Fin b3;
     text_x := Fin b4; text_y := Fin b5; text := t |}.
Proof. now intros -> -> -> -> ->. Qed.

Lemma fin_pair_eq (a b c d : R) : a = c -> b = d -> (Fin a, Fin b) = (Fin c, Fin d).
Proof. now intros -> ->. Qed.

(** The whole [<g>] of an edge between two distinct points [p] and [q]. *)
Lemma renderEdge_between (ns : list Node.t) (edge : Edge.t)
    (fromNode toNode : Node.t) (p q : vec) :
  find_node (Edge.from edge) ns = Some fromNode ->
  find_node (Edge.to edge) ns = Some toNode ->
  point_of fromNode = Some p ->
  point_of toNode = Some q ->
  p <> q ->
  let d := dist p q in
  let u := toward p q in
  let start := vadd p (vscale (getNodeSize fromNode) u) in
  let finish := vsub q (vscale (getNodeSize toNode) u) in
  let back := vsub finish (vscale 8 u) in
  renderEdge ns edge =
  Some {| x1 := Fin (fst start); y1 := Fin (snd start);
          x2 := Fin (fst finish); y2 := Fin (snd finish);
          strokeWidth := if String.eqb (Edge.type edge) "primary" then 3 else 2;
          strokeDasharray :=
            if String.eqb (Edge.type edge) "cross_link" then "5,5" else "none";
          edge_label :=
            match Edge.label edge with
            | None => None
            | Some lbl =>
                if negb (String.eqb lbl "") && (if Rlt_dec 80 d then true else false)
                then Some (label_at start finish lbl)
                else None
            end;
          arrow := [fin_point finish;
                    fin_point (vadd back (vscale 3 (perp u)));
                    fin_point (vsub back (vscale 3 (perp u)))] |}.
Proof.
  intros Hfrom Hto Hp Hq Hne. cbv zeta.
  pose proof (dist_pos p q Hne) as Hd.
  unfold renderEdge.
  rewrite Hfrom, Hto, (point_of_position _ _ Hp), (point_of_position _ _ Hq).
  cbv zeta. rewrite !sub_fin, !mul_fin, !add_fin, sqrt_fin by apply sum_sq_nonneg.
  assert (Hdist : R_sqrt.sqrt ((fst q - fst p) * (fst q - fst p)
                               + (snd q - snd p) * (snd q - snd p)) = dist p q).
  { unfold dist, vnorm, vsub. cbn [fst snd]. f_equal. ring. }
  rewrite Hdist. unfold Js.gt, Js.lt.
  destruct (Edge.label edge) as [lbl|]; fin_arith;
    unfold label_at, fin_point, perp, toward, vadd, vsub, vscale; cbn [fst snd];
    apply f_equal; apply edge_view_eq;
    try (apply (f_equal Fin); field; lra).
  - destruct (negb (String.eqb lbl "") && _); [|reflexivity].
    apply f_equal. apply label_view_eq; field; lra.
  - repeat (apply f_equal2; [apply fin_pair_eq; field; lra|]). reflexivity.
  - reflexivity.
  - repeat (apply f_equal2; [apply fin_pair_eq; field; lra|]). reflexivity.
Qed.

Lemma toward_unit_sq (p q : vec) :
  0 < dist p q ->
  fst (toward p q) * fst (toward p q) + snd (toward p q) * snd (toward p q) = 1.
Proof.
  intros Hd. unfold toward, vscale, vsub. cbn [fst snd].
  pose proof (dist_square p q) as Hs. set (d := dist p q) in *.
  replace (/ d * (fst q - fst p) * (/ d * (fst q - fst p))
           + / d * (snd q - snd p) * (/ d * (snd q - snd p)))
    with (/ d * / d * (d * d)) by (rewrite Hs; ring).
  field. lra.
Qed.

Lemma toward_spans (p q : vec) :
  0 < dist p q -> vsub q p = vscale (dist p q) (toward p q).
Proof.
  intros Hd. unfold toward, vscale, vsub. cbn [fst snd].
  apply injective_projections; cbn [fst snd]; field; lra.
Qed.

Lemma getNodeSize_range (node : Node.t) : 22 <= getNodeSize node <= 35.
Proof.
  unfold getNodeSize.
  destruct (String.eqb _ "large"); [lra|].
  destruct (String.eqb _ "medium"); [lra|].
  destruct (String.eqb _ "small"); lra.
Qed.

(** Going from [p + rf * u] to [q - rt * u] along the unit vector [u]
    from [p] to [q]. *)
Lemma segment_vector (p q : vec) (rf rt : R) :
  0 < dist p q ->
  let u := toward p q in
  vsub (vsub q (vscale rt u)) (vadd p (vscale rf u))
  = vscale (dist p q - (rf + rt)) u.
Proof.
  intros Hd. cbv zeta.
  pose proof (f_equal fst (toward_spans p q Hd)) as Hx.
  pose proof (f_equal snd (toward_spans p q Hd)) as Hy.
  cbn [fst snd vsub vscale] in Hx, Hy.
  set (u := toward p q) in *. set (d := dist p q) in *.
  unfold vsub, vadd, vscale. cbn [fst snd].
  apply injective_projections; cbn [fst snd].
  - transitivity ((fst q - fst p) - (rf + rt) * fst u); [ring | rewrite Hx; ring].
  - transitivity ((snd q - snd p) - (rf + rt) * snd u); [ring | rewrite Hy; ring].
Qed.

Lemma segment_dist (p q : vec) (rf rt : R) :
  0 < dist p q ->
  let u := toward p q in
  dist (vadd p (vscale rf u)) (vsub q (vscale rt u))
  = Rabs (dist p q - (rf + rt)).
Proof.
  intros Hd. cbv zeta. rewrite dist_sym. unfold dist at 1.
  rewrite (segment_vector p q rf rt Hd), vnorm_scale, toward_unit by exact Hd.
  ring.
Qed.

(** The segment drawn for an edge between two distinct points [d] apart
    has signed length [d - (r_from + r_to)] along the direction of the
    edge, where the two radii add up to between 44 and 70 px: it runs
    forward when the circles are apart, shrinks to a point when they touch,
    and runs backward when they overlap. *)
Theorem edge_segment_has_signed_length
    (ns : list Node.t) (edge : Edge.t) (fromNode toNode : Node.t) (p q : vec) :
  find_node (Edge.from edge) ns = Some fromNode ->
  find_node (Edge.to edge) ns = Some toNode ->
  point_of fromNode = Some p ->
  point_of toNode = Some q ->
  p <> q ->
  let gap := dist p q - (getNodeSize fromNode + getNodeSize toNode) in
  exists view start finish,
    renderEdge ns edge = Some view /\
    (x1 view, y1 view) = fin_point start /\
    (x2 view, y2 view) = fin_point finish /\
    vsub finish start = vscale gap (toward p q) /\
    dist start finish = Rabs gap /\
    44 <= getNodeSize fromNode + getNodeSize toNode <= 70.
Proof.
  intros Hfrom Hto Hp Hq Hne. cbv zeta.
  pose proof (dist_pos p q Hne) as Hd.
  pose proof (renderEdge_between ns edge fromNode toNode p q Hfrom Hto Hp Hq Hne)
    as Hview. cbv zeta in Hview.
  eexists. eexists. eexists. split; [exact Hview|].
  cbn [x1 y1 x2 y2]. split; [reflexivity|]. split; [reflexivity|].
  pose proof (getNodeSize_range fromNode) as Hrf.
  pose proof (getNodeSize_range toNode) as Hrt.
  split; [now apply segment_vector|].
  split; [now apply segment_dist | lra].
Qed.

Lemma edge_segment_has_signed_length_witness :
  let gap := dist (300, 300) (500, 300)
             - (getNodeSize (sample_node "a" 300 300)
                + getNodeSize (sample_node "b" 500 300)) in
  exists view start finish,
    renderEdge sample_pair (sample_edge "a" "b") = Some view /\
    (x1 view, y1 view) = fin_point start /\
    (x2 view, y2 view) = fin_point finish /\
    vsub finish start = vscale gap (toward (300, 300) (500, 300)) /\
    dist start finish = Rabs gap /\
    44 <= getNodeSize (sample_node "a" 300 300)
          + getNodeSize (sample_node "b" 500 300) <= 70.
Proof.
  apply (edge_segment_has_signed_length sample_pair (sample_edge "a" "b")
           (sample_node "a" 300 300) (sample_node "b" 500 300)).
  - reflexivity.
  - reflexivity.
  - apply sample_node_point; lra.
  - apply sample_node_point; lra.
  - intros H. injection H as H. lra.
Defined.

(** The arrowhead is an isosceles triangle whose tip is the end of the
    drawn segment: its two base corners lie 8 px behind the tip along the
    edge and 3 px to either side of it, so each is [sqrt 73] px from the
    tip, they are 6 px apart, and their midpoint is on the edge. *)
Theorem arrowhead_is_isosceles_at_segment_end
    (ns : list Node.t) (edge : Edge.t) (fromNode toNode : Node.t) (p q : vec) :
  find_node (Edge.from edge) ns = Some fromNode ->
  find_node (Edge.to edge) ns = Some toNode ->
  point_of fromNode = Some p ->
  point_of toNode = Some q ->
  p <> q ->
  let u := toward p q in
  exists view tip left_corner right_corner,
    renderEdge ns edge = Some view /\
    arrow view = [fin_point tip; fin_point left_corner; fin_point right_corner] /\
    (x2 view, y2 view) = fin_point tip /\
    dist tip left_corner = R_sqrt.sqrt 73 /\
    dist tip right_corner = R_sqrt.sqrt 73 /\
    dist left_corner right_corner = 6 /\
    vscale (1 / 2) (vadd left_corner right_corner) = vsub tip (vscale 8 u).
Proof.
  intros Hfrom Hto Hp Hq Hne. cbv zeta.
  pose proof (dist_pos p q Hne) as Hd.
  pose proof (renderEdge_between ns edge fromNode toNode p q Hfrom Hto Hp Hq Hne)
    as Hview. cbv zeta in Hview.
  pose proof (toward_unit_sq p q Hd) as Hu.
  do 4 eexists. split; [exact Hview|]. cbn [arrow x2 y2].
  split; [reflexivity|]. split; [reflexivity|].
  set (u := toward p q) in *. set (rt := getNodeSize toNode).
  unfold dist, vnorm, vsub, vadd, vscale, perp. cbn [fst snd].
  repeat split.
  - f_equal. transitivity (73 * (fst u * fst u + snd u * snd u)); [ring|].
    rewrite Hu. ring.
  - f_equal. transitivity (73 * (fst u * fst u + snd u * snd u)); [ring|].
    rewrite Hu. ring.
  - transitivity (R_sqrt.sqrt (6 * 6)); [|apply sqrt_square; lra].
    f_equal. transitivity (36 * (fst u * fst u + snd u * snd u)); [ring|].
    rewrite Hu. ring.
  - apply injective_projections; cbn [fst snd]; field.
Qed.

Lemma arrowhead_is_isosceles_at_segment_end_witness :
  let u := toward (300, 300) (500, 300) in
  exists view tip left_corner right_corner,
    renderEdge sample_pair (sample_edge "a" "b") = Some view /\
    arrow view = [fin_point tip; fin_point left_corner; fin_point right_corner] /\
    (x2 view, y2 view) = fin_point tip /\
    dist tip left_corner = R_sqrt.sqrt 73 /\
    dist tip right_corner = R_sqrt.sqrt 73 /\
    dist left_corner right_corner = 6 /\
    vscale (1 / 2) (vadd left_corner right_corner) = vsub tip (vscale 8 u).
Proof.
  apply (arrowhead_is_isosceles_at_segment_end sample_pair (sample_edge "a" "b")
           (sample_node "a" 300 300) (sample_node "b" 500 300)).
  - reflexivity.
  - reflexivity.
  - apply sample_node_point; lra.
  - apply sample_node_point; lra.
  - intros H. injection H as H. lra.
Defined.

(** ** Labels *)

Lemma length_append (s1 s2 : string) :
  String.length (s1 ++ s2) = (String.length s1 + String.length s2)%nat.
Proof. induction s1 as [| c s1 IH]; cbn; [reflexivity | now rewrite IH]. Qed.

Lemma length_substring_0 (n : nat) (s : string) :
  String.length (String.substring 0 n s) = Nat.min n (String.length s).
Proof.
  revert n. induction s as [| c s IH]; intros [| n]; cbn; try reflexivity.
  now rewrite IH.
Qed.

Lemma substring_0_prefix (n : nat) (s : string) :
  String.prefix (String.substring 0 n s) s = true.
Proof.
  revert n. induction s as [| c s IH]; intros [| n]; cbn; try reflexivity.
  destruct (Ascii.ascii_dec c c); [apply IH | contradiction].
Qed.

Lemma prefix_append (s1 s2 : string) : String.prefix s1 (s1 ++ s2) = true.
Proof.
  induction s1 as [| c s1 IH]; cbn; [now destruct s2|].
  destruct (Ascii.ascii_dec c c); [exact IH | contradiction].
Qed.

(** [truncate] with a budget of [limit] characters, keeping [keep] of
    them: a string within the budget is returned as it is, a longer one
    becomes its first [keep] characters followed by three dots. *)
Lemma truncate_spec (limit keep : nat) (s : string) :
  (keep <= limit)%nat ->
  ((String.length s <= limit)%nat -> truncate limit keep s = s) /\
  ((limit < String.length s)%nat ->
   truncate limit keep s = (String.substring 0 keep s ++ "...")%string /\
   String.length (truncate limit keep s) = (keep + 3)%nat) /\
  (String.length (truncate limit keep s) <= Nat.max limit (keep + 3))%nat /\
  String.prefix (String.substring 0 keep s) (truncate limit keep s) = true.
Proof.
  intros Hk. unfold truncate.
  destruct (Nat.ltb limit (String.length s)) eqn:E.
  - apply Nat.ltb_lt in E.
    assert (Hlen : String.length (String.substring 0 keep s ++ "...") = (keep + 3)%nat).
    { rewrite length_append, length_substring_0. cbn. lia. }
    split; [intros H; exfalso; lia|].
    split; [intros _; split; [reflexivity | exact Hlen]|].
    split; [rewrite Hlen; lia | apply prefix_append].
  - apply Nat.ltb_ge in E.
    split; [reflexivity|].
    split; [intros H; exfalso; lia|].
    split; [lia | apply substring_0_prefix].
Qed.

(** The label under a drawn node is the node's label when that has at most
    15 characters, and otherwise its first 13 characters followed by three
    dots: never more than 16 characters, so a label of exactly 16 loses
    three characters without getting shorter. *)
Theorem node_label_is_cut_to_16_characters
    (sel : option Node.t) (node : Node.t) (view : NodeView) :
  renderNode sel node = Some view ->
  ((String.length (Node.label node) <= 15)%nat -> label_text view = Node.label node) /\
  ((15 < String.length (Node.label node))%nat ->
   label_text view = (String.substring 0 13 (Node.label node) ++ "...")%string /\
   String.length (label_text view) = 16%nat) /\
  (String.length (label_text view) <= 16)%nat /\
  String.prefix (String.substring 0 13 (Node.label node)) (label_text view) = true.
Proof.
  unfold renderNode. destruct (position node) as [[nx ny]|]; [|discriminate].
  intros [= <-]. cbn [label_text].
  destruct (truncate_spec 15 13 (Node.label node)) as (H1 & H2 & H3 & H4); [lia|].
  split; [exact H1|]. split; [exact H2|]. split; [exact H3 | exact H4].
Qed.

Lemma node_label_is_cut_to_16_characters_witness :
  exists view,
    renderNode None (sample_node "photosynthesis_x" 300 300) = Some view /\
    label_text view = "photosynthesi..."%string /\
    String.length (label_text view) = 16%nat.
Proof.
  destruct (renderNode None (sample_node "photosynthesis_x" 300 300))
    as [view|] eqn:E.
  - exists view. split; [reflexivity|].
    destruct (node_label_is_cut_to_16_characters None
                (sample_node "photosynthesis_x" 300 300) view E)
      as (_ & Hlong & _).
    apply Hlong. cbn. lia.
  - exfalso. apply renderNode_drawn in E.
    rewrite sample_node_position in E by lra. discriminate.
Defined.

(** An edge between two distinct points carries a label exactly when its
    [label] is a non-empty string and the centres are more than 80 px
    apart.  The text is then anchored at the midpoint of the drawn segment,
    which is more than 10 px long; it is the label cut to 6 characters and
    three dots when longer than 8, so at most 9 characters; and the box
    behind it is centred on the anchor and 6 px wide per character of the
    whole label, cut or not. *)
Theorem edge_label_sits_mid_segment
    (ns : list Node.t) (edge : Edge.t) (fromNode toNode : Node.t) (p q : vec) :
  find_node (Edge.from edge) ns = Some fromNode ->
  find_node (Edge.to edge) ns = Some toNode ->
  point_of fromNode = Some p ->
  point_of toNode = Some q ->
  p <> q ->
  let u := toward p q in
  let start := vadd p (vscale (getNodeSize fromNode) u) in
  let finish := vsub q (vscale (getNodeSize toNode) u) in
  let mid := vscale (1 / 2) (vadd start finish) in
  exists view,
    renderEdge ns edge = Some view /\
    (edge_label view <> None <->
     exists lbl, Edge.label edge = Some lbl /\ lbl <> ""%string /\ 80 < dist p q) /\
    (forall lab,
        edge_label view = Some lab ->
        exists lbl,
          Edge.label edge = Some lbl /\
          (text_x lab, text_y lab) = fin_point mid /\
          rect_width lab = Fin (6 * INR (String.length lbl)) /\
          rect_x lab = Fin (fst mid - 3 * INR (String.length lbl)) /\
          rect_y lab = Fin (snd mid - 8) /\
          text lab = truncate 8 6 lbl /\
          (String.length (text lab) <= 9)%nat /\
          10 < dist start finish).
Proof.
  intros Hfrom Hto Hp Hq Hne. cbv zeta.
  pose proof (dist_pos p q Hne) as Hd.
  pose proof (renderEdge_between ns edge fromNode toNode p q Hfrom Hto Hp Hq Hne)
    as Hview. cbv zeta in Hview.
  eexists. split; [exact Hview|]. cbn [edge_label].
  pose proof (getNodeSize_range fromNode) as Hrf.
  pose proof (getNodeSize_range toNode) as Hrt.
  destruct (Edge.label edge) as [lbl|].
  2:{ split.
      - split; [intros H; now contradiction H|]. intros (lbl & H & _). discriminate.
      - discriminate. }
  destruct (String.eqb lbl "") eqn:Eempty; cbn [negb andb].
  { apply String.eqb_eq in Eempty. split.
    - split; [intros H; now contradiction H|].
      intros (lbl' & [= <-] & Hne' & _). contradiction.
    - discriminate. }
  apply String.eqb_neq in Eempty.
  destruct (Rlt_dec 80 (dist p q)) as [Hfar | Hnear].
  - split.
    + split; [intros _; now exists lbl | discriminate].
    + intros lab [= <-]. exists lbl. unfold label_at. cbn [text_x text_y rect_width rect_x rect_y text].
      split; [reflexivity|].
      split; [unfold fin_point, vscale, vadd; cbn [fst snd];
              apply fin_pair_eq; field|].
      split; [apply f_equal; ring|].
      split; [apply f_equal; unfold vscale, vadd; cbn [fst snd]; field|].
      split; [apply f_equal; unfold vscale, vadd; cbn [fst snd]; field|].
      split; [reflexivity|].
      split.
      * destruct (truncate_spec 8 6 lbl) as (_ & _ & H & _); [lia | exact H].
      * rewrite segment_dist by exact Hd.
        apply Rlt_le_trans with (dist p q - (getNodeSize fromNode + getNodeSize toNode));
          [lra | apply Rle_abs].
  - split.
    + split; [intros H; now contradiction H|].
      intros (lbl' & _ & _ & Hfar). contradiction.
    + discriminate.
Qed.

Lemma edge_label_sits_mid_segment_witness :
  let u := toward (300, 300) (500, 300) in
  let start := vadd (300, 300) (vscale (getNodeSize (sample_node "a" 300 300)) u) in
  let finish := vsub (500, 300) (vscale (getNodeSize (sample_node "b" 500 300)) u) in
  let mid := vscale (1 / 2) (vadd start finish) in
  exists view,
    renderEdge sample_pair (sample_edge "a" "b") = Some view /\
    (edge_label view <> None <->
     exists lbl, Edge.label (sample_edge "a" "b") = Some lbl /\
                 lbl <> ""%string /\ 80 < dist (300, 300) (500, 300)) /\
    (forall lab,
        edge_label view = Some lab ->
        exists lbl,
          Edge.label (sample_edge "a" "b") = Some lbl /\
          (text_x lab, text_y lab) = fin_point mid /\
          rect_width lab = Fin (6 * INR (String.length lbl)) /\
          rect_x lab = Fin (fst mid - 3 * INR (String.length lbl)) /\
          rect_y lab = Fin (snd mid - 8) /\
          text lab = truncate 8 6 lbl /\
          (String.length (text lab) <= 9)%nat /\
          10 < dist start finish).
Proof.
  apply (edge_label_sits_mid_segment sample_pair (sample_edge "a" "b")
           (sample_node "a" 300 300) (sample_node "b" 500 300)).
  - reflexivity.
  - reflexivity.
  - apply sample_node_point; lra.
  - apply sample_node_point; lra.
  - intros H. injection H as H. lra.
Defined.

(** ** Pairwise forces *)

Lemma toward_opposite (p q : vec) : toward q p = vscale (-1) (toward p q).
Proof.
  unfold toward. rewrite (dist_sym q p). unfold vscale, vsub. cbn [fst snd].
  apply injective_projections; cbn [fst snd]; ring.
Qed.

Lemma spec_repulsion_opposite (p q : vec) :
  spec_repulsion q p = vscale (-1) (spec_repulsion p q).
Proof.
  unfold spec_repulsion. rewrite (dist_sym q p).
  destruct (Rlt_dec 0 (dist p q)).
  - destruct (Rlt_dec (dist p q) 120).
    + rewrite (toward_opposite q p). unfold vscale. cbn [fst snd].
      apply injective_projections; cbn [fst snd]; ring.
    + unfold vscale. cbn [fst snd]. apply injective_projections; cbn [fst snd]; ring.
  - unfold vscale. cbn [fst snd]. apply injective_projections; cbn [fst snd]; ring.
Qed.

Lemma spec_attraction_opposite (p q : vec) :
  spec_attraction q p = vscale (-1) (spec_attraction p q).
Proof.
  unfold spec_attraction. rewrite (dist_sym q p).
  destruct (Rlt_dec 100 (dist p q)).
  - rewrite (toward_opposite p q). unfold vscale. cbn [fst snd].
    apply injective_projections; cbn [fst snd]; ring.
  - unfold vscale. cbn [fst snd]. apply injective_projections; cbn [fst snd]; ring.
Qed.

(** On one and the same array, what the loops add to the force on node [i]
    because of node [j] is the exact opposite of what they add to the force
    on [j] because of [i]: the repulsion between the two, and the
    attraction along an edge that connects each to the other. *)
Theorem pair_forces_are_equal_and_opposite
    (ns : list Node.t) (i j : nat) (ni nj : Node.t) (p q : vec) (edge : Edge.t) :
  Forall finite_node ns ->
  i <> j ->
  nth_error ns i = Some ni ->
  nth_error ns j = Some nj ->
  point_of ni = Some p ->
  point_of nj = Some q ->
  connectedNode ni ns edge = Some nj ->
  connectedNode nj ns edge = Some ni ->
  exists push pull,
    repel i (Fin (fst p)) (Fin (snd p)) ns (zero, zero) j = fin_point push /\
    repel j (Fin (fst q)) (Fin (snd q)) ns (zero, zero) i
      = fin_point (vscale (-1) push) /\
    attract ni (Fin (fst p)) (Fin (snd p)) ns (zero, zero) edge = fin_point pull /\
    attract nj (Fin (fst q)) (Fin (snd q)) ns (zero, zero) edge
      = fin_point (vscale (-1) pull).
Proof.
  intros Hall Hij Hi Hj Hp Hq Hci Hcj.
  destruct p as [px py], q as [qx qy].
  exists (spec_repulsion (px, py) (qx, qy)), (spec_attraction (px, py) (qx, qy)).
  unfold zero. cbn [fst snd].
  rewrite !repel_finite, !attract_finite by exact Hall.
  unfold other_at. rewrite !neighbour_via_connected.
  rewrite Hci, Hcj, Hi, Hj, Hp, Hq.
  destruct (Nat.eqb i j) eqn:E; [apply Nat.eqb_eq in E; contradiction|].
  destruct (Nat.eqb j i) eqn:E'; [apply Nat.eqb_eq in E'; now contradiction Hij|].
  cbn [map vsum fold_right].
  rewrite (spec_repulsion_opposite (px, py) (qx, qy)),
    (spec_attraction_opposite (px, py) (qx, qy)).
  unfold fin_point, vadd, vscale. cbn [fst snd].
  repeat split; apply fin_pair_eq; ring.
Qed.

Lemma pair_forces_are_equal_and_opposite_witness :
  exists push pull,
    repel 0 (Fin 300) (Fin 300) sample_pair (zero, zero) 1 = fin_point push /\
    repel 1 (Fin 500) (Fin 300) sample_pair (zero, zero) 0
      = fin_point (vscale (-1) push) /\
    attract (sample_node "a" 300 300) (Fin 300) (Fin 300) sample_pair
      (zero, zero) (sample_edge "a" "b") = fin_point pull /\
    attract (sample_node "b" 500 300) (Fin 500) (Fin 300) sample_pair
      (zero, zero) (sample_edge "a" "b") = fin_point (vscale (-1) pull).
Proof.
  apply (pair_forces_are_equal_and_opposite sample_pair 0 1
           (sample_node "a" 300 300) (sample_node "b" 500 300)
           (300, 300) (500, 300) (sample_edge "a" "b")).
  - repeat constructor.
  - discriminate.
  - reflexivity.
  - reflexivity.
  - apply sample_node_point; lra.
  - apply sample_node_point; lra.
  - reflexivity.
  - reflexivity.
Defined.

(** ** Dragging onto a zero coordinate *)

(** While a node is dragged, a pointer-move whose [x] or [y] relative to
    the drawing is exactly 0 makes the node vanish: it has no position any
    more, is not drawn, and a tick leaves it where it is. *)
Theorem drag_onto_zero_coordinate_hides_node
    (st : State) (rleft rtop clientX clientY : number) (dragged : Node.t) :
  isDragging st = true ->
  dragNode st = Some dragged ->
  (clientX - rleft)%js = Fin 0 \/ (clientY - rtop)%js = Fin 0 ->
  let st' := handleMouseMove (Some (rleft, rtop)) clientX clientY st in
  forall k node',
    nth_error (nodes st') k = Some node' ->
    Node.id node' = Node.id dragged ->
    position node' = None /\
    (forall sel, renderNode sel node' = None) /\
    (forall width height edges,
        nth_error (simulate width height edges (nodes st')) k = Some node').
Proof.
  intros Hdrag Hnode Hzero. cbv zeta. intros k node' Hk Hid.
  rewrite (handleMouseMove_nodes st _ _ _ _ dragged Hdrag Hnode) in Hk.
  rewrite nth_error_map in Hk.
  destruct (nth_error (nodes st) k) as [node|] eqn:E; [|discriminate].
  cbn [option_map] in Hk. injection Hk as Hk.
  assert (Hpos : position node' = None).
  { destruct (String.eqb (Node.id node) (Node.id dragged)) eqn:Eid.
    - subst node'. apply position_zero. cbn [with_motion Node.x Node.y].
      destruct Hzero as [-> | ->]; [now left | now right].
    - subst node'. apply String.eqb_neq in Eid. contradiction. }
  split; [exact Hpos|]. split.
  - intros sel. now apply renderNode_skips.
  - intros width height edges. apply simulate_skipped; [|exact Hpos].
    rewrite (handleMouseMove_nodes st _ _ _ _ dragged Hdrag Hnode).
    rewrite nth_error_map, E. cbn [option_map]. now rewrite Hk.
Qed.

Lemma drag_onto_zero_coordinate_hides_node_witness :
  let st := handleMouseDown (sample_node "a" 300 300)
              (idle [sample_node "a" 300 300]) in
  let st' := handleMouseMove (Some (Fin 8, Fin 8)) (Fin 8) (Fin 200) st in
  let node' := with_motion (sample_node "a" 300 300)
                 (Fin 8 - Fin 8)%js (Fin 200 - Fin 8)%js zero zero in
  position node' = None /\
  (forall sel, renderNode sel node' = None) /\
  (forall width height edges,
      nth_error (simulate width height edges (nodes st')) 0 = Some node').
Proof.
  cbv zeta.
  apply (drag_onto_zero_coordinate_hides_node
           (handleMouseDown (sample_node "a" 300 300)
              (idle [sample_node "a" 300 300]))
           (Fin 8) (Fin 8) (Fin 8) (Fin 200) (sample_node "a" 300 300)).
  - reflexivity.
  - reflexivity.
  - left. rewrite sub_fin. apply f_equal. lra.
  - reflexivity.
  - reflexivity.
Defined.

(** ** The fallback mind map *)

Lemma collect_topics_length (topicOf : string -> option Topic.t)
    (sentences : list string) :
  (List.length (collect_topics topicOf sentences) <= List.length sentences)%nat.
Proof.
  induction sentences as [| s rest IH]; cbn; [lia|].
  destruct (topicOf s); cbn; lia.
Qed.

Lemma identifyMainTopics_first_five (sentences : list string) :
  firstn (Nat.min 5 (List.length sentences)) sentences = firstn 5 sentences.
Proof.
  destruct (Nat.le_gt_cases 5 (List.length sentences)) as [H | H].
  - now rewrite Nat.min_l.
  - rewrite Nat.min_r by lia. rewrite firstn_all.
    symmetry. apply firstn_all2. lia.
Qed.

Lemma identifyMainTopics_count (topicOf : string -> option Topic.t)
    (sentences : list string) :
  (2 <= List.length (identifyMainTopics topicOf sentences) <= 4)%nat.
Proof.
  unfold identifyMainTopics. rewrite identifyMainTopics_first_five.
  destruct (collect_topics topicOf (firstn 5 sentences)) as [| t1 [| t2 rest]].
  - cbn. lia.
  - cbn. lia.
  - rewrite length_firstn. cbn [List.length]. lia.
Qed.

(** Whatever the text, [identifyMainTopics] returns between 2 and 4
    topics: the topics found in the first five sentences, cut to four, when
    at least two were found, and otherwise the one found or none, padded
    with stock topics to make two. *)
Theorem identifyMainTopics_returns_2_to_4_topics
    (topicOf : string -> option Topic.t) (sentences : list string) :
  let found := collect_topics topicOf (firstn 5 sentences) in
  let topics := identifyMainTopics topicOf sentences in
  (2 <= List.length topics <= 4)%nat /\
  (List.length found <= 5)%nat /\
  ((2 <= List.length found)%nat -> topics = firstn 4 found) /\
  ((List.length found < 2)%nat ->
   List.length topics = 2%nat /\ firstn (List.length found) topics = found).
Proof.
  cbv zeta. split; [apply identifyMainTopics_count|].
  unfold identifyMainTopics. rewrite identifyMainTopics_first_five.
  pose proof (collect_topics_length topicOf (firstn 5 sentences)) as Hlen.
  pose proof (firstn_le_length 5 sentences) as H5.
  destruct (collect_topics topicOf (firstn 5 sentences)) as [| t1 [| t2 rest]].
  - cbn. repeat split; intros; try reflexivity; try (cbn in *; lia).
  - cbn. repeat split; intros; try reflexivity; try (cbn in *; lia).
  - split; [lia|]. split; [reflexivity|]. cbn [List.length]. intros H. lia.
Qed.

Lemma decimal_injective (n m : nat) : decimal n = decimal m -> n = m.
Proof.
  unfold decimal. intros H. apply DecimalNat.Unsigned.to_uint_inj.
  apply (f_equal NilEmpty.uint_of_string) in H.
  rewrite !NilEmpty.usu in H. now injection H.
Qed.

Lemma topicId_injective (n m : nat) : topicId n = topicId m -> n = m.
Proof. unfold topicId. cbn. intros [= H]. now apply decimal_injective. Qed.

Lemma termId_injective (n m : nat) : termId n = termId m -> n = m.
Proof. unfold termId. cbn. intros [= H]. now apply decimal_injective. Qed.

Lemma mapi_from_length {A B : Type} (f : A -> nat -> B) (k : nat) (l : list A) :
  List.length (mapi_from f k l) = List.length l.
Proof. revert k. induction l as [| a l IH]; intros k; cbn; [reflexivity | now rewrite IH]. Qed.

(** Mapping with an index and then projecting something that depends on
    the index only. *)
Lemma map_mapi_from_index {A B C : Type} (f : A -> nat -> B) (g : B -> C)
    (h : nat -> C) (k : nat) (l : list A) :
  (forall a i, g (f a i) = h i) ->
  map g (mapi_from f k l) = map h (seq k (List.length l)).
Proof.
  intros H. revert k. induction l as [| a l IH]; intros k; cbn; [reflexivity|].
  now rewrite H, IH.
Qed.

Lemma NoDup_map_of_injective {A B : Type} (f : A -> B) (l : list A) :
  (forall x y, f x = f y -> x = y) -> NoDup l -> NoDup (map f l).
Proof.
  intros Hinj. induction 1 as [| x l Hx Hl IH]; cbn; constructor; [|exact IH].
  rewrite in_map_iff. intros (y & E & Hy). apply Hinj in E. now subst.
Qed.

(** The identifiers of the fallback graph, in node order. *)
Lemma fallback_ids (docName : string) (keyTerms : list string)
    (mainTopics : list Topic.t) :
  map Node.id (data_nodes (generateFallbackMindMap docName keyTerms mainTopics)) =
  "central"%string
  :: map topicId (seq 0 (List.length mainTopics))
  ++ map termId (seq 0 (Nat.min 6 (List.length keyTerms))).
Proof.
  unfold generateFallbackMindMap, mapi. cbn [data_nodes map Node.id centralNode].
  rewrite map_app. f_equal. f_equal.
  - now apply map_mapi_from_index.
  - rewrite <- length_firstn. now apply map_mapi_from_index.
Qed.

Lemma fallback_counts (docName : string) (keyTerms : list string)
    (mainTopics : list Topic.t) :
  let data := generateFallbackMindMap docName keyTerms mainTopics in
  let topics := List.length mainTopics in
  let terms := Nat.min 6 (List.length keyTerms) in
  List.length (data_nodes data) = (1 + topics + terms)%nat /\
  List.length (data_edges data)
    = (topics + terms + (if Nat.ltb 1 topics then 1 else 0))%nat.
Proof.
  cbv zeta. split.
  - unfold generateFallbackMindMap, mapi. cbn [data_nodes List.length].
    rewrite length_app, !mapi_from_length, length_firstn. lia.
  - unfold generateFallbackMindMap, mapi. cbn [data_edges].
    rewrite !length_app, !mapi_from_length, length_firstn.
    destruct (Nat.ltb 1 (List.length mainTopics)); cbn [List.length]; lia.
Qed.

(** The fallback graph has one central node, one node per main topic and
    one per key term up to six, under identifiers that are pairwise
    distinct; and one edge per topic, one per term node, plus one
    cross-link when there are at least two topics. *)
Theorem fallback_graph_has_unique_ids
    (docName : string) (keyTerms : list string) (mainTopics : list Topic.t) :
  let data := generateFallbackMindMap docName keyTerms mainTopics in
  let topics := List.length mainTopics in
  let terms := Nat.min 6 (List.length keyTerms) in
  NoDup (map Node.id (data_nodes data)) /\
  List.length (data_nodes data) = (1 + topics + terms)%nat /\
  List.length (data_edges data)
    = (topics + terms + (if Nat.ltb 1 topics then 1 else 0))%nat.
Proof.
  cbv zeta. split; [|apply fallback_counts].
  rewrite fallback_ids. apply NoDup_cons.
  - rewrite in_app_iff, !in_map_iff.
    intros [(i & H & _) | (i & H & _)]; discriminate H.
  - apply NoDup_app.
    + apply NoDup_map_of_injective; [|apply seq_NoDup].
      intros n m. apply topicId_injective.
    + apply NoDup_map_of_injective; [|apply seq_NoDup].
      intros n m. apply termId_injective.
    + intros a. rewrite !in_map_iff. intros (i & <- & _) (j & H & _).
      discriminate H.
Qed.

Lemma in_mapi {A B : Type} (f : A -> nat -> B) (l : list A) (b : B) :
  In b (mapi f l) <-> exists i a, nth_error l i = Some a /\ b = f a i.
Proof.
  unfold mapi. split.
  - intros Hin. apply In_nth_error in Hin as [i Hi].
    rewrite mapi_from_nth in Hi.
    destruct (nth_error l i) as [a|] eqn:E; [|discriminate].
    injection Hi as <-. now exists i, a.
  - intros (i & a & Hi & ->). apply nth_error_In with i.
    now rewrite mapi_from_nth, Hi.
Qed.

Lemma in_fallback_ids (docName : string) (keyTerms : list string)
    (mainTopics : list Topic.t) (key : string) :
  In key (map Node.id
            (data_nodes (generateFallbackMindMap docName keyTerms mainTopics)))
  <-> key = "central"%string \/
      (exists i, (i < List.length mainTopics)%nat /\ key = topicId i) \/
      (exists i, (i < Nat.min 6 (List.length keyTerms))%nat /\ key = termId i).
Proof.
  rewrite fallback_ids. cbn [In]. rewrite in_app_iff, !in_map_iff.
  split.
  - intros [H | [(i & <- & Hi) | (i & <- & Hi)]].
    + now left.
    + right. left. exists i. apply in_seq in Hi. split; [lia | reflexivity].
    + right. right. exists i. apply in_seq in Hi. split; [lia | reflexivity].
  - intros [H | [(i & Hi & ->) | (i & Hi & ->)]].
    + now left.
    + right. left. exists i. split; [reflexivity | apply in_seq; lia].
    + right. right. exists i. split; [reflexivity | apply in_seq; lia].
Qed.

Lemma relevantTopic_exists (count index : nat) :
  (0 < count)%nat ->
  exists i, (i < count)%nat /\ relevantTopic count index = topicId i.
Proof.
  intros Hcount. exists (index mod count)%nat. split.
  - apply Nat.mod_upper_bound. lia.
  - unfold relevantTopic. destruct (Nat.eqb count 0) eqn:E; [|reflexivity].
    apply Nat.eqb_eq in E. lia.
Qed.

Lemma fallback_edges_in_ids (docName : string) (keyTerms : list string)
    (mainTopics : list Topic.t) :
  mainTopics <> [] ->
  let data := generateFallbackMindMap docName keyTerms mainTopics in
  forall edge,
    In edge (data_edges data) ->
    In (Edge.from edge) (map Node.id (data_nodes data)) /\
    In (Edge.to edge) (map Node.id (data_nodes data)).
Proof.
  intros Hne. cbv zeta.
  assert (Hcount : (0 < List.length mainTopics)%nat)
    by (destruct mainTopics; [contradiction | cbn; lia]).
  intros edge Hin. rewrite !in_fallback_ids.
  unfold generateFallbackMindMap in Hin. cbn [data_edges] in Hin.
  rewrite !in_app_iff, !in_mapi in Hin.
  destruct Hin as [(i & t & Hi & ->) | [(i & term & Hi & ->) | Hcross]].
  - cbn [topicEdge Edge.from Edge.to]. split; [now left|].
    right. left. exists i. split; [|reflexivity].
    apply nth_error_Some. congruence.
  - cbn [termEdge Edge.from Edge.to]. split.
    + right. left. now apply relevantTopic_exists.
    + right. right. exists i. split; [|reflexivity].
      rewrite <- length_firstn. apply nth_error_Some. congruence.
  - destruct (Nat.ltb 1 (List.length mainTopics)) eqn:E; [|contradiction].
    apply Nat.ltb_lt in E. destruct Hcross as [<- | []].
    cbn [crossLink Edge.from Edge.to]. split; right; left.
    + exists 0%nat. split; [lia | reflexivity].
    + exists 1%nat. split; [lia | reflexivity].
Qed.

(** With at least one main topic, every edge of the fallback graph joins
    two of its nodes, and every node but the central one is the target of
    an edge that starts at the central node or at a topic node: each topic
    hangs off the centre and each term off a topic. *)
Theorem fallback_graph_edges_join_its_nodes
    (docName : string) (keyTerms : list string) (mainTopics : list Topic.t) :
  mainTopics <> [] ->
  let data := generateFallbackMindMap docName keyTerms mainTopics in
  let ids := map Node.id (data_nodes data) in
  (forall edge,
      In edge (data_edges data) ->
      In (Edge.from edge) ids /\ In (Edge.to edge) ids) /\
  (forall node,
      In node (data_nodes data) ->
      Node.id node <> "central"%string ->
      exists edge,
        In edge (data_edges data) /\
        Edge.to edge = Node.id node /\
        (Edge.from edge = "central"%string \/
         exists i, (i < List.length mainTopics)%nat /\ Edge.from edge = topicId i)).
Proof.
  intros Hne. cbv zeta.
  assert (Hcount : (0 < List.length mainTopics)%nat)
    by (destruct mainTopics; [contradiction | cbn; lia]).
  split; [now apply fallback_edges_in_ids|].
  intros node Hin Hid.
  unfold generateFallbackMindMap in Hin. cbn [data_nodes] in Hin.
  destruct Hin as [<- | Hin]; [now contradiction Hid|].
  rewrite in_app_iff, !in_mapi in Hin.
  destruct Hin as [(i & t & Hi & ->) | (i & term & Hi & ->)].
  - exists (topicEdge t i). split; [|split; [reflexivity | now left]].
    unfold generateFallbackMindMap. cbn [data_edges].
    rewrite in_app_iff, in_mapi. left. now exists i, t.
  - exists (termEdge (List.length mainTopics) term i).
    split; [|split; [reflexivity|]].
    + unfold generateFallbackMindMap. cbn [data_edges].
      rewrite !in_app_iff, !in_mapi. right. left. now exists i, term.
    + right. cbn [termEdge Edge.from]. now apply relevantTopic_exists.
Qed.

Lemma fallback_graph_edges_join_its_nodes_witness :
  let data := generateFallbackMindMap "notes" sample_terms sample_topics in
  let ids := map Node.id (data_nodes data) in
  In (Edge.from (termEdge 1 "Light" 1)) ids /\
  In (Edge.to (termEdge 1 "Light" 1)) ids /\
  exists edge,
    In edge (data_edges data) /\
    Edge.to edge = Node.id (termNode "Light" 1) /\
    (Edge.from edge = "central"%string \/
     exists i, (i < 1)%nat /\ Edge.from edge = topicId i).
Proof.
  cbv zeta.
  destruct (fallback_graph_edges_join_its_nodes "notes" sample_terms sample_topics)
    as (Hedges & Hnodes).
  - discriminate.
  - destruct (Hedges (termEdge 1 "Light" 1)) as (Hfrom & Hto).
    + cbn. right. right. left. reflexivity.
    + split; [exact Hfrom|]. split; [exact Hto|].
      apply (Hnodes (termNode "Light" 1)).
      * cbn. right. right. right. left. reflexivity.
      * discriminate.
Defined.

(** ** Nothing of a freshly placed graph is skipped *)

Lemma vec_eq_dec (p q : vec) : {p = q} + {p <> q}.
Proof.
  destruct p as [a b], q as [c d].
  destruct (Req_dec_T a c) as [-> | Ha]; [|right; congruence].
  destruct (Req_dec_T b d) as [-> | Hb]; [now left | right; congruence].
Qed.

Lemma integrate_point (width height : R) (node : Node.t)
    (nx ny : number) (f : force) :
  point_of (integrate width height node nx ny f) <> None.
Proof.
  unfold integrate. cbv zeta.
  match goal with
  | |- context [clampX width ?v] =>
      destruct (clampX_at_least_50 width v) as (c1 & -> & Hx)
  end.
  match goal with
  | |- context [clampY height ?v] =>
      destruct (clampY_at_least_50 height v) as (c2 & -> & Hy)
  end.
  rewrite with_motion_point by lra. discriminate.
Qed.

(** A tick keeps every node at a point of the plane: the clamp returns a
    finite coordinate of at least 50 whatever the velocity has become. *)
Lemma simulate_all_placed (width height : R) (edges : list Edge.t)
    (ns : list Node.t) :
  Forall (fun node => point_of node <> None) ns ->
  Forall (fun node => point_of node <> None) (simulate width height edges ns).
Proof.
  intros Hall. apply Forall_forall. intros node' Hin.
  apply In_nth_error in Hin as [i Hi].
  assert (Hlt : (i < List.length ns)%nat).
  { assert (H : nth_error (simulate width height edges ns) i <> None)
      by (rewrite Hi; discriminate).
    apply nth_error_Some in H. unfold simulate in H.
    now rewrite simulate_upto_length in H. }
  destruct (nth_error ns i) as [node|] eqn:E;
    [|apply nth_error_None in E; lia].
  rewrite Forall_forall in Hall.
  pose proof (Hall node (nth_error_In _ _ E)) as Hp.
  destruct (point_of node) as [p|] eqn:Ep; [|contradiction].
  rewrite (simulate_processed width height edges ns i node _ _ E
             (point_of_position node p Ep)) in Hi.
  injection Hi as <-. apply integrate_point.
Qed.

Lemma run_all_placed (width height : R) (edges : list Edge.t)
    (st : State) (evs : list Event) :
  Forall (fun ev => is_move ev = false) evs ->
  Forall (fun node => point_of node <> None) (nodes st) ->
  Forall (fun node => point_of node <> None)
         (nodes (run width height edges st evs)).
Proof.
  intros Hevs. unfold run. revert st.
  induction Hevs as [| ev evs Hev Hevs IH]; intros st H0; [exact H0|].
  cbn [fold_left]. apply IH.
  destruct ev; try discriminate; cbn [step]; try exact H0.
  now apply simulate_all_placed.
Qed.

Lemma find_node_at (key : string) (ns : list Node.t) (found : Node.t) :
  find_node key ns = Some found ->
  exists i, nth_error ns i = Some found /\ Node.id found = key.
Proof.
  intros H. apply find_some in H as [Hin Hid].
  apply String.eqb_eq in Hid. apply In_nth_error in Hin as [i Hi]. eauto.
Qed.

(** Among nodes that all are at points of the plane, an edge whose two
    identifiers name nodes is emitted: as a finite segment when its
    endpoints are at different points, as the NaN line when they are at
    the same point, which is where a self-loop has them. *)
Lemma renderEdge_placed (ns : list Node.t) (edge : Edge.t) :
  Forall (fun node => point_of node <> None) ns ->
  In (Edge.from edge) (map Node.id ns) ->
  In (Edge.to edge) (map Node.id ns) ->
  exists fromNode toNode p q view,
    find_node (Edge.from edge) ns = Some fromNode /\
    find_node (Edge.to edge) ns = Some toNode /\
    point_of fromNode = Some p /\
    point_of toNode = Some q /\
    renderEdge ns edge = Some view /\
    (p <> q -> finite_line view) /\
    (p = q -> nan_line view) /\
    (Edge.from edge = Edge.to edge -> p = q).
Proof.
  intros Hall Hfrom Hto. rewrite Forall_forall in Hall.
  destruct (find_node_some _ _ Hfrom) as (f & Hf & Hfin).
  destruct (find_node_some _ _ Hto) as (t & Ht & Htin).
  destruct (point_of f) as [p|] eqn:Hp; [|now apply Hall in Hfin].
  destruct (point_of t) as [q|] eqn:Hq; [|now apply Hall in Htin].
  assert (Hloop : Edge.from edge = Edge.to edge -> p = q).
  { intros E. rewrite E in Hf. rewrite Hf in Ht. injection Ht as <-. congruence. }
  destruct (vec_eq_dec p q) as [<- | Hne].
  - destruct (renderEdge_coincident ns edge f t p Hf Ht Hp Hq)
      as (view & Hv & H1 & H2 & H3 & H4 & _).
    exists f, t, p, p, view.
    repeat (split; [assumption || reflexivity|]).
    split; [intros H; now contradiction H|].
    split; [intros _; repeat split; assumption | reflexivity].
  - pose proof (renderEdge_between ns edge f t p q Hf Ht Hp Hq Hne) as Hv.
    cbv zeta in Hv.
    eexists f, t, p, q, _.
    repeat (split; [eassumption || reflexivity|]).
    split; [intros _; repeat split|].
    split; [intros H; contradiction | exact Hloop].
Qed.

(** *** The initial layout puts different nodes at different points *)

Lemma cos_one_zero (x : R) : 0 <= x < 2 * PI -> Rtrigo_def.cos x = 1 -> x = 0.
Proof.
  intros Hx Hc.
  assert (Hs : Rtrigo_def.sin x = 0).
  { pose proof (sin2_cos2 x) as H. rewrite Hc in H. unfold Rsqr in H. nra. }
  destruct (sin_eq_O_2PI_0 x) as [H | [H | H]]; try lra.
  rewrite H, cos_PI in Hc. lra.
Qed.

Lemma angle_unique (a b : R) :
  0 <= a < 2 * PI -> 0 <= b < 2 * PI ->
  Rtrigo_def.cos a = Rtrigo_def.cos b ->
  Rtrigo_def.sin a = Rtrigo_def.sin b ->
  a = b.
Proof.
  intros Ha Hb Hc Hs.
  assert (H1 : Rtrigo_def.cos (a - b) = 1).
  { rewrite cos_minus, Hc, Hs. pose proof (sin2_cos2 b) as H.
    unfold Rsqr in H. lra. }
  assert (H2 : Rtrigo_def.cos (b - a) = 1).
  { replace (b - a) with (- (a - b)) by ring. now rewrite cos_neg. }
  destruct (Rle_dec b a).
  - assert (a - b = 0) by (apply cos_one_zero; [lra | exact H1]). lra.
  - assert (b - a = 0) by (apply cos_one_zero; [lra | exact H2]). lra.
Qed.

(** Two points at positive distances from a centre, in directions given
    by angles of one turn, coincide only if the angles do. *)
Lemma polar_unique (a b r1 r2 : R) :
  0 <= a < 2 * PI -> 0 <= b < 2 * PI -> 0 < r1 -> 0 < r2 ->
  Rtrigo_def.cos a * r1 = Rtrigo_def.cos b * r2 ->
  Rtrigo_def.sin a * r1 = Rtrigo_def.sin b * r2 ->
  a = b.
Proof.
  intros Ha Hb Hr1 Hr2 Hc Hs.
  pose proof (sin2_cos2 a) as Hua. pose proof (sin2_cos2 b) as Hub.
  unfold Rsqr in Hua, Hub.
  assert (Hsq : r1 * r1 = r2 * r2).
  { transitivity (Rtrigo_def.cos a * r1 * (Rtrigo_def.cos a * r1)
                  + Rtrigo_def.sin a * r1 * (Rtrigo_def.sin a * r1)).
    - transitivity (r1 * r1 * (Rtrigo_def.sin a * Rtrigo_def.sin a
                               + Rtrigo_def.cos a * Rtrigo_def.cos a));
        [rewrite Hua; ring | ring].
    - rewrite Hc, Hs.
      transitivity (r2 * r2 * (Rtrigo_def.sin b * Rtrigo_def.sin b
                               + Rtrigo_def.cos b * Rtrigo_def.cos b));
        [ring | rewrite Hub; ring]. }
  assert (Hr : r1 = r2) by nra.
  subst r2.
  apply angle_unique; try assumption.
  - apply Rmult_eq_reg_r with r1; [exact Hc | lra].
  - apply Rmult_eq_reg_r with r1; [exact Hs | lra].
Qed.

Lemma with_motion_point_inv (node : Node.t) (a b : R) (c d : number) (p : vec) :
  point_of (with_motion node (Fin a) (Fin b) c d) = Some p -> p = (a, b).
Proof.
  unfold point_of. cbn [with_motion Node.x Node.y].
  destruct (Req_dec_T a 0); [discriminate|].
  destruct (Req_dec_T b 0); [discriminate|]. now intros [= <-].
Qed.

Lemma initial_angle_range (i n : nat) :
  (i < n)%nat -> 0 <= INR i / INR n * 2 * PI < 2 * PI.
Proof.
  intros Hlt. pose proof PI_RGT_0 as Hpi.
  assert (Hn : 0 < INR n) by (apply lt_0_INR; lia).
  assert (Hi : 0 <= INR i < INR n) by (split; [apply pos_INR | now apply lt_INR]).
  assert (Ht : 0 <= INR i / INR n < 1).
  { split.
    - apply Rmult_le_pos; [lra|]. apply Rlt_le. now apply Rinv_0_lt_compat.
    - apply Rmult_lt_reg_r with (INR n); [exact Hn|].
      unfold Rdiv. rewrite Rmult_assoc, Rinv_l by lra. lra. }
  split.
  - apply Rmult_le_pos; [|lra]. apply Rmult_le_pos; lra.
  - assert (INR i / INR n * (2 * PI) < 1 * (2 * PI))
      by (apply Rmult_lt_compat_r; lra).
    lra.
Qed.

Lemma initial_points_distinct (width height : R) (random : nat -> R)
    (ns : list Node.t) (i j : nat) (ni nj : Node.t) (p q : vec) :
  400 / 3 <= width -> 400 / 3 <= height ->
  (forall k, 0 <= random k < 1) ->
  i <> j ->
  nth_error (initializedNodes width height random ns) i = Some ni ->
  nth_error (initializedNodes width height random ns) j = Some nj ->
  point_of ni = Some p ->
  point_of nj = Some q ->
  p <> q.
Proof.
  intros Hw Hh Hrandom Hij Hi Hj Hp Hq Heq. subst q.
  destruct (nth_error ns i) as [n1|] eqn:E1.
  2:{ unfold initializedNodes, mapi in Hi. rewrite mapi_from_nth, E1 in Hi.
      discriminate. }
  destruct (nth_error ns j) as [n2|] eqn:E2.
  2:{ unfold initializedNodes, mapi in Hj. rewrite mapi_from_nth, E2 in Hj.
      discriminate. }
  rewrite (initializedNodes_nth width height random ns i n1 E1) in Hi.
  rewrite (initializedNodes_nth width height random ns j n2 E2) in Hj.
  injection Hi as <-. injection Hj as <-.
  apply with_motion_point_inv in Hp, Hq. rewrite Hp in Hq.
  injection Hq as Hx Hy.
  assert (Hli : (i < List.length ns)%nat) by (apply nth_error_Some; congruence).
  assert (Hlj : (j < List.length ns)%nat) by (apply nth_error_Some; congruence).
  pose proof (Hrandom i) as Hri. pose proof (Hrandom j) as Hrj.
  assert (Hmin : 400 / 3 <= Rmin width height)
    by (unfold Rmin; destruct (Rle_dec width height); lra).
  set (n := INR (List.length ns)) in *.
  assert (Hangle : INR i / n * 2 * PI = INR j / n * 2 * PI).
  { apply (polar_unique _ _
             (Rmin width height * 0.35 + (random i - 0.5) * 40)
             (Rmin width height * 0.35 + (random j - 0.5) * 40)).
    - now apply initial_angle_range.
    - now apply initial_angle_range.
    - lra.
    - lra.
    - lra.
    - lra. }
  assert (Hn : 0 < n) by (apply lt_0_INR; lia).
  pose proof PI_RGT_0 as Hpi.
  apply Hij. apply INR_eq.
  assert (Hback : forall t, t = t / n * 2 * PI * (n / (2 * PI)))
    by (intros t; field; lra).
  rewrite (Hback (INR i)), (Hback (INR j)), Hangle. reflexivity.
Qed.

(** Right after the effect has run, in a viewport of at least 400/3 px each
    way, every edge that is emitted and is not a self-loop is a finite
    segment. *)
Lemma initial_edges_finite (width height : R) (random : nat -> R)
    (ns : list Node.t) (edge : Edge.t) (view : EdgeView) :
  400 / 3 <= width -> 400 / 3 <= height ->
  (forall k, 0 <= random k < 1) ->
  Edge.from edge <> Edge.to edge ->
  renderEdge (initializedNodes width height random ns) edge = Some view ->
  finite_line view.
Proof.
  intros Hw Hh Hrandom Hne Hv.
  pose proof (initializedNodes_placed width height random ns Hw Hh Hrandom) as Hall.
  rewrite Forall_forall in Hall.
  set (placed := initializedNodes width height random ns) in *.
  destruct (find_node (Edge.from edge) placed) as [f|] eqn:Hf.
  2:{ unfold renderEdge in Hv. rewrite Hf in Hv. discriminate. }
  destruct (find_node (Edge.to edge) placed) as [t|] eqn:Ht.
  2:{ unfold renderEdge in Hv. rewrite Hf, Ht in Hv. discriminate. }
  destruct (find_node_at _ _ _ Hf) as (i & Hi & Hidf).
  destruct (find_node_at _ _ _ Ht) as (j & Hj & Hidt).
  destruct (point_of f) as [p|] eqn:Hp;
    [|exfalso; now apply (Hall f (nth_error_In _ _ Hi))].
  destruct (point_of t) as [q|] eqn:Hq;
    [|exfalso; now apply (Hall t (nth_error_In _ _ Hj))].
  assert (Hij : i <> j).
  { intros ->. rewrite Hi in Hj. injection Hj as ->. congruence. }
  pose proof (initial_points_distinct width height random ns i j f t p q
                Hw Hh Hrandom Hij Hi Hj Hp Hq) as Hpq.
  rewrite (renderEdge_between placed edge f t p q Hf Ht Hp Hq Hpq) in Hv.
  injection Hv as <-. repeat split.
Qed.

(** What is on screen after the effect has run and events other than
    pointer-moves have followed. *)
Lemma placed_graph_scene (width height : R) (random : nat -> R)
    (data : GraphData) (before : State) (evs : list Event) :
  400 / 3 <= width -> 400 / 3 <= height ->
  (forall k, 0 <= random k < 1) ->
  Forall (fun ev => is_move ev = false) evs ->
  let st := run width height (data_edges data)
              (runEffect width height random data before) evs in
  map static (nodes st) = map static (data_nodes data) /\
  (forall node,
      In node (nodes st) ->
      exists p view,
        point_of node = Some p /\
        renderNode (selectedNode st) node = Some view /\
        cx view = Fin (fst p) /\ cy view = Fin (snd p)) /\
  (forall edge,
      In (Edge.from edge) (map Node.id (data_nodes data)) ->
      In (Edge.to edge) (map Node.id (data_nodes data)) ->
      exists fromNode toNode p q view,
        find_node (Edge.from edge) (nodes st) = Some fromNode /\
        find_node (Edge.to edge) (nodes st) = Some toNode /\
        point_of fromNode = Some p /\
        point_of toNode = Some q /\
        renderEdge (nodes st) edge = Some view /\
        (p <> q -> finite_line view) /\
        (p = q -> nan_line view) /\
        (Edge.from edge = Edge.to edge -> p = q)).
Proof.
  intros Hw Hh Hrandom Hevs. cbv zeta.
  set (st0 := runEffect width height random data before).
  set (st := run width height (data_edges data) st0 evs).
  assert (Hstatic : map static (nodes st) = map static (data_nodes data)).
  { unfold st. rewrite run_static. apply initializedNodes_static. }
  assert (Hall : Forall (fun node => point_of node <> None) (nodes st)).
  { apply run_all_placed; [exact Hevs|].
    now apply initializedNodes_placed. }
  split; [exact Hstatic|]. split.
  - intros node Hin. rewrite Forall_forall in Hall.
    destruct (point_of node) as [p|] eqn:Hp; [|now apply Hall in Hin].
    destruct (renderNode_at (selectedNode st) node p Hp) as (view & Hv & Hx & Hy).
    exists p, view. repeat split; assumption.
  - intros edge Hfrom Hto.
    rewrite <- (static_ids _ _ Hstatic) in Hfrom, Hto.
    now apply renderEdge_placed.
Qed.

(** Once the effect has run in a viewport of at least 400/3 px each way,
    and as long as no pointer-move arrives, nothing of the graph is
    skipped: every node is drawn at the finite point it is at, and every
    edge whose two identifiers name nodes of the payload is emitted, as a
    finite segment when its endpoints are at different points and as a line
    of NaN coordinates when they are at the same point, where a self-loop
    always has them.  In the scene the effect itself leaves, different
    nodes are at different points, so that every edge emitted there that is
    not a self-loop is a finite segment. *)
Theorem placed_graph_skips_nothing
    (width height : R) (random : nat -> R) (data : GraphData)
    (before : State) (evs : list Event) :
  400 / 3 <= width -> 400 / 3 <= height ->
  (forall k, 0 <= random k < 1) ->
  Forall (fun ev => is_move ev = false) evs ->
  let st0 := runEffect width height random data before in
  let st := run width height (data_edges data) st0 evs in
  (forall node,
      In node (nodes st) ->
      exists p view,
        point_of node = Some p /\
        renderNode (selectedNode st) node = Some view /\
        cx view = Fin (fst p) /\ cy view = Fin (snd p)) /\
  (forall edge,
      In (Edge.from edge) (map Node.id (data_nodes data)) ->
      In (Edge.to edge) (map Node.id (data_nodes data)) ->
      exists fromNode toNode p q view,
        find_node (Edge.from edge) (nodes st) = Some fromNode /\
        find_node (Edge.to edge) (nodes st) = Some toNode /\
        point_of fromNode = Some p /\
        point_of toNode = Some q /\
        renderEdge (nodes st) edge = Some view /\
        (p <> q -> finite_line view) /\
        (p = q -> nan_line view) /\
        (Edge.from edge = Edge.to edge -> p = q)) /\
  (forall edge view,
      Edge.from edge <> Edge.to edge ->
      renderEdge (nodes st0) edge = Some view ->
      finite_line view).
Proof.
  intros Hw Hh Hrandom Hevs. cbv zeta.
  destruct (placed_graph_scene width height random data before evs
              Hw Hh Hrandom Hevs) as (_ & Hnodes & Hedges).
  split; [exact Hnodes|]. split; [exact Hedges|].
  intros edge view Hne Hv. cbn [runEffect nodes] in Hv.
  now apply (initial_edges_finite width height random (data_nodes data) edge).
Qed.

Lemma placed_graph_skips_nothing_witness :
  let data := {| data_nodes := [unplaced_node "a"; unplaced_node "b"];
                 data_edges := [sample_edge "a" "b"; sample_edge "a" "a"] |} in
  let st0 := runEffect 800 500 sample_random data (idle []) in
  let st := run 800 500 (data_edges data) st0
              [Tick; MouseDown (unplaced_node "a"); Tick; MouseUp] in
  (forall node,
      In node (nodes st) ->
      exists p view,
        point_of node = Some p /\
        renderNode (selectedNode st) node = Some view /\
        cx view = Fin (fst p) /\ cy view = Fin (snd p)) /\
  (exists view,
      renderEdge (nodes st) (sample_edge "a" "a") = Some view /\ nan_line view) /\
  (forall view,
      renderEdge (nodes st0) (sample_edge "a" "b") = Some view ->
      finite_line view).
Proof.
  cbv zeta.
  destruct (placed_graph_skips_nothing 800 500 sample_random
              {| data_nodes := [unplaced_node "a"; unplaced_node "b"];
                 data_edges := [sample_edge "a" "b"; sample_edge "a" "a"] |}
              (idle [])
              [Tick; MouseDown (unplaced_node "a"); Tick; MouseUp])
    as (Hnodes & Hedges & Hfirst).
  - lra.
  - lra.
  - intros k. unfold sample_random. lra.
  - repeat constructor.
  - split; [exact Hnodes|]. split.
    + destruct (Hedges (sample_edge "a" "a"))
        as (f & t & p & q & view & _ & _ & _ & _ & Hv & _ & Hnan & Hloop).
      * left. reflexivity.
      * left. reflexivity.
      * exists view. split; [exact Hv|]. apply Hnan. now apply Hloop.
    + intros view. apply Hfirst. discriminate.
Defined.

(** ** The dashboard showing a fallback mind map *)

Lemma fallback_edges_not_loops (docName : string) (keyTerms : list string)
    (mainTopics : list Topic.t) (edge : Edge.t) :
  In edge (data_edges (generateFallbackMindMap docName keyTerms mainTopics)) ->
  Edge.from edge <> Edge.to edge.
Proof.
  unfold generateFallbackMindMap. cbn [data_edges].
  rewrite !in_app_iff, !in_mapi.
  intros [(i & t & Hi & ->) | [(i & term & Hi & ->) | Hcross]].
  - cbn [topicEdge Edge.from Edge.to]. unfold topicId. discriminate.
  - cbn [termEdge Edge.from Edge.to]. unfold relevantTopic, topicId, termId.
    destruct (Nat.eqb _ 0); discriminate.
  - destruct (Nat.ltb 1 (List.length mainTopics)); [|contradiction].
    destruct Hcross as [<- | []]. discriminate.
Qed.

(** The dashboard showing a fallback mind map, whatever the document and
    the random draws: the graph has between 3 and 11 nodes and as many
    edges, none of them a self-loop.  In the first scene every node and
    every edge is drawn at finite coordinates.  After any ticks, presses
    and releases every node is still drawn at the finite point it is at,
    and every edge is still emitted: as a finite segment unless its two
    endpoints have come to lie on one point, in which case its
    coordinates are NaN. *)
Theorem dashboard_draws_whole_fallback_graph
    (random : nat -> R) (topicOf : string -> option Topic.t)
    (sentences : list string) (docName : string) (keyTerms : list string)
    (evs : list Event) :
  (forall k, 0 <= random k < 1) ->
  Forall (fun ev => is_move ev = false) evs ->
  let data := generateFallbackMindMap docName keyTerms
                (identifyMainTopics topicOf sentences) in
  let st0 := dashboard random data in
  let st := run 800 500 (data_edges data) st0 evs in
  (3 <= List.length (data_nodes data) <= 11)%nat /\
  (3 <= List.length (data_edges data) <= 11)%nat /\
  List.length (snd (render (data_edges data) st)) = List.length (data_nodes data) /\
  List.length (fst (render (data_edges data) st)) = List.length (data_edges data) /\
  Forall (fun edge => Edge.from edge <> Edge.to edge) (data_edges data) /\
  Forall (fun drawn => exists view,
              drawn = Some view /\ finite (cx view) /\ finite (cy view))
         (snd (render (data_edges data) st)) /\
  Forall (fun drawn => exists view, drawn = Some view /\ finite_line view)
         (fst (render (data_edges data) st0)) /\
  (forall edge,
      In edge (data_edges data) ->
      exists fromNode toNode p q view,
        find_node (Edge.from edge) (nodes st) = Some fromNode /\
        find_node (Edge.to edge) (nodes st) = Some toNode /\
        point_of fromNode = Some p /\
        point_of toNode = Some q /\
        renderEdge (nodes st) edge = Some view /\
        (p <> q -> finite_line view) /\
        (p = q -> nan_line view)).
Proof.
  intros Hrandom Hevs. cbv zeta.
  set (topics := identifyMainTopics topicOf sentences).
  set (data := generateFallbackMindMap docName keyTerms topics).
  destruct (identifyMainTopics_count topicOf sentences) as [Hlo Hhi].
  fold topics in Hlo, Hhi.
  assert (Hne : topics <> []) by (destruct topics; [cbn in Hlo; lia | discriminate]).
  assert (Hmount : forall events,
             run 800 500 (data_edges data) (dashboard random data) events
             = run 800 500 (data_edges data)
                   (runEffect 800 500 random data (idle [])) events)
    by reflexivity.
  destruct (placed_graph_scene 800 500 random data (idle []) evs
              ltac:(lra) ltac:(lra) Hrandom Hevs) as (Hstatic & Hnodes & Hedges).
  destruct (placed_graph_scene 800 500 random data (idle []) []
              ltac:(lra) ltac:(lra) Hrandom (Forall_nil _)) as (_ & _ & Hedges0).
  cbv zeta in Hstatic, Hnodes, Hedges, Hedges0.
  rewrite <- Hmount in Hstatic, Hnodes, Hedges.
  set (st := run 800 500 (data_edges data) (dashboard random data) evs) in *.
  assert (Hlen : List.length (nodes st) = List.length (data_nodes data)).
  { apply (f_equal (@List.length _)) in Hstatic. now rewrite !length_map in Hstatic. }
  pose proof (fallback_counts docName keyTerms topics) as [Hn He].
  fold data in Hn, He.
  assert (Hterms : (Nat.min 6 (List.length keyTerms) <= 6)%nat) by lia.
  unfold render. cbn [fst snd]. rewrite !length_map.
  assert (Hcounts : (3 <= List.length (data_nodes data) <= 11)%nat /\
                    (3 <= List.length (data_edges data) <= 11)%nat).
  { rewrite Hn, He.
    destruct (Nat.ltb 1 (List.length topics)) eqn:E;
      [|apply Nat.ltb_ge in E; lia].
    cbn [List.length]. lia. }
  destruct Hcounts as [Hcn Hce].
  split; [exact Hcn|]. split; [exact Hce|]. split; [exact Hlen|].
  split; [reflexivity|].
  split; [|split; [|split]].
  - apply Forall_forall. intros edge Hin.
    now apply (fallback_edges_not_loops docName keyTerms topics).
  - apply Forall_forall. intros drawn Hin.
    apply in_map_iff in Hin as (node & <- & Hin).
    destruct (Hnodes node Hin) as (p & view & _ & Hv & Hx & Hy).
    exists view. split; [exact Hv|]. rewrite Hx, Hy. split; exact I.
  - apply Forall_forall. intros drawn Hin.
    apply in_map_iff in Hin as (edge & <- & Hin).
    destruct (fallback_edges_in_ids docName keyTerms topics Hne edge Hin)
      as [Hfrom Hto].
    fold data in Hfrom, Hto.
    destruct (Hedges0 edge Hfrom Hto)
      as (f & t & p & q & view & _ & _ & _ & _ & Hv & _ & _ & _).
    exists view. split; [exact Hv|].
    apply (initial_edges_finite 800 500 random (data_nodes data) edge);
      [lra | lra | exact Hrandom | | exact Hv].
    now apply (fallback_edges_not_loops docName keyTerms topics).
  - intros edge Hin.
    destruct (fallback_edges_in_ids docName keyTerms topics Hne edge Hin)
      as [Hfrom Hto].
    fold data in Hfrom, Hto.
    destruct (Hedges edge Hfrom Hto)
      as (f & t & p & q & view & Hf & Ht & Hp & Hq & Hv & Hfin & Hnan & _).
    exists f, t, p, q, view. repeat (split; [assumption|]). assumption.
Qed.

Lemma dashboard_draws_whole_fallback_graph_witness :
  let data := generateFallbackMindMap "notes" sample_terms
                (identifyMainTopics (fun _ => None) []) in
  let st0 := dashboard sample_random data in
  let st := run 800 500 (data_edges data) st0 [Tick; Tick; MouseUp] in
  (3 <= List.length (data_nodes data) <= 11)%nat /\
  (3 <= List.length (data_edges data) <= 11)%nat /\
  Forall (fun drawn => exists view,
              drawn = Some view /\ finite (cx view) /\ finite (cy view))
         (snd (render (data_edges data) st)) /\
  Forall (fun drawn => exists view, drawn = Some view /\ finite_line view)
         (fst (render (data_edges data) st0)).
Proof.
  cbv zeta.
  destruct (dashboard_draws_whole_fallback_graph sample_random (fun _ => None) []
              "notes" sample_terms [Tick; Tick; MouseUp])
    as (Hn & He & _ & _ & _ & Hnodes & Hfirst & _).
  - intros k. unfold sample_random. lra.
  - repeat constructor.
  - split; [exact Hn|]. split; [exact He|]. split; [exact Hnodes | exact Hfirst].
Defined.

(** ** The upload list *)

Section UploadList.

Import Upload.

Variable outcome : File -> Outcome.

Lemma mark_absent (key : string) (change : UploadFile -> UploadFile)
    (l : list UploadFile) :
  ~ In key (map id l) -> mark key change l = l.
Proof.
  unfold mark. induction l as [| f l IH]; intros H; cbn; [reflexivity|].
  destruct (String.eqb (id f) key) eqn:E.
  - apply String.eqb_eq in E. exfalso. apply H. now left.
  - f_equal. apply IH. intros Hin. apply H. now right.
Qed.

Lemma mark_app (key : string) (change : UploadFile -> UploadFile)
    (l1 l2 : list UploadFile) :
  mark key change (l1 ++ l2) = mark key change l1 ++ mark key change l2.
Proof. unfold mark. apply map_app. Qed.

Lemma mark_cons (key : string) (change : UploadFile -> UploadFile)
    (f : UploadFile) (l : list UploadFile) :
  mark key change (f :: l) =
  (if String.eqb (id f) key then change f else f) :: mark key change l.
Proof. reflexivity. Qed.

Lemma mark_mark (key : string) (c1 c2 : UploadFile -> UploadFile)
    (l : list UploadFile) :
  (forall f, id (c1 f) = id f) ->
  mark key c2 (mark key c1 l) = mark key (fun f => c2 (c1 f)) l.
Proof.
  intros Hid. unfold mark. rewrite map_map. apply map_ext. intros f.
  destruct (String.eqb (id f) key) eqn:E; [|now rewrite E].
  now rewrite Hid, E.
Qed.

(** One turn of the loop rewrites the entries that carry the identifier
    of the file at hand, and sends the file when it passes the checks. *)
Lemma processFile_effect (w : World) (uploadFile : UploadFile) :
  files (processFile outcome w uploadFile) =
    mark (id uploadFile)
         (fun f => match validate (file uploadFile) with
                   | Some message => with_error message f
                   | None =>
                       match outcome (file uploadFile) with
                       | Resolved _ => with_status success f
                       | Rejected (Some message) => with_error message f
                       | Rejected None => with_error "Upload failed" f
                       end
                   end)
         (files w) /\
  uploads (processFile outcome w uploadFile) =
    uploads w ++ (if accepted (file uploadFile) then [file uploadFile] else []).
Proof.
  unfold processFile, accepted.
  destruct (validate (file uploadFile)) as [message|].
  - cbn. now rewrite app_nil_r.
  - unfold settle. destruct (outcome (file uploadFile)) as [doc | [message|]];
      cbn [files uploads fail start]; (split; [|reflexivity]);
      now rewrite mark_mark.
Qed.

Lemma processFile_on_own_entry (w : World) (uploadFile : UploadFile)
    (before after : list UploadFile) :
  files w = before ++ uploadFile :: after ->
  ~ In (id uploadFile) (map id before) ->
  ~ In (id uploadFile) (map id after) ->
  files (processFile outcome w uploadFile) =
  before ++ settled outcome uploadFile :: after.
Proof.
  intros Hfiles Hb Ha.
  destruct (processFile_effect w uploadFile) as [-> _].
  rewrite Hfiles, mark_app, (mark_absent _ _ before Hb).
  f_equal. rewrite mark_cons, String.eqb_refl, (mark_absent _ _ after Ha).
  unfold settled.
  destruct (validate (file uploadFile)); [reflexivity|].
  now destruct (outcome (file uploadFile)) as [doc | [message|]].
Qed.

Lemma settled_id (uploadFile : UploadFile) :
  id (settled outcome uploadFile) = id uploadFile.
Proof.
  unfold settled. destruct (validate (file uploadFile)); [reflexivity|].
  now destruct (outcome (file uploadFile)) as [doc | [message|]].
Qed.

(** The loop over entries whose identifiers are new and pairwise distinct
    settles them one by one, in place. *)
Lemma process_all (todo : list UploadFile) :
  forall (w : World) (before : list UploadFile),
    files w = before ++ todo ->
    NoDup (map id todo) ->
    (forall f, In f todo -> ~ In (id f) (map id before)) ->
    let w' := fold_left (processFile outcome) todo w in
    files w' = before ++ map (settled outcome) todo /\
    uploads w' = uploads w ++ map file (filter (fun f => accepted (file f)) todo).
Proof.
  induction todo as [| uf todo IH]; intros w before Hfiles Hnd Hfresh; cbv zeta.
  - cbn. split; [exact Hfiles | now rewrite app_nil_r].
  - cbn [fold_left]. cbn [map] in Hnd.
    inversion Hnd as [| ? ? Hhead Hrest]; subst.
    pose proof (processFile_on_own_entry w uf before todo Hfiles
                  (Hfresh uf (or_introl eq_refl)) Hhead) as Hstep.
    destruct (IH (processFile outcome w uf) (before ++ [settled outcome uf]))
      as [Hf Hu].
    + rewrite Hstep, <- app_assoc. reflexivity.
    + exact Hrest.
    + intros f Hin. rewrite map_app, in_app_iff. cbn [map In].
      rewrite settled_id. intros [H | [H | []]].
      * now apply (Hfresh f (or_intror Hin)).
      * apply Hhead. rewrite H. now apply in_map.
    + split.
      * rewrite Hf, <- app_assoc. reflexivity.
      * rewrite Hu. destruct (processFile_effect w uf) as [_ ->].
        rewrite <- app_assoc. f_equal. cbn [filter].
        now destruct (accepted (file uf)).
Qed.

Lemma newFiles_ids (ids : nat -> string) (now : nat -> N) (fileList : list File) :
  map id (newFiles ids now fileList) = map ids (seq 0 (List.length fileList)).
Proof. unfold newFiles, mapi. now apply map_mapi_from_index. Qed.

Lemma newFiles_nth (ids : nat -> string) (now : nat -> N)
    (fileList : list File) (k : nat) :
  nth_error (newFiles ids now fileList) k =
  match nth_error fileList k with
  | Some f => Some {| file := f; id := ids k; status := uploading;
                      progress := None; error_message := None;
                      startTime := Some (now k) |}
  | None => None
  end.
Proof. unfold newFiles, mapi. now rewrite mapi_from_nth. Qed.

Lemma newFiles_accepted (ids : nat -> string) (now : nat -> N)
    (fileList : list File) :
  map file (filter (fun f => accepted (file f)) (newFiles ids now fileList))
  = filter accepted fileList.
Proof.
  unfold newFiles, mapi. generalize 0%nat as k.
  induction fileList as [| f l IH]; intros k; cbn; [reflexivity|].
  destruct (accepted f); cbn; now rewrite IH.
Qed.

(** What [handleFiles] leaves, for identifiers that are new and distinct. *)
Lemma handleFiles_result (ids : nat -> string) (now : nat -> N)
    (fileList : list File) (w : World) :
  NoDup (map ids (seq 0 (List.length fileList))) ->
  (forall k, (k < List.length fileList)%nat -> ~ In (ids k) (map id (files w))) ->
  let w' := handleFiles outcome ids now fileList w in
  files w' = files w ++ map (settled outcome) (newFiles ids now fileList) /\
  uploads w' = uploads w ++ filter accepted fileList.
Proof.
  intros Hnd Hfresh. cbv zeta. unfold handleFiles.
  destruct (process_all (newFiles ids now fileList)
              (append_files (newFiles ids now fileList) w) (files w))
    as [Hf Hu].
  - reflexivity.
  - now rewrite newFiles_ids.
  - intros f Hin. apply (in_map id) in Hin. rewrite newFiles_ids in Hin.
    apply in_map_iff in Hin as (k & <- & Hk). apply in_seq in Hk.
    apply Hfresh. lia.
  - split; [exact Hf|]. rewrite Hu. cbn [uploads append_files].
    now rewrite newFiles_accepted.
Qed.

End UploadList.

Section UploadProperties.

Import Upload.

Lemma validate_unsupported (f : File) :
  supported (name f) = false ->
  validate f = Some "Only PDF, DOCX, and TXT files are supported"%string.
Proof. intros H. unfold validate. now rewrite H. Qed.

(** How an entry ends, read off the checks and the server's answer. *)
Lemma settled_spec (outcome : File -> Outcome) (uploadFile : UploadFile) :
  let f := file uploadFile in
  let e := settled outcome uploadFile in
  file e = f /\ id e = id uploadFile /\ startTime e = startTime uploadFile /\
  (status e = success \/ status e = error) /\
  (status e = success <->
   validate f = None /\ exists document, outcome f = Resolved document) /\
  (forall message,
      validate f = Some message ->
      status e = error /\ error_message e = Some message).
Proof.
  cbv zeta. unfold settled.
  destruct (validate (file uploadFile)) as [message|] eqn:Ev.
  - cbn. split; [reflexivity|]. split; [reflexivity|]. split; [reflexivity|].
    split; [now right|]. split.
    + split; [discriminate | intros [H _]; discriminate].
    + now intros message' [= <-].
  - destruct (outcome (file uploadFile)) as [doc | [message|]] eqn:Eo; cbn;
      (split; [reflexivity|]); (split; [reflexivity|]); (split; [reflexivity|]).
    + split; [now left|]. split; [|discriminate].
      split; [intros _; split; [reflexivity | now exists doc] | reflexivity].
    + split; [now right|]. split; [|discriminate].
      split; [discriminate | intros [_ [doc Hd]]; discriminate].
    + split; [now right|]. split; [|discriminate].
      split; [discriminate | intros [_ [doc Hd]]; discriminate].
Qed.

(** Once [handleFiles] has run through a batch whose identifiers are new
    and pairwise distinct, the list is the earlier list, untouched,
    followed by one entry per chosen file in the order chosen; each entry
    has ended as [success] or [error], none is left [uploading] or
    [processing]; it is [success] exactly when the file passed both checks
    and the server call resolved, and it carries the message of the check
    that failed, the type check coming first; and the server was sent
    exactly the files that passed the checks, in order. *)
Theorem handleFiles_settles_every_file
    (outcome : File -> Outcome) (ids : nat -> string) (now : nat -> N)
    (fileList : list File) (w : World) :
  NoDup (map ids (seq 0 (List.length fileList))) ->
  (forall k, (k < List.length fileList)%nat -> ~ In (ids k) (map id (files w))) ->
  let w' := handleFiles outcome ids now fileList w in
  exists entries,
    files w' = files w ++ entries /\
    List.length entries = List.length fileList /\
    uploads w' = uploads w ++ filter accepted fileList /\
    forall k f,
      nth_error fileList k = Some f ->
      exists e,
        nth_error entries k = Some e /\
        file e = f /\ id e = ids k /\ startTime e = Some (now k) /\
        (status e = success \/ status e = error) /\
        (status e = success <->
         validate f = None /\ exists document, outcome f = Resolved document) /\
        (forall message,
            validate f = Some message ->
            status e = error /\ error_message e = Some message) /\
        (supported (name f) = false ->
         error_message e = Some "Only PDF, DOCX, and TXT files are supported"%string).
Proof.
  intros Hnd Hfresh. cbv zeta.
  destruct (handleFiles_result outcome ids now fileList w Hnd Hfresh) as [Hf Hu].
  exists (map (settled outcome) (newFiles ids now fileList)).
  split; [exact Hf|]. split.
  { unfold newFiles, mapi. now rewrite length_map, mapi_from_length. }
  split; [exact Hu|].
  intros k f Hk. rewrite nth_error_map, newFiles_nth, Hk. cbn [option_map].
  eexists. split; [reflexivity|].
  match goal with
  | |- context [settled outcome ?uf] =>
      destruct (settled_spec outcome uf) as (H1 & H2 & H3 & H4 & H5 & H6)
  end.
  cbn [file id startTime] in H1, H2, H3, H5, H6.
  split; [exact H1|]. split; [exact H2|]. split; [exact H3|].
  split; [exact H4|]. split; [exact H5|]. split; [exact H6|].
  intros Hsup. now apply H6, validate_unsupported.
Qed.

Lemma filter_none {A : Type} (p : A -> bool) (l : list A) :
  (forall a, In a l -> p a = false) -> filter p l = [].
Proof.
  induction l as [| a l IH]; intros H; cbn; [reflexivity|].
  rewrite (H a (or_introl eq_refl)). apply IH. intros b Hb. apply H. now right.
Qed.

Lemma filter_twice {A : Type} (p q : A -> bool) (l : list A) :
  filter p (filter q l) = filter (fun a => q a && p a) l.
Proof.
  induction l as [| a l IH]; cbn; [reflexivity|].
  destruct (q a); cbn; [destruct (p a)|]; now rewrite IH.
Qed.

Lemma remove_all (keys : list string) (l : list UploadFile) :
  fold_left (fun prev key => removeFile key prev) keys l =
  filter (fun f => negb (existsb (String.eqb (id f)) keys)) l.
Proof.
  revert l. induction keys as [| key keys IH]; intros l; cbn [fold_left existsb].
  - cbn. symmetry. apply forallb_filter_id. now apply forallb_forall.
  - rewrite IH. unfold removeFile. rewrite filter_twice. apply filter_ext.
    intros f. now rewrite negb_orb.
Qed.

(** Taking the entries of a batch out again, one identifier after the
    other, gives back the earlier list exactly, provided the identifiers
    drawn for the batch were new and pairwise distinct. *)
Theorem removing_a_batch_restores_the_list
    (outcome : File -> Outcome) (ids : nat -> string) (now : nat -> N)
    (fileList : list File) (w : World) :
  NoDup (map ids (seq 0 (List.length fileList))) ->
  (forall k, (k < List.length fileList)%nat -> ~ In (ids k) (map id (files w))) ->
  fold_left (fun prev key => removeFile key prev)
            (map ids (seq 0 (List.length fileList)))
            (files (handleFiles outcome ids now fileList w))
  = files w.
Proof.
  intros Hnd Hfresh.
  destruct (handleFiles_result outcome ids now fileList w Hnd Hfresh) as [-> _].
  rewrite remove_all, filter_app.
  set (keys := map ids (seq 0 (List.length fileList))).
  assert (Hkeep : filter (fun f => negb (existsb (String.eqb (id f)) keys)) (files w)
                  = files w).
  { apply forallb_filter_id. apply forallb_forall. intros f Hin.
    apply negb_true_iff. apply not_true_is_false. intros H.
    apply existsb_exists in H as (key & Hkey & E).
    apply String.eqb_eq in E. unfold keys in Hkey.
    apply in_map_iff in Hkey as (k & Hk & Hseq). apply in_seq in Hseq.
    apply (Hfresh k); [lia|]. rewrite Hk, <- E. now apply in_map. }
  assert (Hdrop : filter (fun f => negb (existsb (String.eqb (id f)) keys))
                         (map (settled outcome) (newFiles ids now fileList)) = []).
  { apply filter_none. intros f Hin. apply negb_false_iff.
    apply existsb_exists. exists (id f). split; [|apply String.eqb_refl].
    apply in_map_iff in Hin as (uf & <- & Hin). rewrite settled_id.
    unfold keys. rewrite <- (newFiles_ids ids now). now apply in_map. }
  rewrite Hkeep, Hdrop. apply app_nil_r.
Qed.

End UploadProperties.

Section UploadWitnesses.

Import Upload.

Lemma sample_ids_distinct : NoDup (map sample_ids (seq 0 (List.length sample_files))).
Proof.
  cbn. apply NoDup_cons; [intros [H | []]; discriminate H|].
  apply NoDup_cons; [intros [] | apply NoDup_nil].
Qed.

Lemma handleFiles_settles_every_file_witness :
  let w' := handleFiles sample_outcome sample_ids sample_clock sample_files
              fresh_world in
  exists entries,
    files w' = files fresh_world ++ entries /\
    List.length entries = List.length sample_files /\
    uploads w' = uploads fresh_world ++ filter accepted sample_files /\
    forall k f,
      nth_error sample_files k = Some f ->
      exists e,
        nth_error entries k = Some e /\
        file e = f /\ id e = sample_ids k /\ startTime e = Some (sample_clock k) /\
        (status e = success \/ status e = error) /\
        (status e = success <->
         validate f = None /\ exists document, sample_outcome f = Resolved document) /\
        (forall message,
            validate f = Some message ->
            status e = error /\ error_message e = Some message) /\
        (supported (name f) = false ->
         error_message e = Some "Only PDF, DOCX, and TXT files are supported"%string).
Proof.
  apply (handleFiles_settles_every_file sample_outcome sample_ids sample_clock
           sample_files fresh_world).
  - exact sample_ids_distinct.
  - intros k _ H. exact H.
Defined.

Lemma removing_a_batch_restores_the_list_witness :
  fold_left (fun prev key => removeFile key prev)
            (map sample_ids (seq 0 (List.length sample_files)))
            (files (handleFiles sample_outcome sample_ids sample_clock
                      sample_files fresh_world))
  = files fresh_world.
Proof.
  apply (removing_a_batch_restores_the_list sample_outcome sample_ids
           sample_clock sample_files fresh_world).
  - exact sample_ids_distinct.
  - intros k _ H. exact H.
Defined.

(** The sample batch worked out: the PDF is sent and ends as [success],
    the executable is refused without being sent. *)
Example sample_batch :
  let w' := handleFiles sample_outcome sample_ids sample_clock sample_files
              fresh_world in
  map status (files w') = [success; error] /\
  map name (uploads w') = ["Report.PDF"%string] /\
  map error_message (files w') =
    [None; Some "Only PDF, DOCX, and TXT files are supported"%string].
Proof. vm_compute. repeat split. Qed.

End UploadWitnesses.

Section LongUploads.

Import Upload.

Lemma mark_ids (key : string) (change : UploadFile -> UploadFile)
    (l : list UploadFile) :
  (forall f, id (change f) = id f) -> map id (mark key change l) = map id l.
Proof.
  intros Hid. unfold mark. rewrite map_map. apply map_ext. intros f.
  now destruct (String.eqb (id f) key).
Qed.

Lemma processFile_ids (outcome : File -> Outcome) (w : World) (uploadFile : UploadFile) :
  map id (files (processFile outcome w uploadFile)) = map id (files w).
Proof.
  destruct (processFile_effect outcome w uploadFile) as [-> _].
  apply mark_ids. intros f.
  destruct (validate (file uploadFile)); [reflexivity|].
  now destruct (outcome (file uploadFile)) as [doc | [message|]].
Qed.

Lemma fold_processFile_ids (outcome : File -> Outcome) (todo : list UploadFile)
    (w : World) :
  map id (files (fold_left (processFile outcome) todo w)) = map id (files w).
Proof.
  revert w. induction todo as [| uf todo IH]; intros w; cbn [fold_left];
    [reflexivity|].
  rewrite IH. apply processFile_ids.
Qed.

(** After [mark], the entries under the key are images of the change. *)
Lemma in_mark_key (key : string) (change : UploadFile -> UploadFile)
    (l : list UploadFile) (e : UploadFile) :
  (forall f, id (change f) = id f) ->
  In e (mark key change l) -> id e = key ->
  exists f, In f l /\ e = change f.
Proof.
  intros Hid Hin He. unfold mark in Hin.
  apply in_map_iff in Hin as (f & Hf & Hin). exists f. split; [exact Hin|].
  destruct (String.eqb (id f) key) eqn:E; [now symmetry|].
  apply String.eqb_neq in E. subst e. contradiction.
Qed.

Lemma existsb_filter_irrelevant {A : Type} (p keep : A -> bool) (l : list A) :
  (forall a, In a l -> keep a = false -> p a = false) ->
  existsb p l = existsb p (filter keep l).
Proof.
  induction l as [| a l IH]; intros H; cbn; [reflexivity|].
  rewrite IH by (intros b Hb; apply H; now right).
  destruct (keep a) eqn:E; cbn; [reflexivity|].
  now rewrite (H a (or_introl eq_refl) E).
Qed.

(** While [handleFiles] waits for the server's answer about a file, the
    entry of that file is [processing], not [uploading]: the test for
    long uploads never counts the file in flight, only files queued behind
    it or left [uploading] by something else.  With a single file chosen
    and no entry [uploading] before, the refresh suggestion therefore
    never comes up, however long the upload takes. *)
Theorem file_in_flight_is_never_a_long_upload
    (outcome : File -> Outcome) (ids : nat -> string) (now : nat -> N)
    (fileList : list File) (w w' : World) (k : nat) :
  awaiting outcome ids now fileList w k = Some w' ->
  (exists f sent,
      nth_error fileList k = Some f /\ accepted f = true /\
      uploads w' = sent ++ [f]) /\
  (exists e, In e (files w') /\ id e = ids k) /\
  (forall e, In e (files w') -> id e = ids k -> status e = processing) /\
  (forall clock,
      hasLongUploads clock (files w')
      = hasLongUploads clock (removeFile (ids k) (files w'))) /\
  (List.length fileList = 1%nat ->
   Forall (fun e => status e <> uploading) (files w) ->
   forall clock, hasLongUploads clock (files w') = false).
Proof.
  unfold awaiting. rewrite newFiles_nth.
  destruct (nth_error fileList k) as [f|] eqn:Ek; [|discriminate].
  cbn [file]. destruct (validate f) as [message|] eqn:Ev; [discriminate|].
  intros [= <-].
  set (uf := {| file := f; id := ids k; status := uploading; progress := None;
                error_message := None; startTime := Some (now k) |}).
  set (w0 := fold_left (processFile outcome)
               (firstn k (newFiles ids now fileList))
               (append_files (newFiles ids now fileList) w)).
  assert (Hidp : forall g, id (with_status processing g) = id g) by reflexivity.
  assert (Hproc : forall e, In e (files (start uf w0)) -> id e = ids k ->
                            status e = processing).
  { intros e Hin He. cbn [start files id uf] in Hin.
    destruct (in_mark_key _ _ _ e Hidp Hin He) as (g & _ & ->). reflexivity. }
  split; [|split; [|split; [exact Hproc|split]]].
  - exists f, (uploads w0). unfold accepted. rewrite Ev.
    split; [reflexivity|]. split; reflexivity.
  - assert (Hin : In (ids k) (map id (files (start uf w0)))).
    { cbn [start files]. rewrite mark_ids by exact Hidp.
      unfold w0. rewrite fold_processFile_ids. cbn [append_files files].
      rewrite map_app, in_app_iff. right. rewrite newFiles_ids.
      apply in_map. apply in_seq.
      assert (k < List.length fileList)%nat by (apply nth_error_Some; congruence).
      lia. }
    apply in_map_iff in Hin as (e & He & Hin). now exists e.
  - intros clock. unfold hasLongUploads, removeFile.
    apply existsb_filter_irrelevant. intros e Hin Hkeep.
    apply negb_false_iff, String.eqb_eq in Hkeep.
    now rewrite (Hproc e Hin Hkeep).
  - intros Hone Hidle clock.
    assert (Hk : k = 0%nat).
    { assert (k < List.length fileList)%nat by (apply nth_error_Some; congruence).
      lia. }
    subst k. destruct fileList as [| f0 [| f1 rest]]; try discriminate.
    cbn in Ek. injection Ek as ->.
    unfold hasLongUploads. apply not_true_is_false. intros H.
    apply existsb_exists in H as (e & Hin & He).
    cbn [start files] in Hin. unfold w0 in Hin.
    cbn [firstn fold_left append_files files] in Hin.
    unfold mark in Hin. apply in_map_iff in Hin as (g & Hg & Hin).
    assert (Hst : status e <> uploading).
    { destruct (String.eqb (id g) (id uf)) eqn:E; subst e; [discriminate|].
      apply in_app_iff in Hin as [Hin | Hin].
      - rewrite Forall_forall in Hidle. now apply Hidle.
      - unfold newFiles, mapi in Hin. cbn in Hin. destruct Hin as [<- | []].
        cbn in E. now rewrite String.eqb_refl in E. }
    destruct (status e); try discriminate. now contradiction Hst.
Qed.

End LongUploads.

Section LongUploadWitness.

Import Upload.

Lemma file_in_flight_is_never_a_long_upload_witness :
  exists w',
    awaiting sample_outcome sample_ids sample_clock (firstn 1 sample_files)
             fresh_world 0 = Some w' /\
    forall clock, hasLongUploads clock (files w') = false.
Proof.
  eexists. split; [vm_compute; reflexivity|].
  apply (file_in_flight_is_never_a_long_upload sample_outcome sample_ids
           sample_clock (firstn 1 sample_files) fresh_world _ 0%nat eq_refl).
  - reflexivity.
  - constructor.
Defined.

End LongUploadWitness.
